(** * speechless: corpus, split strategies, batch generation and spectrogram
    post-processing

    A shallow embedding of [tools.py], [corpus.py] and the numeric helpers of
    [labeled_example.py], followed by the properties of the specification
    that were checked against it.

    Conventions.
    - A Python [int] is a [Z]; a [float] is a binary64 [float] of the kernel.
    - A [str] is a [string] that holds the bytes of its UTF-8 encoding.
      Comparison, order and concatenation of two [str] are those of their
      encodings.  A [str] with a lone surrogate has no encoding and is no
      string here; the only place that tells it apart is a write to a file
      opened with [encoding='utf8'], which raises [UnicodeEncodeError].
    - A call that can raise returns a [result]; [Raise] carries the exception.
    - The process-wide generator of the [random] module is threaded through
      explicitly as a state of type [G]. *)

From Stdlib Require Import List String Ascii ZArith Lia Bool Arith Permutation Sorted.
From Stdlib Require Import Floats.
From Stdlib Require Import Reals Lra.
Import ListNotations.

Local Open Scope Z_scope.
Local Open Scope list_scope.

(* ================================================================== *)
(** ** Exceptions and results *)
(* ================================================================== *)

(** The exceptions the modelled code can raise.  A [ValueError] built with
    ["...{}".format(ids)] keeps the text before the placeholder and the list
    that is formatted into it apart. *)
Inductive exn : Type :=
| ValueError (message : string) (formatted : list string)
| KeyError (key : string)
| IndexError
| OverflowError
| StopIteration
| CsvError (message : string).

Inductive result (A : Type) : Type :=
| Ok (a : A)
| Raise (e : exn).

Arguments Ok {A} a.
Arguments Raise {A} e.

Definition bind {A B : Type} (r : result A) (k : A -> result B) : result B :=
  match r with
  | Ok a => k a
  | Raise e => Raise e
  end.

Notation "x <- c ;; k" := (bind c (fun x => k))
  (at level 61, c at next level, right associativity).

(** [[f(x) for x in xs]] where [f] can raise: the first exception wins. *)
Fixpoint traverse {A B : Type} (f : A -> result B) (xs : list A) : result (list B) :=
  match xs with
  | [] => Ok []
  | x :: xs' => y <- f x ;; ys <- traverse f xs' ;; Ok (y :: ys)
  end.

(** A failed [assert] is no [exn] above; the functions that assert return
    an [outcome]. *)
Inductive raised : Type :=
| Exception (e : exn)
| AssertionError.

Inductive outcome (A : Type) : Type :=
| Returned (a : A)
| Failed (r : raised).

Arguments Returned {A} a.
Arguments Failed {A} r.

(* ================================================================== *)
(** ** tools.py *)
(* ================================================================== *)

Module tools.

(** [collections.Counter(sequence)]: the distinct items in the order of
    their first occurrence, each with its number of occurrences. *)
Fixpoint counter_add {E : Type} (eqb : E -> E -> bool) (x : E)
         (c : list (E * nat)) : list (E * nat) :=
  match c with
  | [] => [(x, 1%nat)]
  | (y, n) :: c' =>
      if eqb x y then (y, S n) :: c' else (y, n) :: counter_add eqb x c'
  end.

Definition Counter {E : Type} (eqb : E -> E -> bool) (sequence : list E)
  : list (E * nat) :=
  fold_left (fun c x => counter_add eqb x c) sequence [].

(** [counter[x]]: the count of [x], 0 for an item never added. *)
Fixpoint counter_get {E : Type} (eqb : E -> E -> bool) (x : E)
         (c : list (E * nat)) : nat :=
  match c with
  | [] => 0%nat
  | (y, n) :: c' => if eqb x y then n else counter_get eqb x c'
  end.

(** [[item for item, count in Counter(sequence).items() if count > 1]] *)
Definition duplicates {E : Type} (eqb : E -> E -> bool) (sequence : list E)
  : list E :=
  map fst (filter (fun ic => (1 <? snd ic)%nat) (Counter eqb sequence)).

(** An index of a slice [sequence[i:]] or [sequence[:i]], brought into
    [0 .. len]: a negative index counts from the end. *)
Definition slice_index (len : nat) (i : Z) : nat :=
  if i <? 0 then Z.to_nat (Z.max 0 (i + Z.of_nat len))
  else Z.to_nat (Z.min i (Z.of_nat len)).

(** [sequence[start:stop]] *)
Definition slice {E : Type} (sequence : list E) (start stop : Z) : list E :=
  let lo := slice_index (List.length sequence) start in
  let hi := slice_index (List.length sequence) stop in
  firstn (hi - lo) (skipn lo sequence).

(** [sequence[:stop]] *)
Definition slice_to {E : Type} (sequence : list E) (stop : Z) : list E :=
  firstn (slice_index (List.length sequence) stop) sequence.

(** [sequence[start:]] *)
Definition slice_from {E : Type} (sequence : list E) (start : Z) : list E :=
  skipn (slice_index (List.length sequence) start) sequence.

(** [range(0, stop, step)]: a zero step is a [ValueError]; a negative step
    gives nothing because [stop] is a length. *)
Definition range0 (stop : nat) (step : Z) : result (list Z) :=
  if step =? 0 then Raise (ValueError "range() arg 3 must not be zero" [])
  else if step <? 0 then Ok []
  else
    let count := Z.to_nat ((Z.of_nat stop + step - 1) / step) in
    Ok (map (fun i => Z.of_nat i * step) (seq 0 count)).

(** [paginate]: the pages the generator yields, in order.  The generator is
    lazy; an exception of [range] surfaces at the first page requested. *)
Definition paginate {E : Type} (sequence : list E) (page_size : Z)
  : result (list (list E)) :=
  starts <- range0 (List.length sequence) page_size ;;
  Ok (map (fun start => slice sequence start (start + page_size)) starts).

(** [sorted(iterable, key=key)]: a stable sort on [key] with the keys'
    [<].  Insertion from the right keeps equal keys in input order. *)
Fixpoint insert_sorted {E K : Type} (ltb : K -> K -> bool) (key : E -> K)
         (x : E) (sorted : list E) : list E :=
  match sorted with
  | [] => [x]
  | y :: ys =>
      if ltb (key y) (key x) then y :: insert_sorted ltb key x ys
      else x :: y :: ys
  end.

Definition sorted {E K : Type} (ltb : K -> K -> bool) (key : E -> K)
           (iterable : list E) : list E :=
  fold_right (insert_sorted ltb key) [] iterable.

(** [itertools.groupby(iterable, key)]: runs of consecutive items whose key
    equals the key of the run's first item ([tgtkey == currkey]); each run
    is reported under that first key. *)
Fixpoint groupby_from {E K : Type} (eqb : K -> K -> bool) (key : E -> K)
         (tgtkey : K) (run : list E) (iterable : list E) : list (K * list E) :=
  match iterable with
  | [] => [(tgtkey, rev run)]
  | x :: xs =>
      if eqb tgtkey (key x) then groupby_from eqb key tgtkey (x :: run) xs
      else (tgtkey, rev run) :: groupby_from eqb key (key x) [x] xs
  end.

Definition groupby {E K : Type} (eqb : K -> K -> bool) (key : E -> K)
           (iterable : list E) : list (K * list E) :=
  match iterable with
  | [] => []
  | x :: xs => groupby_from eqb key (key x) [x] xs
  end.

(** [OrderedDict(pairs)]: a later pair with a key already present replaces
    the value and keeps the key's place. *)
Fixpoint odict_set {K V : Type} (eqb : K -> K -> bool) (k : K) (v : V)
         (d : list (K * V)) : list (K * V) :=
  match d with
  | [] => [(k, v)]
  | (k', v') :: d' =>
      if eqb k k' then (k', v) :: d' else (k', v') :: odict_set eqb k v d'
  end.

Definition OrderedDict {K V : Type} (eqb : K -> K -> bool)
           (pairs : list (K * V)) : list (K * V) :=
  fold_left (fun d kv => odict_set eqb (fst kv) (snd kv) d) pairs [].

(** [group(iterable, key)] with the default [value]. *)
Definition group {E K : Type} (eqb ltb : K -> K -> bool) (key : E -> K)
           (iterable : list E) : list (K * list E) :=
  OrderedDict eqb (groupby eqb key (sorted ltb key iterable)).

Definition keys {K V : Type} (d : list (K * V)) : list K := map fst d.

(** [single]: [sequence[0]] is taken before the length is asserted. *)
Definition single {E : Type} (sequence : list E) : outcome E :=
  match nth_error sequence 0 with
  | None => Failed (Exception IndexError)
  | Some first =>
      if (List.length sequence =? 1)%nat then Returned first
      else Failed AssertionError
  end.

(** [single_or_none]: [next(iter(sequence), None)] after the assertion. *)
Definition single_or_none {E : Type} (sequence : list E) : outcome (option E) :=
  if (List.length sequence <=? 1)%nat then Returned (hd_error sequence)
  else Failed AssertionError.

(** [OrderedDict.fromkeys(sequence)]: every item a key, with the value
    [None]. *)
Definition fromkeys {E : Type} (eqb : E -> E -> bool) (sequence : list E)
  : list (E * unit) :=
  fold_left (fun d x => odict_set eqb x tt d) sequence [].

(** [distinct]: [list(OrderedDict.fromkeys(sequence))] *)
Definition distinct {E : Type} (eqb : E -> E -> bool) (sequence : list E) : list E :=
  keys (fromkeys eqb sequence).

End tools.

(* ================================================================== *)
(** ** The [random] module *)
(* ================================================================== *)

(** The generator behind [random.seed] and [random.sample].  [G] is the state
    of the process-wide Mersenne Twister; [randbelow g n] is
    [Random._randbelow(n)] run in state [g]: the number drawn and the state
    it leaves. *)
Class Generator (G : Type) : Type := {
  seed : Z -> G;
  randbelow : G -> nat -> nat * G
}.

Module random.
Section Sample.

Context {G : Type} `{Generator G} {A : Type}.

(** [_ceil(_log(m, 4))] for [m >= 1]: the least [e] with [4 ** e >= m]. *)
Definition ceil_log4 (m : Z) : Z := (Z.log2_up m + 1) / 2.

(** [setsize] of [Random.sample]. *)
Definition setsize (k : Z) : Z :=
  21 + (if 5 <? k then 4 ^ ceil_log4 (k * 3) else 0).

(** [pool[j] = v] *)
Fixpoint list_set (pool : list A) (j : nat) (v : A) : list A :=
  match pool, j with
  | [], _ => []
  | _ :: rest, O => v :: rest
  | x :: rest, S j' => x :: list_set rest j' v
  end.

(** The branch of [sample] on a copy of the population:
<<
    for i in range(k):
        j = randbelow(n-i)
        result[i] = pool[j]
        pool[j] = pool[n-i-1]
>>
    [todo] counts the iterations that remain. *)
Fixpoint sample_pool (todo i n : nat) (pool : list A) (g : G)
  : result (list A) * G :=
  match todo with
  | O => (Ok [], g)
  | S todo' =>
      let (j, g1) := randbelow g (n - i) in
      match nth_error pool j, nth_error pool (n - i - 1) with
      | Some x, Some y =>
          let (r, g2) := sample_pool todo' (S i) n (list_set pool j y) g1 in
          (xs <- r ;; Ok (x :: xs), g2)
      | _, _ => (Raise IndexError, g1)
      end
  end.

(** [j = randbelow(n); while j in selected: j = randbelow(n)], at most
    [fuel] draws. *)
Fixpoint draw_unselected (fuel : nat) (n : nat) (selected : list nat) (g : G)
  : option (nat * G) :=
  match fuel with
  | O => None
  | S fuel' =>
      let (j, g1) := randbelow g n in
      if existsb (Nat.eqb j) selected then draw_unselected fuel' n selected g1
      else Some (j, g1)
  end.

(** The branch of [sample] that remembers the selected indices:
<<
    for i in range(k):
        j = randbelow(n)
        while j in selected:
            j = randbelow(n)
        selected_add(j)
        result[i] = population[j]
>>
    [None] when some [while] loop needs more than [fuel] draws. *)
Fixpoint sample_set (fuel todo n : nat) (population : list A)
         (selected : list nat) (g : G) : option (result (list A) * G) :=
  match todo with
  | O => Some (Ok [], g)
  | S todo' =>
      match draw_unselected fuel n selected g with
      | None => None
      | Some (j, g1) =>
          match nth_error population j with
          | None => Some (Raise IndexError, g1)
          | Some x =>
              match sample_set fuel todo' n population (j :: selected) g1 with
              | None => None
              | Some (r, g2) => Some (xs <- r ;; Ok (x :: xs), g2)
              end
          end
      end
  end.

(** [random.sample(population, k)] on a sequence (a set or a view of a
    dict's keys is first copied into a tuple, in iteration order). *)
Definition sample (fuel : nat) (population : list A) (k : Z) (g : G)
  : option (result (list A) * G) :=
  let n := List.length population in
  if negb ((0 <=? k) && (k <=? Z.of_nat n)) then
    Some (Raise (ValueError "Sample larger than population or is negative" []), g)
  else if Z.of_nat n <=? setsize k then
    Some (sample_pool (Z.to_nat k) 0 n population g)
  else sample_set fuel (Z.to_nat k) n population [] g.

End Sample.
End random.

(* ================================================================== *)
(** ** Text files and the [csv] module *)
(* ================================================================== *)

(** The text of a file opened with [encoding='utf8'] is the list of the
    bytes in the file.  The characters the newline translation and the
    [csv] module look at (line feed, carriage return, the character 0, the
    comma and the quote) are single bytes, and none of these bytes occurs
    inside the encoding of another character, so what they do to a text
    they do to its bytes. *)
Definition text : Type := list ascii.

Definition NUL : ascii := ascii_of_nat 0.
Definition LF : ascii := ascii_of_nat 10.
Definition CR : ascii := ascii_of_nat 13.

Module io.

(** [os.linesep]: a line feed on a POSIX system, a carriage return and a
    line feed on Windows. *)
Definition linesep_posix : text := [LF].
Definition linesep_windows : text := [CR; LF].

(** Writing through a file opened with [open('w')] and no [newline]
    argument on a platform with the line separator [linesep]: every ['\n']
    becomes [os.linesep]. *)
Fixpoint write (linesep : text) (s : text) : text :=
  match s with
  | [] => []
  | c :: rest => (if Ascii.eqb c LF then linesep else [c]) ++ write linesep rest
  end.

(** Reading through a file opened with [open()] and no [newline] argument
    (universal newlines): ['\r\n'] and a lone ['\r'] both read as ['\n']. *)
Fixpoint read (s : text) : text :=
  match s with
  | [] => []
  | c :: rest =>
      if Ascii.eqb c CR then
        match rest with
        | c' :: rest' => if Ascii.eqb c' LF then LF :: read rest' else LF :: read rest
        | [] => [LF]
        end
      else c :: read rest
  end.

(** Iterating over the file: the lines, each with its ['\n'] except
    possibly the last. *)
Fixpoint lines (s : text) : list text :=
  match s with
  | [] => []
  | c :: rest =>
      if Ascii.eqb c LF then [c] :: lines rest
      else match lines rest with
           | [] => [[c]]
           | l :: ls => (c :: l) :: ls
           end
  end.

End io.

Module csv.

(** The dialect of [csv.writer] and [csv.reader] called with
    a comma as delimiter, the double quote as quotechar and
    [quoting=csv.QUOTE_MINIMAL]; the other
    parameters keep their defaults: [doublequote=True], [escapechar=None]
    (the character 0 in the C structure), [lineterminator='\r\n'],
    [skipinitialspace=False], [strict=False]. *)
Definition delimiter : ascii := ascii_of_nat 44.
Definition quotechar : ascii := ascii_of_nat 34.
Definition escapechar : ascii := NUL.
Definition lineterminator : text := [CR; LF].
Definition field_limit : Z := 131072.

(** *** Writer *)

(** A value handed to [writerow]: a string or [None]. *)
Inductive cell : Type :=
| Str (s : string)
| PyNone.

(** Characters that make [join_append_data] quote a field under
    [QUOTE_MINIMAL]. *)
Definition special (c : ascii) : bool :=
  Ascii.eqb c delimiter || Ascii.eqb c escapechar || Ascii.eqb c quotechar
  || existsb (Ascii.eqb c) lineterminator.

(** [join_append_data]: the field's characters as they are copied into the
    record (a quote character is doubled), and whether the field has to be
    quoted. *)
Fixpoint join_append_data (field : text) : text * bool :=
  match field with
  | [] => ([], false)
  | c :: rest =>
      let (copied, quoted) := join_append_data rest in
      if special c then
        ((if Ascii.eqb c quotechar then [quotechar; c] else [c]) ++ copied, true)
      else (c :: copied, quoted)
  end.

(** [join_append]: one field appended to the record [rec] that holds
    [num_fields] fields already. *)
Definition join_append (rec : text) (num_fields : nat) (field : cell) : text :=
  let data := match field with
              | Str s => list_ascii_of_string s
              | PyNone => []
              end in
  let (copied, quoted) := join_append_data data in
  rec ++ (if (0 <? num_fields)%nat then [delimiter] else [])
      ++ (if quoted then [quotechar] else [])
      ++ copied
      ++ (if quoted then [quotechar] else []).

Fixpoint join_fields (rec : text) (num_fields : nat) (row : list cell) : text :=
  match row with
  | [] => rec
  | field :: rest => join_fields (join_append rec num_fields field) (S num_fields) rest
  end.

(** [writer.writerow(row)]: the text handed to the file's [write].  A record
    of one empty field is written as an empty quoted field. *)
Definition writerow (row : list cell) : text :=
  let rec := join_fields [] 0 row in
  let rec := if ((0 <? List.length row)%nat && (List.length rec =? 0)%nat)%bool
             then [quotechar; quotechar] else rec in
  rec ++ lineterminator.

(** *** Reader *)

(** The states of the parser that are reachable without an escape
    character. *)
Inductive ParserState : Type :=
| START_RECORD
| START_FIELD
| IN_FIELD
| IN_QUOTED_FIELD
| QUOTE_IN_QUOTED_FIELD
| EAT_CRNL.

Record Reader : Type := {
  fields : list string;
  field : text;
  state : ParserState
}.

Definition parse_reset : Reader :=
  {| fields := []; field := []; state := START_RECORD |}.

Definition set_state (self : Reader) (s : ParserState) : Reader :=
  {| fields := fields self; field := field self; state := s |}.

Definition parse_save_field (self : Reader) : Reader :=
  {| fields := fields self ++ [string_of_list_ascii (field self)];
     field := [];
     state := state self |}.

(** The bytes [10xxxxxx], which continue the encoding of a character. *)
Definition continuation (c : ascii) : bool :=
  let n := nat_of_ascii c in (128 <=? n)%nat && (n <? 192)%nat.

(** The number of characters of a field: the bytes that start one. *)
Definition characters (field : text) : nat :=
  List.length (filter (fun c => negb (continuation c)) field).

(** [parse_add_char]: the field limit counts characters; the byte of a
    character's continuation is taken in with its character. *)
Definition parse_add_char (self : Reader) (c : ascii) : result Reader :=
  if negb (continuation c) && (field_limit <=? Z.of_nat (characters (field self))) then
    Raise (CsvError "field larger than field limit (131072)")
  else Ok {| fields := fields self; field := field self ++ [c]; state := state self |}.

Definition is_eol (c : ascii) : bool :=
  Ascii.eqb c LF || Ascii.eqb c CR || Ascii.eqb c NUL.

Definition after_eol (c : ascii) : ParserState :=
  if Ascii.eqb c NUL then START_RECORD else EAT_CRNL.

(** The case [START_FIELD] of [parse_process_char]. *)
Definition start_field (self : Reader) (c : ascii) : result Reader :=
  if is_eol c then Ok (set_state (parse_save_field self) (after_eol c))
  else if Ascii.eqb c quotechar then Ok (set_state self IN_QUOTED_FIELD)
  else if Ascii.eqb c delimiter then Ok (parse_save_field self)
  else self' <- parse_add_char self c ;; Ok (set_state self' IN_FIELD).

(** [parse_process_char]; the character 0 is the end of a line. *)
Definition parse_process_char (self : Reader) (c : ascii) : result Reader :=
  match state self with
  | START_RECORD =>
      if Ascii.eqb c NUL then Ok self
      else if Ascii.eqb c LF || Ascii.eqb c CR then Ok (set_state self EAT_CRNL)
      else start_field (set_state self START_FIELD) c
  | START_FIELD => start_field self c
  | IN_FIELD =>
      if is_eol c then Ok (set_state (parse_save_field self) (after_eol c))
      else if Ascii.eqb c delimiter then
        Ok (set_state (parse_save_field self) START_FIELD)
      else parse_add_char self c
  | IN_QUOTED_FIELD =>
      if Ascii.eqb c NUL then Ok self
      else if Ascii.eqb c quotechar then Ok (set_state self QUOTE_IN_QUOTED_FIELD)
      else parse_add_char self c
  | QUOTE_IN_QUOTED_FIELD =>
      if Ascii.eqb c quotechar then
        self' <- parse_add_char self c ;; Ok (set_state self' IN_QUOTED_FIELD)
      else if Ascii.eqb c delimiter then
        Ok (set_state (parse_save_field self) START_FIELD)
      else if is_eol c then Ok (set_state (parse_save_field self) (after_eol c))
      else self' <- parse_add_char self c ;; Ok (set_state self' IN_FIELD)
  | EAT_CRNL =>
      if Ascii.eqb c LF || Ascii.eqb c CR then Ok self
      else if Ascii.eqb c NUL then Ok (set_state self START_RECORD)
      else Raise (CsvError "new-line character seen in unquoted field")
  end.

(** One line through the parser: its characters, then the end of line. *)
Fixpoint feed_line (self : Reader) (line : text) : result Reader :=
  match line with
  | [] => parse_process_char self NUL
  | c :: rest =>
      if Ascii.eqb c NUL then Raise (CsvError "line contains NULL byte")
      else self' <- parse_process_char self c ;; feed_line self' rest
  end.

(** [[f(row) for row in reader]]: the reader takes lines until the parser
    is back at [START_RECORD], hands the row to the loop body [f] and
    starts afresh; at the end of the input a record left open is closed. *)
Fixpoint for_rows {B : Type} (f : list string -> result B) (self : Reader)
         (input : list text) : result (list B) :=
  match input with
  | [] =>
      if (0 <? List.length (field self))%nat
         || match state self with IN_QUOTED_FIELD => true | _ => false end
      then y <- f (fields (parse_save_field self)) ;; Ok [y]
      else Ok []
  | line :: rest =>
      self' <- feed_line self line ;;
      match state self' with
      | START_RECORD =>
          y <- f (fields self') ;;
          ys <- for_rows f parse_reset rest ;;
          Ok (y :: ys)
      | _ => for_rows f self' rest
      end
  end.

Definition reader_comprehension {B : Type} (f : list string -> result B)
           (opened_csv : text) : result (list B) :=
  for_rows f parse_reset (io.lines (io.read opened_csv)).

(** The same loop on the text before it is cut into lines (used in the
    proofs): every ['\n'] ends a line, and so does the end of a text that
    stops in the middle of a line ([mid_line]). *)
Definition end_of_line {B : Type} (f : list string -> result B)
           (continue : Reader -> result (list B)) (self : Reader)
  : result (list B) :=
  self' <- parse_process_char self NUL ;;
  match state self' with
  | START_RECORD =>
      y <- f (fields self') ;;
      ys <- continue parse_reset ;;
      Ok (y :: ys)
  | _ => continue self'
  end.

Fixpoint for_text {B : Type} (f : list string -> result B) (self : Reader)
         (mid_line : bool) (input : text) : result (list B) :=
  match input with
  | [] =>
      if mid_line then end_of_line f (fun s => for_rows f s []) self
      else for_rows f self []
  | c :: rest =>
      if Ascii.eqb c NUL then Raise (CsvError "line contains NULL byte")
      else
        self' <- parse_process_char self c ;;
        if Ascii.eqb c LF then
          end_of_line f (fun s => for_text f s false rest) self'
        else for_text f self' true rest
  end.

End csv.

(* ================================================================== *)
(** ** Python numbers *)
(* ================================================================== *)

Module py.

(** [float(z)] for an [int]: the nearest binary64, ties to even. *)
Definition float_of_int (z : Z) : float :=
  SF2Prim (binary_normalize prec emax z 0 false).

(** [int(x)] for a [float]: truncation towards zero. *)
Definition int_of_float (x : float) : result Z :=
  match Prim2SF x with
  | S754_zero _ => Ok 0
  | S754_infinity _ => Raise OverflowError
  | S754_nan => Raise (ValueError "cannot convert float NaN to integer" [])
  | S754_finite s m e =>
      let a := if 0 <=? e then Z.pos m * 2 ^ e else Z.pos m / 2 ^ (- e) in
      Ok (if s then - a else a)
  end.

(** A number a Python function returns: an [int] or a [float]. *)
Inductive number : Type :=
| Int (z : Z)
| Float (x : float).

Definition to_float (v : number) : float :=
  match v with
  | Int z => float_of_int z
  | Float x => x
  end.

Definition to_int (v : number) : result Z :=
  match v with
  | Int z => Ok z
  | Float x => int_of_float x
  end.

End py.

(* ================================================================== *)
(** ** pathlib *)
(* ================================================================== *)

(** [pathlib.Path], kept abstract: [Path(s)], [str(p)], [p.parent], [p.name]
    and the comparisons [==] and [<] of paths. *)
Class PurePath (Path : Type) : Type := {
  path_of_string : string -> Path;
  str : Path -> string;
  parent : Path -> Path;
  name : Path -> string;
  path_eqb : Path -> Path -> bool;
  path_ltb : Path -> Path -> bool
}.

(** The operations [sorted] and [groupby] need of a key: [==] and [<]. *)
Class Key (K : Type) : Type := {
  key_eqb : K -> K -> bool;
  key_ltb : K -> K -> bool
}.

#[export] Instance string_Key : Key string :=
  {| key_eqb := String.eqb; key_ltb := String.ltb |}.

#[export] Instance path_Key {Path : Type} `{PurePath Path} : Key Path :=
  {| key_eqb := path_eqb; key_ltb := path_ltb |}.

(* ================================================================== *)
(** ** labeled_example.py: the numeric helpers *)
(* ================================================================== *)

(** The arithmetic numpy applies to the elements of an array; [count n] is
    the element count [n] as an element. *)
Class Arithmetic (T : Type) : Type := {
  nzero : T;
  nadd : T -> T -> T;
  nsub : T -> T -> T;
  nmul : T -> T -> T;
  ndiv : T -> T -> T;
  nsqrt : T -> T;
  count : nat -> T
}.

(** Binary64, the arithmetic the program runs on. *)
#[export] Instance float64 : Arithmetic float :=
  {| nzero := PrimFloat.zero;
     nadd := PrimFloat.add;
     nsub := PrimFloat.sub;
     nmul := PrimFloat.mul;
     ndiv := PrimFloat.div;
     nsqrt := PrimFloat.sqrt;
     count := fun n => py.float_of_int (Z.of_nat n) |}.

(** The real numbers, the arithmetic binary64 approximates. *)
#[export] Instance exact : Arithmetic R :=
  {| nzero := 0%R;
     nadd := Rplus;
     nsub := Rminus;
     nmul := Rmult;
     ndiv := Rdiv;
     nsqrt := R_sqrt.sqrt;
     count := INR |}.

Module labeled_example.

Section Normalize.

Context {T : Type} `{Arithmetic T}.





End Normalize.

Section PowerLevel.

(** The C library's [log10] on the arguments [math.log10] passes on. *)
Variable log10 : float -> float.

(** [math.log10]: a [ValueError] on zero and on negative arguments. *)
Definition math_log10 (x : float) : result float :=
  if (x <=? 0)%float then Raise (ValueError "math domain error" [])
  else Ok (log10 x).

(** [l < min_decibel] with [l] a float. *)
Definition float_lt (l : float) (v : py.number) : bool :=
  (l <? py.to_float v)%float.

(** [power_to_decibel(x, min_decibel)] *)
Definition power_to_decibel (min_decibel : py.number) (x : float)
  : result py.number :=
  if (x =? 0)%float then Ok min_decibel
  else
    l0 <- math_log10 x ;;
    let l := (py.float_of_int 10 * l0)%float in
    Ok (if float_lt l min_decibel then min_decibel else py.Float l).

(** The default of [min_decibel]: the [int] [-150]. *)
Definition min_decibel_default : py.number := py.Int (-150).

(** The elements of an [ndarray] with its [dtype]; a [float32] element is
    its binary32 value (24 bits of precision, exponents below 128). *)
Inductive ndarray : Type :=
| float64_array (data : list float)
| int64_array (data : list Z)
| float32_array (data : list spec_float).

Definition int64 (z : Z) : result Z :=
  if (- 2 ^ 63 <=? z) && (z <? 2 ^ 63) then Ok z else Raise OverflowError.

(** [numpy.vectorize(pyfunc)(array)] without [otypes]: the output type is
    the type of [pyfunc] at the first element; an empty array is
    refused. *)
Definition vectorize (pyfunc : float -> result py.number) (array : list float)
  : result ndarray :=
  match array with
  | [] => Raise (ValueError "cannot call `vectorize` on size 0 inputs unless `otypes` is set" [])
  | first :: _ =>
      output <- pyfunc first ;;
      outputs <- traverse pyfunc array ;;
      match output with
      | py.Float _ => Ok (float64_array (map py.to_float outputs))
      | py.Int _ =>
          ints <- traverse (fun v => z <- py.to_int v ;; int64 z) outputs ;;
          Ok (int64_array ints)
      end
  end.

(** [LabeledExample._power_level_from_power_spectrogram] *)
Definition _power_level_from_power_spectrogram (spectrogram : list float)
  : result ndarray :=
  vectorize (power_to_decibel min_decibel_default) spectrogram.

End PowerLevel.

Inductive SpectrogramFrequencyScale : Type :=
| linear
| mel.

Inductive SpectrogramType : Type :=
| power
| amplitude
| power_level.

(** The Python [float] of a [numpy.float32]: the same value in binary64
    (the mantissa as an integer, scaled by the power of two; both steps
    are exact for a binary32 value). *)
Definition float_of_float32 (x : spec_float) : float :=
  match x with
  | S754_zero s => if s then (-0)%float else 0%float
  | S754_infinity s => if s then neg_infinity else infinity
  | S754_nan => nan
  | S754_finite s m e =>
      let magnitude := Z.ldexp (of_uint63 (Uint63.of_Z (Z.pos m))) e in
      if s then (- magnitude)%float else magnitude
  end.

Section Spectrogram.

(** The collaborators of [spectrogram]: the C library's [log10], the
    complex numbers of the STFT with their [abs], and the product with the
    mel filter bank, [dot(librosa.filters.mel(...), s)].  [librosa.stft]
    returns an array of dtype complex64, so [abs] of an element is a
    [float32]. *)
Variable log10 : float -> float.
Variable complex : Type.
Variable complex_abs : complex -> spec_float.
Variable mel_filter_dot : ndarray -> ndarray.

(** [_amplitude_spectrogram], on the result [stft] of
    [_complex_spectrogram()]: an array of dtype float32. *)
Definition _amplitude_spectrogram (stft : list complex) : list spec_float :=
  map complex_abs stft.

(** [_power_spectrogram]: [amplitude ** 2], element by element; numpy
    squares by multiplying, in the dtype of the array, float32. *)
Definition _power_spectrogram (stft : list complex) : list spec_float :=
  map (fun a => SFmul 24 128 a a) (_amplitude_spectrogram stft).

(** [spectrogram_by_type], the inner function of [spectrogram].
    [numpy.vectorize] hands the elements of the float32 array to
    [power_to_decibel] as Python floats and as a [numpy.float32] for its
    first call; both compare and take [math.log10] by their value. *)
Definition spectrogram_by_type (type : SpectrogramType) (stft : list complex)
  : result ndarray :=
  match type with
  | power => Ok (float32_array (_power_spectrogram stft))
  | amplitude => Ok (float32_array (_amplitude_spectrogram stft))
  | power_level =>
      _power_level_from_power_spectrogram
        log10 (map float_of_float32 (_power_spectrogram stft))
  end.

(** [spectrogram(type, frequency_scale)] *)
Definition spectrogram (type : SpectrogramType)
           (frequency_scale : SpectrogramFrequencyScale) (stft : list complex)
  : result ndarray :=
  s <- spectrogram_by_type type stft ;;
  Ok (match frequency_scale with
      | mel => mel_filter_dot s
      | linear => s
      end).

End Spectrogram.

Definition SpectrogramFrequencyScale_value (frequency_scale : SpectrogramFrequencyScale)
  : string :=
  match frequency_scale with
  | linear => "linear"
  | mel => "mel"
  end.

Definition SpectrogramType_value (type : SpectrogramType) : string :=
  match type with
  | power => "power"
  | amplitude => "amplitude"
  | power_level => "power level"
  end.

(** [s.replace(old, new)] for an [old] and a [new] of one character. *)
Fixpoint replace (old new : ascii) (s : string) : string :=
  match s with
  | EmptyString => EmptyString
  | String c rest => String (if Ascii.eqb c old then new else c) (replace old new rest)
  end.

(** The name of the file [save_spectrogram] writes into the target
    directory (the plot itself is an effect on the file system and is left
    out). *)
Definition save_spectrogram_name (id : string) (type : SpectrogramType)
           (frequency_scale : SpectrogramFrequencyScale) : string :=
  (id ++ "_"
      ++ match frequency_scale with mel => "mel_" | linear => "" end
      ++ replace " " "_" (SpectrogramType_value type)
      ++ "_spectrogram.png")%string.

(** The names of the files [save_spectrograms_of_all_types] writes, in the
    order of its two loops over the members of the enumerations. *)
Definition save_spectrograms_of_all_types_names (id : string) : list string :=
  flat_map (fun type =>
              map (fun frequency_scale => save_spectrogram_name id type frequency_scale)
                  [linear; mel])
           [power; amplitude; power_level].

(** [LabeledExample.__str__], from the id and the label: an empty label
    counts as no label. *)
Definition __str__ (id : string) (label : option string) : string :=
  (id ++ match label with
         | Some l => if String.eqb l "" then "" else ": " ++ l
         | None => ""
         end)%string.

End labeled_example.

(* ================================================================== *)
(** ** corpus.py *)
(* ================================================================== *)

Module corpus.
Section Corpus.

Context {Path : Type} `{PurePath Path}.

(** Modelled from the spec: the [LabeledExample] that [corpus.py] builds
    with [LabeledExample(audio_file=..., id=..., label=...)] and reads
    through [id], [audio_file], [label] and [audio_directory].  The class of
    that shape is not among the source files ([labeled_example.py] holds
    one built from a loader of raw sound); an example is the identifier, the
    path of the audio file and the optional label, and its directory is the
    one that immediately contains the audio file. *)
Record LabeledExample : Type := {
  id : string;
  audio_file : Path;
  label : option string
}.

Definition audio_directory (e : LabeledExample) : Path := parent (audio_file e).

Inductive Phase : Type :=
| training
| test.

Definition Phase_value (phase : Phase) : string :=
  match phase with
  | training => "training"
  | test => "test"
  end.

(** [Phase[name]] *)
Definition Phase_getitem (name : string) : result Phase :=
  if String.eqb name "training" then Ok training
  else if String.eqb name "test" then Ok test
  else Raise (KeyError name).

Definition Phase_eqb (p q : Phase) : bool :=
  match p, q with
  | training, training | test, test => true
  | _, _ => false
  end.

Record Corpus : Type := {
  training_examples : list LabeledExample;
  test_examples : list LabeledExample;
  examples : list LabeledExample
}.

(** [Corpus.__init__] *)
Definition Corpus_init (training_examples test_examples : list LabeledExample)
  : result Corpus :=
  let examples := training_examples ++ test_examples in
  let duplicate_training_ids := tools.duplicates String.eqb (map id training_examples) in
  if (0 <? List.length duplicate_training_ids)%nat then
    Raise (ValueError "Duplicate ids in training examples: " duplicate_training_ids)
  else
    let duplicate_test_ids := tools.duplicates String.eqb (map id test_examples) in
    if (0 <? List.length duplicate_test_ids)%nat then
      Raise (ValueError "Duplicate ids in test examples: " duplicate_test_ids)
    else
      let overlapping_ids := tools.duplicates String.eqb (map id examples) in
      if (0 <? List.length overlapping_ids)%nat then
        Raise (ValueError "Overlapping training and test set: " overlapping_ids)
      else
        Ok {| training_examples := training_examples;
              test_examples := test_examples;
              examples := examples |}.

(** [Corpus.save] on a platform with the line separator [linesep]: the
    bytes left in [corpus_csv_file].  The file is opened without
    [newline=''], so the line feed of the writer's line terminator goes
    through the newline translation. *)
Definition save (linesep : text) (self : Corpus) : text :=
  let examples_and_phase :=
    map (fun e => (e, training)) (training_examples self)
    ++ map (fun e => (e, test)) (test_examples self) in
  io.write linesep
    (List.concat
       (map (fun ep : LabeledExample * Phase =>
               let (e, phase) := ep in
               csv.writerow
                 [csv.Str (id e);
                  csv.Str (str (audio_file e));
                  match label e with Some l => csv.Str l | None => csv.PyNone end;
                  csv.Str (Phase_value phase)])
            examples_and_phase)).

(** The body of the comprehension of [Corpus.load] for one row:
    [for id, audio_file_path, label, phase in reader].  The messages of
    the unpacking are those of CPython 3.5 and later (3.4 words the first
    [need more than 3 values to unpack]). *)
Definition load_row (row : list string) : result (LabeledExample * Phase) :=
  match row with
  | [id; audio_file_path; label; phase] =>
      let e := {| id := id;
                  audio_file := path_of_string audio_file_path;
                  label := Some label |} in
      phase <- Phase_getitem phase ;;
      Ok (e, phase)
  | _ :: _ :: _ :: _ :: _ :: _ =>
      Raise (ValueError "too many values to unpack (expected 4)" [])
  | [] => Raise (ValueError "not enough values to unpack (expected 4, got 0)" [])
  | [_] => Raise (ValueError "not enough values to unpack (expected 4, got 1)" [])
  | [_; _] => Raise (ValueError "not enough values to unpack (expected 4, got 2)" [])
  | [_; _; _] => Raise (ValueError "not enough values to unpack (expected 4, got 3)" [])
  end.

(** [Corpus.load], on the bytes of [corpus_csv_file]. *)
Definition load (opened_csv : text) : result Corpus :=
  examples <- csv.reader_comprehension load_row opened_csv ;;
  Corpus_init
    (map fst (filter (fun ep => Phase_eqb (snd ep) training) examples))
    (map fst (filter (fun ep => Phase_eqb (snd ep) test) examples)).

(** [CombinedCorpus]: a [Corpus] that also keeps its members. *)
Record CombinedCorpus : Type := {
  corpora : list Corpus;
  as_corpus : Corpus
}.

(** [CombinedCorpus.__init__] *)
Definition CombinedCorpus_init (corpora : list Corpus) : result CombinedCorpus :=
  base <- Corpus_init (flat_map training_examples corpora)
                      (flat_map test_examples corpora) ;;
  Ok {| corpora := corpora; as_corpus := base |}.

(** *** TrainingTestSplit *)

Definition split : Type := list LabeledExample * list LabeledExample.

Definition training_only (examples : list LabeledExample) : split := (examples, []).

Definition test_only (examples : list LabeledExample) : split := ([], examples).

(** [overfit(training_example_count)] *)
Definition overfit (training_example_count : Z) (examples : list LabeledExample)
  : split :=
  (tools.slice_to examples training_example_count,
   tools.slice_from examples training_example_count).

(** [by_directory(test_directory_name)] *)
Definition by_directory (test_directory_name : string)
           (examples : list LabeledExample) : split :=
  let training_examples :=
    filter (fun example =>
              negb (String.eqb (name (audio_directory example)) test_directory_name))
           examples in
  let test_examples :=
    filter (fun example =>
              String.eqb (name (audio_directory example)) test_directory_name)
           examples in
  (training_examples, test_examples).

Section Random.

Context {G : Type} `{Generator G}.

(** [randomly_grouped_by(key_from_example, training_share)], run in the
    generator state [g]: [None] when [random.sample] needs more than
    [fuel] draws in a row, else the exception or the split, and the
    generator state left behind. *)
Definition randomly_grouped_by {K : Type} `{Key K}
           (key_from_example : LabeledExample -> K) (training_share : float)
           (fuel : nat) (examples : list LabeledExample) (g : G)
  : option (result split * G) :=
  let examples_by_directory :=
    tools.group key_eqb key_ltb key_from_example examples in
  let directories := tools.keys examples_by_directory in
  let g := seed 42 in
  match py.int_of_float
          (training_share * py.float_of_int (Z.of_nat (List.length directories)))%float
  with
  | Raise e => Some (Raise e, g)
  | Ok k =>
      match random.sample fuel directories k g with
      | None => None
      | Some (Raise e, g') => Some (Raise e, g')
      | Some (Ok keys, g') =>
          let training_examples :=
            filter (fun example => existsb (key_eqb (key_from_example example)) keys)
                   examples in
          let test_examples :=
            filter (fun example =>
                      negb (existsb (key_eqb (key_from_example example)) keys))
                   examples in
          Some (Ok (training_examples, test_examples), g')
      end
  end.

Definition training_share_default : float := 0x1.ccccccccccccdp-1%float.

Definition randomly (training_share : float) :=
  randomly_grouped_by id training_share.

Definition randomly_grouped_by_directory (training_share : float) :=
  randomly_grouped_by audio_directory training_share.

(** *** LabeledSpectrogramBatchGenerator *)

(** Modelled from the spec: [CachedLabeledSpectrogram], the decorator over
    a [LabeledExample] that adds the shared cache directory; its class is
    not among the source files. *)
Record CachedLabeledSpectrogram : Type := {
  example : LabeledExample;
  spectrogram_cache_directory : Path
}.

Record LabeledSpectrogramBatchGenerator : Type := {
  batch_size : Z;
  cache_directory : Path;
  labeled_training_spectrograms : list CachedLabeledSpectrogram;
  labeled_test_spectrograms : list CachedLabeledSpectrogram;
  labeled_spectrograms : list CachedLabeledSpectrogram
}.

(** [LabeledSpectrogramBatchGenerator.__init__] (the creation of the
    cache directory is an effect on the file system and is left out). *)
Definition LabeledSpectrogramBatchGenerator_init (corpus : Corpus)
           (spectrogram_cache_directory : Path) (batch_size : Z)
  : LabeledSpectrogramBatchGenerator :=
  let wrap := fun example =>
    {| example := example;
       spectrogram_cache_directory := spectrogram_cache_directory |} in
  let labeled_training_spectrograms := map wrap (training_examples corpus) in
  let labeled_test_spectrograms := map wrap (test_examples corpus) in
  {| batch_size := batch_size;
     cache_directory := spectrogram_cache_directory;
     labeled_training_spectrograms := labeled_training_spectrograms;
     labeled_test_spectrograms := labeled_test_spectrograms;
     labeled_spectrograms :=
       labeled_training_spectrograms ++ labeled_test_spectrograms |}.

Definition preview_batch (self : LabeledSpectrogramBatchGenerator)
  : list CachedLabeledSpectrogram :=
  tools.slice_to (labeled_spectrograms self) (batch_size self).

(** A generator object is suspended at its [yield] (or not started) or
    finished; once an exception has left it, it is finished. *)
Inductive generator_state : Type :=
| suspended
| finished.

(** One [next()] on the generator of [training_batches], in the generator
    state [g] of [random]: the batch or the exception, the generator
    object's state and the state of [random] afterwards. *)
Definition training_batches_next (self : LabeledSpectrogramBatchGenerator)
           (fuel : nat) (gen : generator_state) (g : G)
  : option (result (list CachedLabeledSpectrogram) * generator_state * G) :=
  match gen with
  | finished => Some (Raise StopIteration, finished, g)
  | suspended =>
      match random.sample fuel (labeled_training_spectrograms self)
                          (batch_size self) g with
      | None => None
      | Some (Ok batch, g') => Some (Ok batch, suspended, g')
      | Some (Raise e, g') => Some (Raise e, finished, g')
      end
  end.

(** [test_batches]: the pages the generator yields. *)
Definition test_batches (self : LabeledSpectrogramBatchGenerator)
  : result (list (list CachedLabeledSpectrogram)) :=
  tools.paginate (labeled_test_spectrograms self) (batch_size self).

End Random.

End Corpus.

Arguments LabeledExample Path : clear implicits.
Arguments Corpus Path : clear implicits.
Arguments CombinedCorpus Path : clear implicits.
Arguments split Path : clear implicits.
Arguments CachedLabeledSpectrogram Path : clear implicits.
Arguments LabeledSpectrogramBatchGenerator Path : clear implicits.

End corpus.

(* ================================================================== *)
(** ** Vocabulary of the properties *)
(* ================================================================== *)

(** The ids of a list of examples, in order. *)
Definition ids {Path : Type} (examples : list (corpus.LabeledExample Path))
  : list string :=
  map corpus.id examples.

(** The number of pages of [len] items at [s] items a page: [len / s],
    rounded up. *)
Definition page_count (len : nat) (s : Z) : nat :=
  Z.to_nat ((Z.of_nat len + s - 1) / s).

(** [fmap f r]: [f] under [Ok]. *)
Definition fmap {A B : Type} (f : A -> B) (r : result A) : result B :=
  x <- r ;; Ok (f x).

(** [l'] is [l] with some elements left out, the others in their order. *)
Inductive subsequence {A : Type} : list A -> list A -> Prop :=
| subsequence_nil : subsequence [] []
| subsequence_take (x : A) (l' l : list A) :
    subsequence l' l -> subsequence (x :: l') (x :: l)
| subsequence_skip (x : A) (l' l : list A) :
    subsequence l' l -> subsequence l' (x :: l).

(** [(training, test)] is a partition of [examples] that keeps the order:
    the two lists together hold the examples of the input with their
    multiplicities, each list is a subsequence of the input, and every
    example of the input is in exactly one of the two. *)
Definition is_partition {A : Type} (examples : list A) (parts : list A * list A)
  : Prop :=
  Permutation (fst parts ++ snd parts) examples
  /\ subsequence (fst parts) examples
  /\ subsequence (snd parts) examples
  /\ forall e, In e examples ->
               (In e (fst parts) /\ ~ In e (snd parts))
               \/ (In e (snd parts) /\ ~ In e (fst parts)).

(** [batch] holds the elements of [population] at the positions [idx]. *)
Definition drawn_from {A : Type} (population : list A) (idx : list nat)
           (batch : list A) : Prop :=
  Forall2 (fun j x => nth_error population j = Some x) idx batch.

(** The first [m] entries of a pool of indices are pairwise distinct. *)
Definition distinct_prefix (p : list nat) (m : nat) : Prop :=
  forall t1 t2 x, (t1 < m)%nat -> (t2 < m)%nat ->
                  nth_error p t1 = Some x -> nth_error p t2 = Some x -> t1 = t2.

(** The refusal of [random.sample]. *)
Definition sample_refused {A : Type} : result (list A) :=
  Raise (ValueError "Sample larger than population or is negative" []).

(** The lines a text is cut into, with the empty last line of a text that
    stops in the middle of a line. *)
Definition lines_from (mid_line : bool) (input : text) : list text :=
  match io.lines input with
  | [] => if mid_line then [[]] else []
  | ls => ls
  end.

(** The parser states in which a field starts. *)
Definition field_start (st : csv.ParserState) : Prop :=
  st = csv.START_RECORD \/ st = csv.START_FIELD.

(** What [csv.join_append] writes for a field. *)
Definition written (body : text) : text :=
  (if snd (csv.join_append_data body) then [csv.quotechar] else [])
    ++ fst (csv.join_append_data body)
    ++ (if snd (csv.join_append_data body) then [csv.quotechar] else []).

(** A string the manifest can carry: no character 0, no carriage return, and
    no more characters than the reader's field limit. *)
Definition storable_text (s : string) : Prop :=
  Forall (fun c => Ascii.eqb c NUL = false /\ Ascii.eqb c CR = false)
         (list_ascii_of_string s)
  /\ Z.of_nat (csv.characters (list_ascii_of_string s)) <= csv.field_limit.

Section Manifest.

Context {Path : Type} `{PurePath Path}.

(** An example the manifest can carry: it has a label, its id, the text of
    its path and its label are storable, and [Path] gives the path back
    from its text. *)
Definition storable (e : corpus.LabeledExample Path) : Prop :=
  exists l,
    corpus.label e = Some l
    /\ storable_text (corpus.id e)
    /\ storable_text (str (corpus.audio_file e))
    /\ storable_text l
    /\ path_of_string (str (corpus.audio_file e)) = corpus.audio_file e.

(** The row [Corpus.save] writes for an example of a phase. *)
Definition manifest_row (phase : corpus.Phase) (e : corpus.LabeledExample Path)
  : text :=
  csv.writerow
    [csv.Str (corpus.id e);
     csv.Str (str (corpus.audio_file e));
     match corpus.label e with Some l => csv.Str l | None => csv.PyNone end;
     csv.Str (corpus.Phase_value phase)].

End Manifest.

(** The decibel floor as a float. *)
Definition floor : float := py.float_of_int (-150).

(** The level of a power value [x >= 0], given the C library's [log10]:
    [10 * log10 x], or the floor when [x] is zero or its level is below the
    floor. *)
Definition level (log10 : float -> float) (x : float) : float :=
  if (x =? 0)%float then floor
  else
    let l := (py.float_of_int 10 * log10 x)%float in
    if (l <? floor)%float then floor else l.

(** The exception of [math.log10] outside its domain. *)
Definition math_domain_error : exn := ValueError "math domain error" [].

Section GeneratorLaws.

Context {G : Type} `{Generator G}.

(** What the proofs need of [_randbelow]: the number drawn is below the
    bound, and drawing again and again gets out of every set of indices
    that leaves some index free. *)
Definition in_range : Prop :=
  forall (g : G) (n : nat), (0 < n)%nat -> (fst (randbelow g n) < n)%nat.

Definition escapes : Prop :=
  forall (g : G) (n : nat) (selected : list nat),
    NoDup selected -> (List.length selected < n)%nat ->
    exists fuel, random.draw_unselected fuel n selected g <> None.

End GeneratorLaws.

(* ================================================================== *)
(** ** Instances for the examples *)
(* ================================================================== *)

Module fixtures.

Definition slash : ascii := ascii_of_nat 47.

(** The components of a path written with slashes. *)
Fixpoint components (s : text) : list text :=
  match s with
  | [] => [[]]
  | c :: rest =>
      match components rest with
      | [] => [[c]]
      | h :: t => if Ascii.eqb c slash then [] :: h :: t else (c :: h) :: t
      end
  end.

Fixpoint join (parts : list text) : text :=
  match parts with
  | [] => []
  | [p] => p
  | p :: rest => p ++ slash :: join rest
  end.

(** Paths as their text; the text is taken as it is, without the
    normalisation [pathlib] applies. *)
#[export] Instance text_path : PurePath string :=
  {| path_of_string := fun s => s;
     str := fun p => p;
     parent := fun p =>
       string_of_list_ascii (join (removelast (components (list_ascii_of_string p))));
     name := fun p =>
       string_of_list_ascii (last (components (list_ascii_of_string p)) []);
     path_eqb := String.eqb;
     path_ltb := String.ltb |}.

(** A generator that counts: the state is the number of draws so far and
    [randbelow n] is that number modulo [n]. *)
#[export] Instance counting : Generator nat :=
  {| seed := Z.to_nat;
     randbelow := fun g n => (g mod n, S g)%nat |}.

(** An example with the id [i], recorded in the directory [directory]. *)
Definition labeled (directory i : string) : corpus.LabeledExample string :=
  {| corpus.id := i;
     corpus.audio_file := (directory ++ "/" ++ i ++ ".wav")%string;
     corpus.label := Some "hello"%string |}.

(** A batch generator over examples with the given training and test
    ids. *)
Definition batches (training test : list string) (batch_size : Z)
  : corpus.LabeledSpectrogramBatchGenerator string :=
  corpus.LabeledSpectrogramBatchGenerator_init
    {| corpus.training_examples := map (labeled "train") training;
       corpus.test_examples := map (labeled "test") test;
       corpus.examples := map (labeled "train") training ++ map (labeled "test") test |}
    "cache"%string batch_size.

End fixtures.

(* ================================================================== *)
(** ** File names *)
(* ================================================================== *)

Module posixpath.

Definition sep : ascii := ascii_of_nat 47.
Definition extsep : ascii := ascii_of_nat 46.

(** [p.rfind(c)]: the highest index of [c] in [p], or [-1]. *)
Fixpoint rfind (c : ascii) (p : text) : Z :=
  match p with
  | [] => -1
  | x :: rest =>
      let found := rfind c rest in
      if 0 <=? found then found + 1
      else if Ascii.eqb x c then 0 else -1
  end.

(** [os.path.splitext(p)], that is [genericpath._splitext(p, sep, None,
    extsep)]: the extension starts at the last dot, when that dot is in
    the last component and some character of the component before it is
    no dot (the loop over the leading dots returns at the first such
    character). *)
Definition splitext (p : string) : string * string :=
  let chars := list_ascii_of_string p in
  let sepIndex := rfind sep chars in
  let dotIndex := rfind extsep chars in
  if (sepIndex <? dotIndex)
     && existsb (fun c => negb (Ascii.eqb c extsep))
                (tools.slice chars (sepIndex + 1) dotIndex)
  then (string_of_list_ascii (tools.slice_to chars dotIndex),
        string_of_list_ascii (tools.slice_from chars dotIndex))
  else (p, EmptyString).

End posixpath.

Section FileNames.

Context {Path : Type} `{PurePath Path}.

(** [tools.name_without_extension] *)
Definition name_without_extension (audio_file : Path) : string :=
  fst (posixpath.splitext (name audio_file)).

(** [tools.extension] *)
Definition extension (audio_file : Path) : string :=
  snd (posixpath.splitext (name audio_file)).

(** [LabeledExample.from_file]: the id and the label of the example it
    builds (the loader of the sound and the window parameters are handed
    on as they are). *)
Definition from_file (audio_file : Path) (id : option string)
           (label_from_id : string -> option string) : string * option string :=
  let id := match id with
            | Some id => id
            | None => fst (posixpath.splitext (name audio_file))
            end in
  (id, label_from_id id).

End FileNames.

(* ================================================================== *)
(** ** Vocabulary of the further properties *)
(* ================================================================== *)

(** A field the csv writer and reader carry unchanged: no character 0, no
    carriage return, no more characters than the reader's field limit. *)
Definition storable_field (body : text) : Prop :=
  Forall (fun c => Ascii.eqb c NUL = false /\ Ascii.eqb c CR = false) body
  /\ Z.of_nat (csv.characters body) <= csv.field_limit.

(** The fields of a record as [csv.join_fields] lays them out. *)
Definition joined (row : list string) : text :=
  match row with
  | [] => []
  | first :: rest =>
      written (list_ascii_of_string first)
        ++ flat_map (fun s => csv.delimiter :: written (list_ascii_of_string s)) rest
  end.

(** The text a csv writer leaves in a file after [writerow] on each of the
    rows, in order. *)
Definition written_rows (rows : list (list string)) : text :=
  List.concat (map (fun row => csv.writerow (map csv.Str row)) rows).

Section FurtherManifest.

Context {Path : Type} `{PurePath Path}.

(** The label as the manifest carries it: no label is the empty string. *)
Definition label_text (e : corpus.LabeledExample Path) : string :=
  match corpus.label e with
  | Some l => l
  | None => EmptyString
  end.

(** An example as it comes back from a manifest. *)
Definition reloaded (e : corpus.LabeledExample Path) : corpus.LabeledExample Path :=
  {| corpus.id := corpus.id e;
     corpus.audio_file := corpus.audio_file e;
     corpus.label := Some (label_text e) |}.

(** An example whose row can be written and read back, labelled or not. *)
Definition writable (e : corpus.LabeledExample Path) : Prop :=
  storable_text (corpus.id e)
  /\ storable_text (str (corpus.audio_file e))
  /\ storable_text (label_text e)
  /\ path_of_string (str (corpus.audio_file e)) = corpus.audio_file e.

(** The examples of a phase among rows of examples and phases, in order. *)
Definition of_phase (phase : corpus.Phase)
           (rows : list (corpus.LabeledExample Path * corpus.Phase))
  : list (corpus.LabeledExample Path) :=
  map fst (filter (fun ep => corpus.Phase_eqb (snd ep) phase) rows).

(** The manifest text of rows of examples and phases. *)
Definition manifest (rows : list (corpus.LabeledExample Path * corpus.Phase)) : text :=
  List.concat (map (fun ep => manifest_row (snd ep) (fst ep)) rows).

End FurtherManifest.

(** The items of [xs] that are not in [seen] and did not occur earlier in
    [xs], in order. *)
Fixpoint first_occurrences {E : Type} (eqb : E -> E -> bool) (seen xs : list E)
  : list E :=
  match xs with
  | [] => []
  | x :: rest =>
      if existsb (eqb x) seen then first_occurrences eqb seen rest
      else x :: first_occurrences eqb (seen ++ [x]) rest
  end.

(** [x] is not after [y] in the order [ltb] of the keys. *)
Definition key_le {E K : Type} (ltb : K -> K -> bool) (key : E -> K) (x y : E)
  : Prop :=
  ltb (key y) (key x) = false.

(** The character [c] does not occur in [s]. *)
Definition lacks (c : ascii) (s : string) : Prop :=
  Forall (fun x => Ascii.eqb x c = false) (list_ascii_of_string s).

(** The sign bit of a floating-point value is clear (a NaN has none). *)
Definition sign_clear (x : spec_float) : Prop :=
  match x with
  | S754_zero s | S754_infinity s | S754_finite s _ _ => s = false
  | S754_nan => True
  end.

(** [ltb] is a strict total order. *)
Definition strict_total_order {K : Type} (ltb : K -> K -> bool) : Prop :=
  (forall a, ltb a a = false)
  /\ (forall a b c, ltb a b = true -> ltb b c = true -> ltb a c = true)
  /\ (forall a b, a = b \/ ltb a b = true \/ ltb b a = true).

(* ================================================================== *)
(** * Properties *)
(* ================================================================== *)

(* ================================================================== *)
(** ** Properties of [tools.duplicates] *)
(* ================================================================== *)

Section Duplicates.

Variable E : Type.
Variable eqb : E -> E -> bool.
Hypothesis eqb_eq : forall x y, eqb x y = true <-> x = y.
Variable dec : forall x y : E, {x = y} + {x <> y}.

Lemma eqb_refl' x : eqb x x = true.
Proof. now apply eqb_eq. Qed.

Lemma eqb_false x y : x <> y -> eqb x y = false.
Proof.
  intros Hxy. destruct (eqb x y) eqn:Heq; [|reflexivity].
  apply eqb_eq in Heq. contradiction.
Qed.

Lemma counted_counter_add x y c :
  tools.counter_get eqb x (tools.counter_add eqb y c)
  = ((if eqb x y then 1 else 0) + tools.counter_get eqb x c)%nat.
Proof.
  induction c as [|[z n] c IH]; simpl.
  - destruct (eqb x y); reflexivity.
  - destruct (eqb y z) eqn:Hyz; simpl.
    + apply eqb_eq in Hyz. subst z.
      destruct (eqb x y); reflexivity.
    + destruct (eqb x z) eqn:Hxz.
      * apply eqb_eq in Hxz. subst z.
        destruct (eqb x y) eqn:Hxy; [|reflexivity].
        apply eqb_eq in Hxy. subst y. rewrite eqb_refl' in Hyz. discriminate.
      * apply IH.
Qed.

Lemma counted_fold x xs : forall c,
  tools.counter_get eqb x (fold_left (fun c y => tools.counter_add eqb y c) xs c)
  = (tools.counter_get eqb x c + count_occ dec xs x)%nat.
Proof.
  induction xs as [|y xs IH]; intros c; simpl.
  - lia.
  - rewrite IH, counted_counter_add.
    destruct (dec y x) as [->|Hne].
    + rewrite eqb_refl'. lia.
    + rewrite eqb_false by congruence. lia.
Qed.

Lemma counted_Counter x xs :
  tools.counter_get eqb x (tools.Counter eqb xs) = count_occ dec xs x.
Proof. unfold tools.Counter. now rewrite counted_fold. Qed.

(** The keys of a counter stay distinct. *)
Lemma keys_counter_add y c :
  map fst (tools.counter_add eqb y c)
  = if in_dec dec y (map fst c) then map fst c else map fst c ++ [y].
Proof.
  induction c as [|[z n] c IH]; simpl; [reflexivity|].
  destruct (eqb y z) eqn:Hyz; simpl.
  - apply eqb_eq in Hyz. subst z.
    destruct (dec y y); [reflexivity | congruence].
  - rewrite IH.
    destruct (dec z y) as [->|Hne].
    + rewrite eqb_refl' in Hyz. discriminate.
    + destruct (in_dec dec y (map fst c)); reflexivity.
Qed.

Lemma NoDup_keys_fold xs : forall c,
  NoDup (map fst c) ->
  NoDup (map fst (fold_left (fun c y => tools.counter_add eqb y c) xs c)).
Proof.
  induction xs as [|y xs IH]; intros c Hc; simpl; [assumption|].
  apply IH. rewrite keys_counter_add.
  destruct (in_dec dec y (map fst c)) as [|Hnin]; [assumption|].
  apply NoDup_app; [assumption | repeat constructor; intros [] | ].
  intros a Ha [<-|[]]. contradiction.
Qed.

Lemma counted_of_In x n c :
  NoDup (map fst c) -> In (x, n) c -> tools.counter_get eqb x c = n.
Proof.
  induction c as [|[z m] c IH]; simpl; intros Hnd Hin; [contradiction|].
  inversion Hnd as [|? ? Hz Hnd']; subst.
  destruct Hin as [Heq|Hin].
  - inversion Heq; subst. now rewrite eqb_refl'.
  - destruct (eqb x z) eqn:Hxz.
    + apply eqb_eq in Hxz. subst z. exfalso. apply Hz.
      change x with (fst (x, n)). now apply in_map.
    + now apply IH.
Qed.

Lemma In_of_counted x c :
  (0 < tools.counter_get eqb x c)%nat -> In (x, tools.counter_get eqb x c) c.
Proof.
  induction c as [|[z m] c IH]; simpl; intros Hpos; [lia|].
  destruct (eqb x z) eqn:Hxz.
  - apply eqb_eq in Hxz. subst z. now left.
  - right. now apply IH.
Qed.

(** An item is reported exactly when it occurs more than once. *)
Lemma In_duplicates x xs :
  In x (tools.duplicates eqb xs) <-> (1 < count_occ dec xs x)%nat.
Proof.
  unfold tools.duplicates. rewrite in_map_iff. split.
  - intros [[y n] [Hfst Hin]]. simpl in Hfst. subst y.
    apply filter_In in Hin. destruct Hin as [Hin Hn]. simpl in Hn.
    apply Nat.ltb_lt in Hn.
    rewrite <- (counted_Counter x xs).
    rewrite (counted_of_In x n); [assumption | | assumption].
    apply NoDup_keys_fold. constructor.
  - intros Hc. rewrite <- (counted_Counter x xs) in Hc.
    exists (x, tools.counter_get eqb x (tools.Counter eqb xs)). split; [reflexivity|].
    apply filter_In. split.
    + apply In_of_counted. lia.
    + simpl. apply Nat.ltb_lt. assumption.
Qed.

Lemma duplicates_nil_iff xs : tools.duplicates eqb xs = [] <-> NoDup xs.
Proof.
  rewrite (NoDup_count_occ dec). split.
  - intros Hnil x.
    destruct (le_lt_dec (count_occ dec xs x) 1) as [|Hlt]; [assumption|].
    apply In_duplicates in Hlt. rewrite Hnil in Hlt. contradiction.
  - intros Hle. destruct (tools.duplicates eqb xs) as [|x ds] eqn:Hd; [reflexivity|].
    assert (Hin : In x (tools.duplicates eqb xs)) by (rewrite Hd; now left).
    apply In_duplicates in Hin. specialize (Hle x). lia.
Qed.

Lemma duplicates_length_pos xs :
  (0 <? List.length (tools.duplicates eqb xs))%nat = negb (if ListDec.NoDup_dec dec xs then true else false).
Proof.
  destruct (ListDec.NoDup_dec dec xs) as [Hnd|Hnd]; simpl.
  - apply duplicates_nil_iff in Hnd. now rewrite Hnd.
  - destruct (tools.duplicates eqb xs) eqn:Hd; [|reflexivity].
    exfalso. apply Hnd. now apply duplicates_nil_iff.
Qed.

End Duplicates.

(* ================================================================== *)
(** ** Corpus construction *)
(* ================================================================== *)

Import corpus.

Section CorpusInvariant.

Context {Path : Type} `{PurePath Path}.

Lemma has_duplicate_ids (l : list string) :
  (0 <? List.length (tools.duplicates String.eqb l))%nat = true <-> ~ NoDup l.
Proof.
  rewrite (duplicates_length_pos _ _ String.eqb_eq string_dec).
  destruct (ListDec.NoDup_dec string_dec l); simpl; split; intros; try easy.
Qed.

Lemma no_duplicate_ids (l : list string) :
  (0 <? List.length (tools.duplicates String.eqb l))%nat = false <-> NoDup l.
Proof.
  rewrite (duplicates_length_pos _ _ String.eqb_eq string_dec).
  destruct (ListDec.NoDup_dec string_dec l); simpl; split; intros; try easy.
Qed.

Lemma NoDup_app_inv (A : Type) (l l' : list A) :
  NoDup (l ++ l') ->
  NoDup l /\ NoDup l' /\ forall x, In x l -> ~ In x l'.
Proof.
  intros Hnd. split; [|split].
  - eapply NoDup_app_remove_r; eassumption.
  - eapply NoDup_app_remove_l; eassumption.
  - induction l as [|a l IH]; simpl in *; [intros x []|].
    inversion Hnd as [|? ? Ha Hnd']; subst.
    intros x [<-|Hx] Hx'.
    + apply Ha. apply in_or_app. now right.
    + now apply (IH Hnd' x).
Qed.

(** What [Corpus.__init__] does with every pair of lists. *)
Lemma Corpus_init_cases (tr te : list (LabeledExample Path)) :
  (NoDup (ids (tr ++ te)) ->
   Corpus_init tr te
   = Ok {| training_examples := tr; test_examples := te; examples := tr ++ te |})
  /\ (~ NoDup (ids tr) ->
      Corpus_init tr te
      = Raise (ValueError "Duplicate ids in training examples: "
                          (tools.duplicates String.eqb (ids tr))))
  /\ (NoDup (ids tr) -> ~ NoDup (ids te) ->
      Corpus_init tr te
      = Raise (ValueError "Duplicate ids in test examples: "
                          (tools.duplicates String.eqb (ids te))))
  /\ (NoDup (ids tr) -> NoDup (ids te) -> ~ NoDup (ids (tr ++ te)) ->
      Corpus_init tr te
      = Raise (ValueError "Overlapping training and test set: "
                          (tools.duplicates String.eqb (ids (tr ++ te))))).
Proof.
  unfold Corpus_init. fold (ids tr) (ids te) (ids (tr ++ te)).
  repeat split.
  - intros Hnd.
    assert (Hnd' := Hnd). unfold ids in Hnd'. rewrite map_app in Hnd'.
    apply NoDup_app_inv in Hnd'. destruct Hnd' as (Htr & Hte & _).
    apply no_duplicate_ids in Htr, Hte, Hnd.
    unfold ids in *. now rewrite Htr, Hte, Hnd.
  - intros Htr. apply has_duplicate_ids in Htr. now rewrite Htr.
  - intros Htr Hte. apply no_duplicate_ids in Htr. apply has_duplicate_ids in Hte.
    now rewrite Htr, Hte.
  - intros Htr Hte Hall. apply no_duplicate_ids in Htr, Hte.
    apply has_duplicate_ids in Hall. now rewrite Htr, Hte, Hall.
Qed.

Lemma overlapping_ids (l l' : list string) (x : string) :
  NoDup l -> NoDup l' ->
  (In x (tools.duplicates String.eqb (l ++ l')) <-> In x l /\ In x l').
Proof.
  intros Hl Hl'.
  rewrite (In_duplicates _ _ String.eqb_eq string_dec), count_occ_app.
  rewrite (NoDup_count_occ string_dec) in Hl, Hl'.
  rewrite !(count_occ_In string_dec).
  specialize (Hl x). specialize (Hl' x). lia.
Qed.

(** A constructed Corpus holds the lists it was built from, and their ids
    are pairwise distinct. *)
Lemma Corpus_init_Ok_NoDup (tr te : list (LabeledExample Path)) (self : Corpus Path) :
  Corpus_init tr te = Ok self ->
  self = {| training_examples := tr; test_examples := te; examples := tr ++ te |}
  /\ NoDup (ids (tr ++ te)).
Proof.
  intros Hinit. destruct (Corpus_init_cases tr te) as (Hok & Htr & Hte & Hall).
  destruct (ListDec.NoDup_dec string_dec (ids (tr ++ te))) as [Hnd|Hnd].
  - rewrite (Hok Hnd) in Hinit. injection Hinit as <-. now split.
  - exfalso.
    destruct (ListDec.NoDup_dec string_dec (ids tr)) as [Hntr|Hntr];
      [|rewrite (Htr Hntr) in Hinit; discriminate].
    destruct (ListDec.NoDup_dec string_dec (ids te)) as [Hnte|Hnte];
      [|rewrite (Hte Hntr Hnte) in Hinit; discriminate].
    rewrite (Hall Hntr Hnte Hnd) in Hinit. discriminate.
Qed.

(** The training spectrograms of a batch generator built on a constructed
    Corpus are pairwise distinct. *)
Lemma training_spectrograms_NoDup (tr te : list (LabeledExample Path))
      (corpus : Corpus Path) (directory : Path) (size : Z) :
  Corpus_init tr te = Ok corpus ->
  NoDup (labeled_training_spectrograms
           (LabeledSpectrogramBatchGenerator_init corpus directory size)).
Proof.
  intros Hinit. destruct (Corpus_init_Ok_NoDup tr te corpus Hinit) as [-> Hnd].
  unfold ids in Hnd. rewrite map_app in Hnd. apply NoDup_app_inv in Hnd.
  destruct Hnd as (Htr & _ & _). apply NoDup_map_inv in Htr.
  simpl. apply Finite.Injective_map_NoDup; [|assumption].
  intros e1 e2 Heq. now injection Heq.
Qed.

End CorpusInvariant.

Section CorpusTheorems.

Context {Path : Type} `{PurePath Path}.

(** C3 (amended).  Constructing a Corpus succeeds exactly when no id is
    repeated within the training list, within the test list or across the
    two.  Otherwise it raises a [ValueError] for the first check that
    fails, in the order training, test, combined, and the message names
    exactly the ids that check found repeated: the ids occurring more than
    once in the training list; else those occurring more than once in the
    test list; else those occurring in both lists. *)
Theorem Corpus_init_reports_first_failing_check
        (tr te : list (LabeledExample Path)) :
  ((exists corpus, Corpus_init tr te = Ok corpus)
   <-> NoDup (ids tr) /\ NoDup (ids te)
       /\ forall x, In x (ids tr) -> ~ In x (ids te))
  /\ (NoDup (ids (tr ++ te)) ->
      Corpus_init tr te
      = Ok {| training_examples := tr; test_examples := te; examples := tr ++ te |})
  /\ (~ NoDup (ids tr) ->
      exists named,
        Corpus_init tr te
        = Raise (ValueError "Duplicate ids in training examples: " named)
        /\ forall x, In x named <-> (1 < count_occ string_dec (ids tr) x)%nat)
  /\ (NoDup (ids tr) -> ~ NoDup (ids te) ->
      exists named,
        Corpus_init tr te
        = Raise (ValueError "Duplicate ids in test examples: " named)
        /\ forall x, In x named <-> (1 < count_occ string_dec (ids te) x)%nat)
  /\ (NoDup (ids tr) -> NoDup (ids te) -> ~ NoDup (ids (tr ++ te)) ->
      exists named,
        Corpus_init tr te
        = Raise (ValueError "Overlapping training and test set: " named)
        /\ forall x, In x named <-> In x (ids tr) /\ In x (ids te)).
Proof.
  destruct (Corpus_init_cases tr te) as (Hok & Htr & Hte & Hall).
  split; [|split; [exact Hok|split; [|split]]].
  - split.
    + intros [corpus Hc].
      destruct (ListDec.NoDup_dec string_dec (ids (tr ++ te))) as [Hnd|Hnd].
      * unfold ids in Hnd. rewrite map_app in Hnd. now apply NoDup_app_inv.
      * exfalso.
        destruct (ListDec.NoDup_dec string_dec (ids tr)) as [Hntr|Hntr];
          [|rewrite (Htr Hntr) in Hc; discriminate].
        destruct (ListDec.NoDup_dec string_dec (ids te)) as [Hnte|Hnte];
          [|rewrite (Hte Hntr Hnte) in Hc; discriminate].
        rewrite (Hall Hntr Hnte Hnd) in Hc. discriminate.
    + intros (Hntr & Hnte & Hdisj). eexists. apply Hok.
      unfold ids. rewrite map_app. now apply NoDup_app.
  - intros Hntr. eexists. split; [exact (Htr Hntr)|].
    intros x. apply (In_duplicates _ _ String.eqb_eq string_dec).
  - intros Hntr Hnte. eexists. split; [exact (Hte Hntr Hnte)|].
    intros x. apply (In_duplicates _ _ String.eqb_eq string_dec).
  - intros Hntr Hnte Hnd. eexists. split; [exact (Hall Hntr Hnte Hnd)|].
    intros x. unfold ids. rewrite map_app. now apply overlapping_ids.
Qed.

(** C7.  The CombinedCorpus of a list of corpora holds the concatenation
    of the members' training lists, in order, as its training list and the
    concatenation of their test lists as its test list; its construction
    runs the duplicate-id checks of [Corpus.__init__] on these
    concatenations, so it succeeds when the ids of the union are pairwise
    distinct and raises the [ValueError] of the failing check otherwise. *)
Theorem CombinedCorpus_init_concatenates (members : list (Corpus Path)) :
  let tr := List.concat (map training_examples members) in
  let te := List.concat (map test_examples members) in
  CombinedCorpus_init members
  = (base <- Corpus_init tr te ;; Ok {| corpora := members; as_corpus := base |})
  /\ (NoDup (ids (tr ++ te)) ->
      CombinedCorpus_init members
      = Ok {| corpora := members;
              as_corpus := {| training_examples := tr;
                              test_examples := te;
                              examples := tr ++ te |} |})
  /\ (~ NoDup (ids (tr ++ te)) ->
      exists message named,
        CombinedCorpus_init members = Raise (ValueError message named)
        /\ named <> [])
  /\ (forall combined,
        CombinedCorpus_init members = Ok combined ->
        training_examples (as_corpus combined) = tr
        /\ test_examples (as_corpus combined) = te
        /\ NoDup (ids (tr ++ te)))
  /\ (forall a b combined,
        members = [a; b] ->
        CombinedCorpus_init members = Ok combined ->
        training_examples (as_corpus combined)
        = training_examples a ++ training_examples b
        /\ test_examples (as_corpus combined)
           = test_examples a ++ test_examples b).
Proof.
  intros tr te.
  assert (Hdef : CombinedCorpus_init members
                 = (base <- Corpus_init tr te ;;
                    Ok {| corpora := members; as_corpus := base |})).
  { unfold CombinedCorpus_init, tr, te. now rewrite !flat_map_concat_map. }
  destruct (Corpus_init_cases tr te) as (Hok & Htr & Hte & Hall).
  assert (Hgood : NoDup (ids (tr ++ te)) ->
                  CombinedCorpus_init members
                  = Ok {| corpora := members;
                          as_corpus := {| training_examples := tr;
                                          test_examples := te;
                                          examples := tr ++ te |} |}).
  { intros Hnd. rewrite Hdef, (Hok Hnd). reflexivity. }
  assert (Hbad : ~ NoDup (ids (tr ++ te)) ->
                 exists message named,
                   CombinedCorpus_init members = Raise (ValueError message named)
                   /\ named <> []).
  { intros Hnd. rewrite Hdef.
    destruct (ListDec.NoDup_dec string_dec (ids tr)) as [Hntr|Hntr].
    - destruct (ListDec.NoDup_dec string_dec (ids te)) as [Hnte|Hnte].
      + rewrite (Hall Hntr Hnte Hnd). do 2 eexists. split; [reflexivity|].
        intros Hnil. apply Hnd.
        now apply (duplicates_nil_iff _ _ String.eqb_eq string_dec).
      + rewrite (Hte Hntr Hnte). do 2 eexists. split; [reflexivity|].
        intros Hnil. apply Hnte.
        now apply (duplicates_nil_iff _ _ String.eqb_eq string_dec).
    - rewrite (Htr Hntr). do 2 eexists. split; [reflexivity|].
      intros Hnil. apply Hntr.
      now apply (duplicates_nil_iff _ _ String.eqb_eq string_dec). }
  assert (Hinv : forall combined,
             CombinedCorpus_init members = Ok combined ->
             training_examples (as_corpus combined) = tr
             /\ test_examples (as_corpus combined) = te
             /\ NoDup (ids (tr ++ te))).
  { intros combined Hc.
    destruct (ListDec.NoDup_dec string_dec (ids (tr ++ te))) as [Hnd|Hnd].
    - rewrite (Hgood Hnd) in Hc. inversion Hc; subst. simpl. auto.
    - destruct (Hbad Hnd) as (m & n & Hr & _). rewrite Hr in Hc. discriminate. }
  split; [exact Hdef|]. split; [exact Hgood|]. split; [exact Hbad|].
  split; [exact Hinv|].
  intros a b combined Hab Hc. apply Hinv in Hc.
  destruct Hc as (Htr' & Hte' & _). rewrite Htr', Hte'.
  unfold tr, te. rewrite Hab. simpl. now rewrite !app_nil_r.
Qed.

End CorpusTheorems.

(** C3, as stated, fails: with a repeated id in the training list and
    another in the test list, the message names the first only. *)
Lemma Corpus_init_names_training_duplicates_only :
  let a := {| id := "a"; audio_file := "a.wav"%string; label := None |} in
  let b := {| id := "b"; audio_file := "b.wav"%string; label := None |} in
  Corpus_init [a; a] [b; b]
  = Raise (ValueError "Duplicate ids in training examples: " ["a"%string])
  /\ count_occ string_dec (ids [b; b]) "b"%string = 2%nat
  /\ ~ In "b"%string ["a"%string].
Proof.
  repeat split.
  intros [Hab|[]]. discriminate.
Qed.

(* ================================================================== *)
(** ** Slices and pages *)
(* ================================================================== *)

Section Slices.

Variable E : Type.

Lemma slice_index_in_range (len : nat) (i : Z) :
  0 <= i <= Z.of_nat len -> tools.slice_index len i = Z.to_nat i.
Proof.
  intros Hi. unfold tools.slice_index.
  destruct (Z.ltb_spec i 0); [lia|]. f_equal. lia.
Qed.

Lemma slice_index_beyond (len : nat) (i : Z) :
  Z.of_nat len <= i -> tools.slice_index len i = len.
Proof.
  intros Hi. unfold tools.slice_index.
  destruct (Z.ltb_spec i 0); [lia|]. rewrite Z.min_r by lia. apply Nat2Z.id.
Qed.

(** A page that starts inside the list is what is left of the list, cut
    at the page size. *)
Lemma slice_page (l : list E) (s i : nat) :
  (0 < s)%nat -> (i * s <= List.length l)%nat ->
  tools.slice l (Z.of_nat i * Z.of_nat s) (Z.of_nat i * Z.of_nat s + Z.of_nat s)
  = firstn s (skipn (i * s) l).
Proof.
  intros Hs Hi. unfold tools.slice.
  rewrite (slice_index_in_range _ (Z.of_nat i * Z.of_nat s)) by lia.
  replace (Z.to_nat (Z.of_nat i * Z.of_nat s)) with (i * s)%nat by lia.
  destruct (le_lt_dec (i * s + s) (List.length l)) as [Hle|Hgt].
  - rewrite slice_index_in_range by lia. f_equal. lia.
  - rewrite slice_index_beyond by lia.
    rewrite !firstn_all2; try reflexivity; rewrite length_skipn; lia.
Qed.

Lemma pages_concat (s : nat) : forall (k : nat) (l : list E),
  (List.length l <= k * s)%nat ->
  List.concat (map (fun i => firstn s (skipn (i * s) l)) (seq 0 k)) = l.
Proof.
  induction k as [|k IH]; intros l Hl; simpl.
  - destruct l; [reflexivity | simpl in Hl; lia].
  - rewrite <- seq_shift, map_map.
    rewrite (map_ext _ (fun i => firstn s (skipn (i * s) (skipn s l)))).
    + rewrite IH by (rewrite length_skipn; lia). apply firstn_skipn.
    + intros i. rewrite skipn_skipn. do 2 f_equal. lia.
Qed.

Lemma page_count_bounds (len : nat) (s : Z) :
  0 < s ->
  Z.of_nat len <= Z.of_nat (page_count len s) * s < Z.of_nat len + s.
Proof.
  intros Hs. unfold page_count.
  assert (Hq : 0 <= (Z.of_nat len + s - 1) / s) by (apply Z.div_pos; lia).
  rewrite Z2Nat.id by assumption.
  pose proof (Z.div_mod (Z.of_nat len + s - 1) s ltac:(lia)) as Hdm.
  pose proof (Z.mod_pos_bound (Z.of_nat len + s - 1) s Hs) as Hm.
  set (q := (Z.of_nat len + s - 1) / s) in *.
  set (r := (Z.of_nat len + s - 1) mod s) in *.
  split; nia.
Qed.

(** [paginate] with a positive page size, page by page. *)
Lemma paginate_pages (l : list E) (s : Z) :
  0 < s ->
  tools.paginate l s
  = Ok (map (fun i => firstn (Z.to_nat s) (skipn (i * Z.to_nat s) l))
            (seq 0 (page_count (List.length l) s))).
Proof.
  intros Hs. unfold tools.paginate, tools.range0.
  destruct (Z.eqb_spec s 0); [lia|].
  destruct (Z.ltb_spec s 0); [lia|]. simpl.
  fold (page_count (List.length l) s). f_equal. rewrite map_map.
  apply map_ext_in. intros i Hi. apply in_seq in Hi.
  destruct (page_count_bounds (List.length l) s Hs) as [_ Hlast].
  rewrite <- (Z2Nat.id s) at 1 2 3 by lia.
  apply slice_page; [lia|]. nia.
Qed.

Lemma paginate_lengths (l : list E) (s : Z) :
  0 < s ->
  exists pages,
    tools.paginate l s = Ok pages
    /\ List.concat pages = l
    /\ List.length pages = page_count (List.length l) s
    /\ map (@List.length E) pages
       = map (fun i => Nat.min (Z.to_nat s) (List.length l - i * Z.to_nat s))
             (seq 0 (page_count (List.length l) s)).
Proof.
  intros Hs. eexists. split; [apply paginate_pages; assumption|].
  destruct (page_count_bounds (List.length l) s Hs) as [Hall _].
  split; [|split].
  - apply pages_concat. nia.
  - now rewrite length_map, length_seq.
  - rewrite map_map. apply map_ext. intros i.
    now rewrite length_firstn, length_skipn.
Qed.

End Slices.

Section BatchTheorems.

Context {Path : Type} `{PurePath Path}.

(** C4 (amended).  For every test set and every positive batch size,
    test_batches() yields finitely many pages whose concatenation is
    exactly the test list in corpus order; there are ceil(n / batch_size)
    of them, every page but the last has batch_size elements and the last
    has between 1 and batch_size; in particular a test set of size 130
    with batch size 64 yields exactly 3 pages of sizes 64, 64, 2. *)
Theorem test_batches_pages (self : LabeledSpectrogramBatchGenerator Path) :
  0 < batch_size self ->
  exists pages,
    test_batches self = Ok pages
    /\ List.concat pages = labeled_test_spectrograms self
    /\ List.length pages
       = page_count (List.length (labeled_test_spectrograms self)) (batch_size self)
    /\ (forall i page,
          nth_error pages i = Some page ->
          (0 < List.length page)%nat
          /\ Z.of_nat (List.length page) <= batch_size self
          /\ ((S i < List.length pages)%nat ->
              Z.of_nat (List.length page) = batch_size self))
    /\ (List.length (labeled_test_spectrograms self) = 130%nat ->
        batch_size self = 64 ->
        map (@List.length _) pages = [64; 64; 2]%nat).
Proof.
  intros Hs. unfold test_batches.
  set (l := labeled_test_spectrograms self).
  set (s := batch_size self) in *.
  destruct (paginate_lengths _ l s Hs) as (pages & Hp & Hcat & Hlen & Hlens).
  exists pages. split; [exact Hp|]. split; [exact Hcat|]. split; [exact Hlen|].
  destruct (page_count_bounds (List.length l) s Hs) as [Hall Hlast].
  split.
  - intros i page Hi.
    assert (Hil : (i < List.length pages)%nat)
      by (apply nth_error_Some; rewrite Hi; discriminate).
    assert (Hpl : nth_error (map (@List.length _) pages) i = Some (List.length page))
      by (rewrite nth_error_map, Hi; reflexivity).
    rewrite Hlens, nth_error_map, nth_error_seq in Hpl.
    rewrite Hlen in Hil.
    destruct (Nat.ltb_spec i (page_count (List.length l) s)) as [_|]; [|lia].
    simpl in Hpl. injection Hpl as Hpl. rewrite Hlen.
    repeat split; try nia.
  - intros Hn Hsz. rewrite Hlens, Hn, Hsz. reflexivity.
Qed.

(** C6.  For a list of length L and a count n with 0 <= n <= L, overfit(n)
    returns the first n elements, in input order, as training and the
    remaining L - n elements, in input order, as test; n = 0 gives an
    empty training set and n = L an empty test set. *)
Theorem overfit_takes_prefix (examples : list (LabeledExample Path)) (n : Z) :
  0 <= n <= Z.of_nat (List.length examples) ->
  overfit n examples
  = (firstn (Z.to_nat n) examples, skipn (Z.to_nat n) examples)
  /\ fst (overfit n examples) ++ snd (overfit n examples) = examples
  /\ Z.of_nat (List.length (fst (overfit n examples))) = n
  /\ Z.of_nat (List.length (snd (overfit n examples)))
     = Z.of_nat (List.length examples) - n
  /\ (n = 0 -> fst (overfit n examples) = [])
  /\ (n = Z.of_nat (List.length examples) -> snd (overfit n examples) = []).
Proof.
  intros Hn.
  assert (Hov : overfit n examples
                = (firstn (Z.to_nat n) examples, skipn (Z.to_nat n) examples)).
  { unfold overfit, tools.slice_to, tools.slice_from.
    now rewrite slice_index_in_range. }
  rewrite Hov. simpl. split; [reflexivity|]. split; [apply firstn_skipn|].
  split; [rewrite length_firstn; lia|].
  split; [rewrite length_skipn; lia|].
  split.
  - intros ->. reflexivity.
  - intros ->. rewrite Nat2Z.id. apply skipn_all.
Qed.

End BatchTheorems.

(* ================================================================== *)
(** ** [random.sample] *)
(* ================================================================== *)

Section SampleProperties.

Context {G : Type} `{Generator G}.

Lemma list_set_length (A : Type) (l : list A) (j : nat) (v : A) :
  List.length (random.list_set l j v) = List.length l.
Proof.
  revert j. induction l as [|x l IH]; intros [|j]; simpl; auto.
Qed.

Lemma list_set_nth_error (A : Type) (l : list A) (j : nat) (v : A) (t : nat) :
  (j < List.length l)%nat ->
  nth_error (random.list_set l j v) t
  = if Nat.eqb t j then Some v else nth_error l t.
Proof.
  revert j t. induction l as [|x l IH]; intros j t Hj; simpl in Hj; [lia|].
  destruct j as [|j], t as [|t]; simpl; try reflexivity.
  apply IH. lia.
Qed.

Lemma list_set_map (A B : Type) (f : A -> B) (l : list A) (j : nat) (v : A) :
  random.list_set (map f l) j (f v) = map f (random.list_set l j v).
Proof.
  revert j. induction l as [|x l IH]; intros [|j]; simpl; try reflexivity.
  now rewrite IH.
Qed.

(** The branch on the pool does to [map f pool] what it does to [pool]. *)
Lemma sample_pool_map (A B : Type) (f : A -> B) (n : nat) :
  forall (todo i : nat) (pool : list A) (g : G),
    random.sample_pool todo i n (map f pool) g
    = (fmap (map f) (fst (random.sample_pool todo i n pool g)),
       snd (random.sample_pool todo i n pool g)).
Proof.
  induction todo as [|todo IH]; intros i pool g; simpl; [reflexivity|].
  destruct (randbelow g (n - i)) as [j g1].
  rewrite !nth_error_map.
  destruct (nth_error pool j) as [x|]; simpl; [|reflexivity].
  destruct (nth_error pool (n - i - 1)) as [y|]; simpl; [|reflexivity].
  rewrite list_set_map, IH.
  destruct (random.sample_pool todo (S i) n (random.list_set pool j y) g1)
    as [[xs|e] g2]; reflexivity.
Qed.

Lemma sample_pool_indices (Hrange : in_range) (n : nat) :
  forall (todo i : nat) (p : list nat) (g : G),
    List.length p = n -> (i + todo <= n)%nat -> distinct_prefix p (n - i) ->
    exists idx g',
      random.sample_pool todo i n p g = (Ok idx, g')
      /\ List.length idx = todo
      /\ NoDup idx
      /\ forall x, In x idx -> exists t, (t < n - i)%nat /\ nth_error p t = Some x.
Proof.
  induction todo as [|todo IH]; intros i p g Hlen Hi Hdist; simpl.
  - exists [], g. repeat split; [constructor | intros x []].
  - pose proof (Hrange g (n - i)%nat ltac:(lia)) as Hj.
    destruct (randbelow g (n - i)) as [j g1]. simpl in Hj.
    destruct (nth_error p j) as [x|] eqn:Hx;
      [|apply nth_error_None in Hx; lia].
    destruct (nth_error p (n - i - 1)) as [y|] eqn:Hy;
      [|apply nth_error_None in Hy; lia].
    destruct (IH (S i) (random.list_set p j y) g1) as (idx & g' & Hrun & Hl & Hnd & Hin).
    + now rewrite list_set_length.
    + lia.
    + intros t1 t2 z Ht1 Ht2.
      rewrite !list_set_nth_error by lia.
      destruct (Nat.eqb_spec t1 j) as [->|Hn1], (Nat.eqb_spec t2 j) as [->|Hn2];
        intros H1 H2; try reflexivity.
      * injection H1 as <-.
        assert (t2 = n - i - 1)%nat by (apply (Hdist _ _ y); auto; lia). lia.
      * injection H2 as <-.
        assert (t1 = n - i - 1)%nat by (apply (Hdist _ _ y); auto; lia). lia.
      * apply (Hdist _ _ z); auto; lia.
    + rewrite Hrun. exists (x :: idx), g'. simpl.
      split; [reflexivity|]. split; [now rewrite Hl|]. split.
      * constructor; [|assumption]. intros Hxin.
        destruct (Hin x Hxin) as (t & Ht & Hnt).
        rewrite list_set_nth_error in Hnt by lia.
        destruct (Nat.eqb_spec t j) as [->|Hne].
        -- injection Hnt as ->.
           assert (j = n - i - 1)%nat by (apply (Hdist _ _ x); auto; lia). lia.
        -- assert (t = j) by (apply (Hdist _ _ x); auto; lia). contradiction.
      * intros z [<-|Hz]; [exists j; split; [lia|assumption]|].
        destruct (Hin z Hz) as (t & Ht & Hnt).
        rewrite list_set_nth_error in Hnt by lia.
        destruct (Nat.eqb_spec t j) as [->|Hne].
        -- injection Hnt as ->. exists (n - i - 1)%nat. split; [lia|assumption].
        -- exists t. split; [lia|assumption].
Qed.

End SampleProperties.

Section SampleSpecification.

Context {G : Type} `{Generator G} {A : Type}.

Lemma drawn_from_length (population : list A) idx batch :
  drawn_from population idx batch -> List.length batch = List.length idx.
Proof. induction 1; simpl; congruence. Qed.

Lemma drawn_from_In (population : list A) idx batch x :
  drawn_from population idx batch -> In x batch ->
  exists j, In j idx /\ nth_error population j = Some x.
Proof.
  induction 1 as [|j y idx batch Hjy Hd IH]; intros Hx; [contradiction|].
  destruct Hx as [->|Hx].
  - exists j. split; [now left | assumption].
  - destruct (IH Hx) as (j' & Hj' & Hx'). exists j'. split; [now right | assumption].
Qed.

Lemma drawn_from_NoDup (population : list A) idx batch :
  NoDup population -> NoDup idx -> drawn_from population idx batch -> NoDup batch.
Proof.
  intros Hpop Hidx Hd. induction Hd as [|j x idx batch Hjx Hd IH]; [constructor|].
  inversion Hidx as [|? ? Hj Hidx']; subst. constructor; [|now apply IH].
  intros Hx. apply Hj.
  destruct (drawn_from_In _ _ _ _ Hd Hx) as (j' & Hj' & Hx').
  replace j with j'; [assumption|].
  rewrite NoDup_nth_error in Hpop. apply Hpop.
  - apply nth_error_Some. rewrite Hx'. discriminate.
  - congruence.
Qed.

Lemma map_nth_seq (l : list A) (d : A) :
  map (fun j => nth j l d) (seq 0 (List.length l)) = l.
Proof.
  induction l as [|x l IH]; simpl; [reflexivity|].
  rewrite <- seq_shift, map_map. simpl. now rewrite IH.
Qed.

Lemma draw_unselected_spec (Hrange : in_range) (n : nat) (selected : list nat) :
  (0 < n)%nat ->
  forall fuel g j g1,
    random.draw_unselected fuel n selected g = Some (j, g1) ->
    ~ In j selected /\ (j < n)%nat.
Proof.
  intros Hn. induction fuel as [|fuel IH]; intros g j g1; simpl; [discriminate|].
  pose proof (Hrange g n Hn) as Hj.
  destruct (randbelow g n) as [j0 g0]. simpl in Hj.
  destruct (existsb (Nat.eqb j0) selected) eqn:Hsel; [apply IH|].
  intros Heq. injection Heq as <- <-. split; [|assumption].
  intros Hin. apply Bool.not_true_iff_false in Hsel. apply Hsel.
  apply existsb_exists. exists j0. split; [assumption | apply Nat.eqb_refl].
Qed.

Lemma draw_unselected_mono (n : nat) (selected : list nat) :
  forall fuel fuel' g r,
    random.draw_unselected fuel n selected g = Some r -> (fuel <= fuel')%nat ->
    random.draw_unselected fuel' n selected g = Some r.
Proof.
  induction fuel as [|fuel IH]; intros [|fuel'] g r; simpl; try discriminate; try lia.
  destruct (randbelow g n) as [j0 g0].
  destruct (existsb (Nat.eqb j0) selected); [|auto].
  intros Hr Hle. apply IH; [assumption | lia].
Qed.

Lemma sample_set_spec (Hrange : in_range) (population : list A) (fuel : nat) :
  (0 < List.length population)%nat ->
  forall todo selected g r g',
    random.sample_set fuel todo (List.length population) population selected g
    = Some (r, g') ->
    exists idx batch,
      r = Ok batch /\ List.length idx = todo /\ NoDup idx
      /\ (forall j, In j idx -> ~ In j selected)
      /\ drawn_from population idx batch.
Proof.
  intros Hn. induction todo as [|todo IH]; intros selected g r g'; simpl.
  - intros Heq. injection Heq as <- <-. exists [], [].
    repeat split; [constructor | intros j [] | constructor].
  - destruct (random.draw_unselected fuel _ selected g) as [[j g1]|] eqn:Hdraw;
      [|discriminate].
    destruct (draw_unselected_spec Hrange _ _ Hn _ _ _ _ Hdraw) as [Hnew Hj].
    destruct (nth_error population j) as [x|] eqn:Hx;
      [|apply nth_error_None in Hx; lia].
    destruct (random.sample_set fuel todo _ population (j :: selected) g1)
      as [[r1 g2]|] eqn:Hrest; [|discriminate].
    destruct (IH _ _ _ _ Hrest) as (idx & batch & -> & Hl & Hnd & Hfresh & Hd).
    intros Heq. injection Heq as <- <-. exists (j :: idx), (x :: batch). simpl.
    split; [reflexivity|]. split; [now rewrite Hl|]. split.
    + constructor; [|assumption]. intros Hin. apply (Hfresh j Hin). now left.
    + split; [|now constructor].
      intros j' [<-|Hin]; [assumption|].
      intros Hsel. apply (Hfresh j' Hin). now right.
Qed.

Lemma sample_set_total (Hrange : in_range) (Hescapes : escapes)
      (population : list A) :
  forall todo selected g,
    NoDup selected ->
    (List.length selected + todo <= List.length population)%nat ->
    exists fuel, forall fuel', (fuel <= fuel')%nat ->
      random.sample_set fuel' todo (List.length population) population selected g
      <> None.
Proof.
  induction todo as [|todo IH]; intros selected g Hnd Hlen; simpl.
  - exists 0%nat. intros. discriminate.
  - destruct (Hescapes g (List.length population) selected Hnd ltac:(lia))
      as [fuel0 Hdraw].
    destruct (random.draw_unselected fuel0 _ selected g) as [[j g1]|] eqn:Hd;
      [|contradiction].
    assert (Hn : (0 < List.length population)%nat) by lia.
    destruct (draw_unselected_spec Hrange _ _ Hn _ _ _ _ Hd) as [Hnew Hj].
    destruct (IH (j :: selected) g1) as [fuel1 Hrest];
      [now constructor | simpl; lia |].
    exists (Nat.max fuel0 fuel1). intros fuel' Hle.
    rewrite (draw_unselected_mono _ _ _ fuel' _ _ Hd) by lia.
    destruct (nth_error population j); [|discriminate].
    specialize (Hrest fuel' ltac:(lia)).
    destruct (random.sample_set fuel' todo _ population (j :: selected) g1)
      as [[r g2]|]; [discriminate | contradiction].
Qed.

(** [random.sample]: a sample size that is negative or exceeds the
    population is refused without a draw; otherwise whatever is returned
    holds [k] elements at pairwise distinct positions. *)
Lemma sample_spec (Hrange : in_range) (population : list A) (k : Z)
      (fuel : nat) (g : G) :
  (~ 0 <= k <= Z.of_nat (List.length population) ->
   random.sample fuel population k g = Some (sample_refused, g))
  /\ (0 <= k <= Z.of_nat (List.length population) ->
      forall r g', random.sample fuel population k g = Some (r, g') ->
      exists idx batch,
        r = Ok batch /\ Z.of_nat (List.length batch) = k /\ NoDup idx
        /\ drawn_from population idx batch).
Proof.
  unfold random.sample. split.
  - intros Hk.
    destruct (Z.leb_spec 0 k), (Z.leb_spec k (Z.of_nat (List.length population)));
      simpl; try reflexivity; lia.
  - intros Hk r g'.
    destruct (Z.leb_spec 0 k), (Z.leb_spec k (Z.of_nat (List.length population)));
      try lia; simpl.
    destruct (Z.leb_spec (Z.of_nat (List.length population)) (random.setsize k)).
    + destruct population as [|d rest] eqn:Hpop.
      * simpl in *. replace (Z.to_nat k) with 0%nat by lia. simpl.
        intros Heq. injection Heq as <- <-. exists [], [].
        repeat split; [simpl; lia | constructor | constructor].
      * rewrite <- Hpop in *. clear Hpop rest.
        rewrite <- (map_nth_seq population d) at 2.
        rewrite sample_pool_map.
        destruct (sample_pool_indices Hrange (List.length population) (Z.to_nat k)
                    0 (seq 0 (List.length population)) g)
          as (idx & g1 & Hrun & Hl & Hnd & Hin).
        -- apply length_seq.
        -- lia.
        -- intros t1 t2 x Ht1 Ht2. rewrite !nth_error_seq.
           destruct (Nat.ltb_spec t1 (List.length population)); [|lia].
           destruct (Nat.ltb_spec t2 (List.length population)); [|lia].
           simpl. congruence.
        -- rewrite Hrun. simpl. intros Heq. injection Heq as <- <-.
           exists idx, (map (fun j => nth j population d) idx).
           split; [reflexivity|]. split; [rewrite length_map; lia|].
           split; [assumption|].
           assert (Hb : forall x, In x idx -> (x < List.length population)%nat).
           { intros x Hx. destruct (Hin x Hx) as (t & Ht & Hnt).
             rewrite nth_error_seq in Hnt.
             destruct (Nat.ltb_spec t (List.length population)); [|lia].
             simpl in Hnt. injection Hnt as <-. lia. }
           clear - Hb. unfold drawn_from.
           induction idx as [|j idx IH]; simpl; constructor.
           ++ apply nth_error_nth'. apply Hb. now left.
           ++ apply IH. intros x Hx. apply Hb. now right.
    + intros Hrun.
      assert (Hn : (0 < List.length population)%nat).
      { unfold random.setsize in *. destruct (5 <? k); [|lia].
        pose proof (Z.pow_nonneg 4 (random.ceil_log4 (k * 3)) ltac:(lia)). lia. }
      destruct (sample_set_spec Hrange population fuel Hn _ _ _ _ _ Hrun)
        as (idx & batch & -> & Hl & Hnd & _ & Hd).
      exists idx, batch. split; [reflexivity|].
      split; [rewrite (drawn_from_length _ _ _ Hd); lia|]. auto.
Qed.

(** With enough fuel, an admissible sample is drawn. *)
Lemma sample_total (Hrange : in_range) (Hescapes : escapes)
      (population : list A) (k : Z) (g : G) :
  0 <= k <= Z.of_nat (List.length population) ->
  exists fuel batch g', random.sample fuel population k g = Some (Ok batch, g').
Proof.
  intros Hk.
  destruct (sample_set_total Hrange Hescapes population (Z.to_nat k) [] g)
    as [fuel Hfuel]; [constructor | simpl; lia |].
  exists fuel.
  destruct (random.sample fuel population k g) as [[r g']|] eqn:Hrun.
  - destruct (proj2 (sample_spec Hrange population k fuel g) Hk _ _ Hrun)
      as (idx & batch & -> & _). now exists batch, g'.
  - exfalso. revert Hrun. unfold random.sample.
    destruct (Z.leb_spec 0 k), (Z.leb_spec k (Z.of_nat (List.length population)));
      try lia; simpl.
    destruct (Z.leb_spec (Z.of_nat (List.length population)) (random.setsize k));
      [discriminate|].
    apply Hfuel. lia.
Qed.

End SampleSpecification.

(* ================================================================== *)
(** ** Order-preserving partitions *)
(* ================================================================== *)

Section Partition.

Variable A : Type.
Variable p : A -> bool.

Lemma filter_subsequence (l : list A) : subsequence (filter p l) l.
Proof.
  induction l as [|x l IH]; simpl; [constructor|].
  destruct (p x); now constructor.
Qed.

Lemma filter_complement (l : list A) :
  Permutation (filter p l ++ filter (fun x => negb (p x)) l) l.
Proof.
  induction l as [|x l IH]; simpl; [constructor|].
  destruct (p x); simpl.
  - now constructor.
  - apply Permutation_sym, Permutation_cons_app. now apply Permutation_sym.
Qed.

End Partition.

(** Filtering on a condition and on its negation partitions the list. *)
Lemma filter_is_partition (A : Type) (p : A -> bool) (l : list A) :
  is_partition l (filter p l, filter (fun x => negb (p x)) l).
Proof.
  unfold is_partition. simpl.
  split; [apply filter_complement|].
  split; [apply filter_subsequence|].
  split; [apply (filter_subsequence _ (fun x => negb (p x)))|].
  intros e He. rewrite !filter_In.
  destruct (p e) eqn:Hp; [left|right]; simpl; intuition congruence.
Qed.

(* ================================================================== *)
(** ** The counting generator *)
(* ================================================================== *)

Lemma counting_in_range : @in_range nat fixtures.counting.
Proof.
  intros g n Hn. simpl. apply Nat.mod_upper_bound. lia.
Qed.

Lemma counting_draw_None (n : nat) (selected : list nat) :
  forall fuel g,
    @random.draw_unselected nat fixtures.counting fuel n selected g = None ->
    forall t, (t < fuel)%nat -> In ((g + t) mod n)%nat selected.
Proof.
  induction fuel as [|fuel IH]; intros g Hnone t Ht; [lia|].
  simpl in Hnone.
  destruct (existsb (Nat.eqb (g mod n)) selected) eqn:Hsel; [|discriminate].
  destruct t as [|t].
  - rewrite Nat.add_0_r. apply existsb_exists in Hsel.
    destruct Hsel as (x & Hx & Heq). apply Nat.eqb_eq in Heq. now subst x.
  - replace (g + S t)%nat with (S g + t)%nat by lia. apply IH; [assumption | lia].
Qed.

Lemma counting_reaches (n g r : nat) :
  (r < n)%nat -> exists t, (t < n)%nat /\ ((g + t) mod n = r)%nat.
Proof.
  intros Hr.
  pose proof (Nat.mod_upper_bound g n ltac:(lia)) as Ha.
  pose proof (Nat.div_mod_eq g n) as Hg.
  destruct (le_lt_dec (g mod n) r) as [Hle|Hgt].
  - exists (r - g mod n)%nat. split; [lia|].
    symmetry. apply (Nat.mod_unique _ _ (g / n)); [assumption | lia].
  - exists (r + n - g mod n)%nat. split; [lia|].
    symmetry. apply (Nat.mod_unique _ _ (S (g / n))); [assumption | lia].
Qed.

Lemma counting_escapes : @escapes nat fixtures.counting.
Proof.
  intros g n selected Hnd Hlen. exists n. intros Hnone.
  assert (Hincl : incl (seq 0 n) selected).
  { intros r Hr. apply in_seq in Hr.
    destruct (counting_reaches n g r ltac:(lia)) as (t & Ht & <-).
    now apply (counting_draw_None n selected n g). }
  pose proof (NoDup_incl_length (seq_NoDup n 0) Hincl) as Hle.
  rewrite length_seq in Hle. lia.
Qed.

(* ================================================================== *)
(** ** Random splits and random batches *)
(* ================================================================== *)

Section RandomTheorems.

Context {Path : Type} `{PurePath Path} {G : Type} `{Generator G}.

(** C2.  A split of the "randomly" family does not depend on the state the
    generator is in when the split is called: it seeds the generator with
    42 first, so two runs on the same example list with the same key
    function and training share give the same outcome (the same exception,
    or the same training and test lists) and leave the generator in the
    same state.  This holds for randomly_grouped_by with every key
    function and for its specializations randomly and
    randomly_grouped_by_directory. *)
Theorem randomly_grouped_by_deterministic :
  (forall (K : Type) (KK : Key K) (key_from_example : LabeledExample Path -> K)
          (training_share : float) (fuel : nat)
          (examples : list (LabeledExample Path)) (g1 g2 : G),
      randomly_grouped_by key_from_example training_share fuel examples g1
      = randomly_grouped_by key_from_example training_share fuel examples g2
      /\ randomly_grouped_by key_from_example training_share fuel examples g1
         = randomly_grouped_by key_from_example training_share fuel examples (seed 42))
  /\ (forall training_share fuel (examples : list (LabeledExample Path)) (g1 g2 : G),
        randomly training_share fuel examples g1
        = randomly training_share fuel examples g2)
  /\ (forall training_share fuel (examples : list (LabeledExample Path)) (g1 g2 : G),
        randomly_grouped_by_directory training_share fuel examples g1
        = randomly_grouped_by_directory training_share fuel examples g2).
Proof.
  repeat split.
Qed.

(** C10.  by_directory always returns, and randomly_grouped_by returns
    whenever its sample size lies between 0 and the number of keys (the
    generator drawing below its bound and getting out of every set that
    leaves an index free); what either returns is a partition of the input
    that keeps the order: the training and test lists together hold the
    input's examples, every input example is in exactly one of them, and
    each list is a subsequence of the input. *)
Theorem split_returns_partition :
  (forall test_directory_name (examples : list (LabeledExample Path)),
      is_partition examples (by_directory test_directory_name examples))
  /\ (forall (K : Type) (KK : Key K) (key_from_example : LabeledExample Path -> K)
             training_share fuel examples (g : G) parts g',
         randomly_grouped_by key_from_example training_share fuel examples g
         = Some (Ok parts, g') ->
         is_partition examples parts)
  /\ (in_range -> escapes ->
      forall (K : Type) (KK : Key K) (key_from_example : LabeledExample Path -> K)
             training_share examples (g : G) k,
        let directories :=
          tools.keys (tools.group key_eqb key_ltb key_from_example examples) in
        py.int_of_float
          (training_share * py.float_of_int (Z.of_nat (List.length directories)))%float
        = Ok k ->
        0 <= k <= Z.of_nat (List.length directories) ->
        exists fuel parts g',
          randomly_grouped_by key_from_example training_share fuel examples g
          = Some (Ok parts, g')
          /\ is_partition examples parts).
Proof.
  assert (Hpart : forall (K : Type) (KK : Key K)
                         (key_from_example : LabeledExample Path -> K)
                         training_share fuel examples (g : G) parts g',
             randomly_grouped_by key_from_example training_share fuel examples g
             = Some (Ok parts, g') ->
             is_partition examples parts).
  { intros K KK key share fuel examples g parts g'. unfold randomly_grouped_by.
    destruct (py.int_of_float _) as [k|e]; [|discriminate].
    destruct (random.sample _ _ _ _) as [[[keys|e] g1]|]; try discriminate.
    intros Heq. injection Heq as <- <-.
    apply (filter_is_partition _
             (fun example => existsb (key_eqb (key example)) keys)). }
  split; [|split; [exact Hpart|]].
  - intros test_directory_name examples. unfold by_directory.
    pose proof (filter_is_partition _
                  (fun example : LabeledExample Path =>
                     String.eqb (name (audio_directory example)) test_directory_name)
                  examples) as (Hperm & Hsub1 & Hsub2 & Hin).
    unfold is_partition in *. simpl in *.
    split; [|split; [assumption|split; [assumption|]]].
    + eapply Permutation_trans; [apply Permutation_app_comm | exact Hperm].
    + intros e He. destruct (Hin e He); [right | left]; assumption.
  - intros Hrange Hescapes K KK key share examples g k directories Hk Hkn.
    destruct (sample_total Hrange Hescapes directories k (seed 42) Hkn)
      as (fuel & keys & g' & Hrun).
    exists fuel.
    assert (Hret : randomly_grouped_by key share fuel examples g
                   = Some (Ok (filter (fun example =>
                                         existsb (key_eqb (key example)) keys) examples,
                               filter (fun example =>
                                         negb (existsb (key_eqb (key example)) keys))
                                      examples), g')).
    { unfold randomly_grouped_by. fold directories. rewrite Hk, Hrun. reflexivity. }
    do 2 eexists. split; [exact Hret|]. exact (Hpart _ _ _ _ _ _ _ _ _ Hret).
Qed.

(** C9.  When the batch size exceeds the number of training examples, an
    attempt to draw a batch from training_batches() raises an error: the
    first attempt the ValueError of random.sample, without a draw, and
    every later attempt StopIteration.  When the batch size is at most the
    training set size, every batch that is yielded holds exactly
    batch_size elements of the training spectrogram list, taken at
    pairwise distinct positions (so pairwise distinct when the list's
    elements are, as they are for a generator built on a constructed
    Corpus), and the generator stays ready for the next batch; and with a
    batch size between 0 and the training set size a batch is in fact
    yielded. *)
Theorem training_batches_next_sample (self : LabeledSpectrogramBatchGenerator Path) :
  let population := labeled_training_spectrograms self in
  let k := batch_size self in
  (Z.of_nat (List.length population) < k ->
   forall fuel (g : G),
     training_batches_next self fuel suspended g
     = Some (sample_refused, finished, g)
     /\ training_batches_next self fuel finished g
        = Some (Raise StopIteration, finished, g))
  /\ (in_range -> k <= Z.of_nat (List.length population) ->
      forall fuel gen (g : G) batch gen' g',
        training_batches_next self fuel gen g = Some (Ok batch, gen', g') ->
        Z.of_nat (List.length batch) = k
        /\ gen' = suspended
        /\ (exists idx, NoDup idx /\ drawn_from population idx batch)
        /\ (NoDup population -> NoDup batch))
  /\ (in_range -> escapes -> 0 <= k <= Z.of_nat (List.length population) ->
      forall g : G, exists fuel batch g',
        training_batches_next self fuel suspended g = Some (Ok batch, suspended, g'))
  /\ (forall tr te corpus directory,
        Corpus_init tr te = Ok corpus ->
        self = LabeledSpectrogramBatchGenerator_init corpus directory k ->
        NoDup population).
Proof.
  intros population k. split; [|split; [|split]].
  4:{ intros tr te corpus directory Hinit Hself. unfold population.
      rewrite Hself. exact (training_spectrograms_NoDup tr te corpus directory k Hinit). }
  - intros Hk fuel g. split; [|reflexivity].
    unfold training_batches_next. fold population k.
    assert (Hrefused : random.sample fuel population k g = Some (sample_refused, g)).
    { unfold random.sample.
      destruct (Z.leb_spec k (Z.of_nat (List.length population))); [lia|].
      now rewrite andb_false_r. }
    now rewrite Hrefused.
  - intros Hrange Hk fuel gen g batch gen' g'.
    unfold training_batches_next. fold population k.
    destruct gen; [|discriminate].
    destruct (random.sample fuel population k g) as [[[b|e] g1]|] eqn:Hrun;
      try discriminate.
    intros Heq. injection Heq as <- <- <-.
    destruct (Z_le_gt_dec 0 k) as [Hnonneg|Hneg].
    + destruct (proj2 (sample_spec Hrange population k fuel g) ltac:(lia) _ _ Hrun)
        as (idx & batch & Hb & Hlen & Hnd & Hd).
      injection Hb as ->.
      split; [assumption|]. split; [reflexivity|].
      split; [now exists idx|].
      intros Hpop. exact (drawn_from_NoDup _ _ _ Hpop Hnd Hd).
    + rewrite (proj1 (sample_spec Hrange population k fuel g)) in Hrun by lia.
      discriminate.
  - intros Hrange Hescapes Hk g.
    destruct (sample_total Hrange Hescapes population k g Hk)
      as (fuel & batch & g' & Hrun).
    exists fuel, batch, g'. unfold training_batches_next. fold population k.
    now rewrite Hrun.
Qed.

End RandomTheorems.

(* ================================================================== *)
(** ** The theorems at concrete inputs *)
(* ================================================================== *)

Import fixtures.
Open Scope string_scope.

(** C4, as stated, fails for a batch size that is not positive: with 0 the
    first page requested raises, with -1 no page is yielded at all. *)
Lemma test_batches_needs_positive_batch_size :
  test_batches (fixtures.batches [] ["a"] 0)
  = Raise (ValueError "range() arg 3 must not be zero" [])
  /\ test_batches (fixtures.batches [] ["a"] (-1)) = Ok []
  /\ labeled_test_spectrograms (fixtures.batches [] ["a"] (-1)) <> [].
Proof.
  repeat split. discriminate.
Qed.

Lemma test_batches_pages_witness :
  0 < batch_size (fixtures.batches [] ["a"; "b"; "c"] 2)
  /\ exists pages,
      test_batches (fixtures.batches [] ["a"; "b"; "c"] 2) = Ok pages
      /\ List.concat pages
         = labeled_test_spectrograms (fixtures.batches [] ["a"; "b"; "c"] 2)
      /\ List.length pages = 2%nat.
Proof.
  split; [reflexivity|].
  destruct (test_batches_pages (fixtures.batches [] ["a"; "b"; "c"] 2) eq_refl)
    as (pages & Hrun & Hcat & Hlen & _).
  exists pages. split; [exact Hrun|]. split; [exact Hcat | exact Hlen].
Defined.

Lemma overfit_takes_prefix_witness :
  0 <= 2 <= Z.of_nat (List.length (map (fixtures.labeled "d") ["a"; "b"; "c"]))
  /\ overfit 2 (map (fixtures.labeled "d") ["a"; "b"; "c"])
     = (map (fixtures.labeled "d") ["a"; "b"], map (fixtures.labeled "d") ["c"]).
Proof.
  assert (Hn : 0 <= 2 <= Z.of_nat (List.length (map (fixtures.labeled "d") ["a"; "b"; "c"])))
    by (simpl; lia).
  split; [exact Hn|].
  exact (proj1 (overfit_takes_prefix (map (fixtures.labeled "d") ["a"; "b"; "c"]) 2 Hn)).
Defined.

Lemma training_batches_next_sample_witness :
  (exists fuel batch g',
      training_batches_next (fixtures.batches ["a"; "b"; "c"] [] 2) fuel suspended 0%nat
      = Some (Ok batch, suspended, g'))
  /\ training_batches_next (fixtures.batches ["a"; "b"; "c"] [] 5) 0 suspended 0%nat
     = Some (sample_refused, finished, 0%nat).
Proof.
  split.
  - apply (proj1 (proj2 (proj2 (training_batches_next_sample
                                  (fixtures.batches ["a"; "b"; "c"] [] 2))))
             counting_in_range counting_escapes).
    simpl. lia.
  - apply (proj1 (training_batches_next_sample
                    (fixtures.batches ["a"; "b"; "c"] [] 5))).
    simpl. lia.
Defined.

(** Without the seed the outcome does depend on the state of the
    generator: the counting generator draws "a" in state 0 and "b" in
    state 1. *)
Lemma sample_depends_on_generator_state :
  random.sample 0 ["a"; "b"; "c"] 1 0%nat = Some (Ok ["a"], 1%nat)
  /\ random.sample 0 ["a"; "b"; "c"] 1 1%nat = Some (Ok ["b"], 2%nat).
Proof.
  split; reflexivity.
Qed.

Lemma split_returns_partition_witness :
  exists fuel parts g',
    randomly training_share_default fuel
             (map (fixtures.labeled "d") ["a"; "b"; "c"; "d"; "e"; "f"; "g"; "h"; "i"; "j"])
             0%nat
    = Some (Ok parts, g')
    /\ is_partition
         (map (fixtures.labeled "d") ["a"; "b"; "c"; "d"; "e"; "f"; "g"; "h"; "i"; "j"])
         parts.
Proof.
  apply (proj2 (proj2 (@split_returns_partition string _ nat fixtures.counting))
           counting_in_range counting_escapes string _ id training_share_default
           (map (fixtures.labeled "d") ["a"; "b"; "c"; "d"; "e"; "f"; "g"; "h"; "i"; "j"])
           0%nat 9).
  - vm_compute. reflexivity.
  - vm_compute. split; discriminate.
Defined.

Close Scope string_scope.

(* ================================================================== *)
(** ** Text files *)
(* ================================================================== *)

Lemma bind_assoc (A B C : Type) (m : result A) (k : A -> result B)
      (k' : B -> result C) :
  (y <- (x <- m ;; k x) ;; k' y) = (x <- m ;; y <- k x ;; k' y).
Proof. destruct m; reflexivity. Qed.

Lemma write_posix (s : text) : io.write io.linesep_posix s = s.
Proof.
  induction s as [|c s IH]; simpl; [reflexivity|]. rewrite IH.
  destruct (Ascii.eqb_spec c LF) as [->|]; reflexivity.
Qed.

(** Reading leaves a text without carriage returns as it is. *)
Lemma read_app_no_CR (a b : text) :
  Forall (fun c => Ascii.eqb c CR = false) a -> io.read (a ++ b) = a ++ io.read b.
Proof.
  induction 1 as [|c a Hc Ha IH]; [reflexivity|].
  simpl. rewrite Hc. now rewrite IH.
Qed.

Lemma read_CRLF (b : text) : io.read (CR :: LF :: b) = LF :: io.read b.
Proof. reflexivity. Qed.

Section ReaderOnText.

Variable B : Type.
Variable f : list string -> result B.

Lemma for_rows_cons_cons (self : csv.Reader) (c : ascii) (l : text) (ls : list text) :
  csv.for_rows f self ((c :: l) :: ls)
  = if Ascii.eqb c NUL then Raise (CsvError "line contains NULL byte")
    else self' <- csv.parse_process_char self c ;; csv.for_rows f self' (l :: ls).
Proof.
  simpl. destruct (Ascii.eqb c NUL); [reflexivity|].
  now rewrite bind_assoc.
Qed.

Lemma for_rows_lines : forall (input : text) (self : csv.Reader) (mid_line : bool),
  csv.for_text f self mid_line input = csv.for_rows f self (lines_from mid_line input).
Proof.
  induction input as [|c rest IH]; intros self mid_line.
  - destruct mid_line; reflexivity.
  - unfold lines_from. simpl io.lines.
    destruct (Ascii.eqb_spec c LF) as [->|Hc].
    + rewrite for_rows_cons_cons. simpl.
      destruct (csv.parse_process_char self LF) as [self'|e]; [|reflexivity].
      simpl. unfold csv.end_of_line.
      destruct (csv.parse_process_char self' NUL) as [self''|e]; [|reflexivity].
      simpl. rewrite !IH. unfold lines_from.
      destruct (io.lines rest); reflexivity.
    + assert (Hstep : csv.for_text f self mid_line (c :: rest)
                      = if Ascii.eqb c NUL
                        then Raise (CsvError "line contains NULL byte")
                        else self' <- csv.parse_process_char self c ;;
                             csv.for_text f self' true rest).
      { simpl. destruct (Ascii.eqb c NUL); [reflexivity|].
        destruct (csv.parse_process_char self c); [|reflexivity].
        simpl. destruct (Ascii.eqb_spec c LF); [contradiction | reflexivity]. }
      rewrite Hstep.
      destruct (io.lines rest) as [|l ls] eqn:Hlines.
      * rewrite for_rows_cons_cons.
        destruct (Ascii.eqb c NUL); [reflexivity|].
        destruct (csv.parse_process_char self c) as [self'|e]; [|reflexivity].
        simpl bind. rewrite IH. unfold lines_from. now rewrite Hlines.
      * rewrite for_rows_cons_cons.
        destruct (Ascii.eqb c NUL); [reflexivity|].
        destruct (csv.parse_process_char self c) as [self'|e]; [|reflexivity].
        simpl bind. rewrite IH. unfold lines_from. now rewrite Hlines.
Qed.

Lemma reader_comprehension_text (opened_csv : text) :
  csv.reader_comprehension f opened_csv
  = csv.for_text f csv.parse_reset false (io.read opened_csv).
Proof.
  unfold csv.reader_comprehension. rewrite for_rows_lines. unfold lines_from.
  destruct (io.lines (io.read opened_csv)); reflexivity.
Qed.

End ReaderOnText.

(* ================================================================== *)
(** ** The csv parser on what the csv writer wrote *)
(* ================================================================== *)

Section Parser.

Import csv.

Lemma special_false (c : ascii) :
  special c = false ->
  Ascii.eqb c delimiter = false /\ Ascii.eqb c NUL = false
  /\ Ascii.eqb c quotechar = false /\ Ascii.eqb c CR = false
  /\ Ascii.eqb c LF = false.
Proof.
  unfold special, escapechar, lineterminator. simpl.
  destruct (Ascii.eqb c delimiter), (Ascii.eqb c NUL), (Ascii.eqb c quotechar),
    (Ascii.eqb c CR), (Ascii.eqb c LF); simpl; intros; try discriminate; auto.
Qed.

Lemma characters_le_length (buf : text) : (characters buf <= List.length buf)%nat.
Proof. unfold characters. apply filter_length_le. Qed.

Lemma characters_app (a b : text) :
  characters (a ++ b) = (characters a + characters b)%nat.
Proof. unfold characters. now rewrite filter_app, length_app. Qed.

Lemma characters_cons (c : ascii) (body : text) :
  characters (c :: body) = ((if continuation c then 0 else 1) + characters body)%nat.
Proof. unfold characters. simpl. now destruct (continuation c). Qed.

(** A character is added as long as the field stays within the limit. *)
Lemma add_char_ok fs buf st c :
  Z.of_nat (characters (buf ++ [c])) <= field_limit ->
  parse_add_char {| fields := fs; field := buf; state := st |} c
  = Ok {| fields := fs; field := buf ++ [c]; state := st |}.
Proof.
  intros Hlen. unfold parse_add_char. simpl.
  rewrite characters_app, characters_cons in Hlen.
  destruct (continuation c); [reflexivity|].
  simpl in Hlen.
  destruct (Z.leb_spec field_limit (Z.of_nat (characters buf))); [lia | reflexivity].
Qed.

Lemma characters_step (buf body : text) (c : ascii) :
  Z.of_nat (characters (buf ++ c :: body)) <= field_limit ->
  Z.of_nat (characters (buf ++ [c])) <= field_limit
  /\ Z.of_nat (characters ((buf ++ [c]) ++ body)) <= field_limit.
Proof.
  intros Hlen. rewrite <- app_assoc. simpl app. split; [|exact Hlen].
  rewrite characters_app, characters_cons in *.
  change (characters []) with 0%nat. lia.
Qed.

Lemma in_quoted_plain fs buf c :
  Ascii.eqb c NUL = false -> Ascii.eqb c quotechar = false ->
  Z.of_nat (characters (buf ++ [c])) <= field_limit ->
  parse_process_char {| fields := fs; field := buf; state := IN_QUOTED_FIELD |} c
  = Ok {| fields := fs; field := buf ++ [c]; state := IN_QUOTED_FIELD |}.
Proof.
  intros H0 Hq Hlen. unfold parse_process_char. simpl state.
  rewrite H0, Hq. now apply add_char_ok.
Qed.

Lemma in_quoted_quote fs buf :
  parse_process_char {| fields := fs; field := buf; state := IN_QUOTED_FIELD |} quotechar
  = Ok {| fields := fs; field := buf; state := QUOTE_IN_QUOTED_FIELD |}.
Proof. reflexivity. Qed.

Lemma quote_in_quoted_quote fs buf :
  Z.of_nat (characters (buf ++ [quotechar])) <= field_limit ->
  parse_process_char {| fields := fs; field := buf; state := QUOTE_IN_QUOTED_FIELD |}
                     quotechar
  = Ok {| fields := fs; field := buf ++ [quotechar]; state := IN_QUOTED_FIELD |}.
Proof.
  intros Hlen. unfold parse_process_char. simpl state.
  rewrite Ascii.eqb_refl, add_char_ok by assumption. reflexivity.
Qed.

Lemma quote_in_quoted_delimiter fs buf :
  parse_process_char {| fields := fs; field := buf; state := QUOTE_IN_QUOTED_FIELD |}
                     delimiter
  = Ok {| fields := fs ++ [string_of_list_ascii buf]; field := [];
          state := START_FIELD |}.
Proof. reflexivity. Qed.

Lemma in_field_plain fs buf c :
  special c = false -> Z.of_nat (characters (buf ++ [c])) <= field_limit ->
  parse_process_char {| fields := fs; field := buf; state := IN_FIELD |} c
  = Ok {| fields := fs; field := buf ++ [c]; state := IN_FIELD |}.
Proof.
  intros Hc Hlen. destruct (special_false c Hc) as (Hd & H0 & Hq & Hcr & Hlf).
  unfold parse_process_char, is_eol. simpl state.
  rewrite Hlf, Hcr, H0, Hd. simpl. now apply add_char_ok.
Qed.

Lemma in_field_delimiter fs buf :
  parse_process_char {| fields := fs; field := buf; state := IN_FIELD |} delimiter
  = Ok {| fields := fs ++ [string_of_list_ascii buf]; field := [];
          state := START_FIELD |}.
Proof. reflexivity. Qed.

Lemma in_field_LF fs buf :
  parse_process_char {| fields := fs; field := buf; state := IN_FIELD |} LF
  = Ok {| fields := fs ++ [string_of_list_ascii buf]; field := [];
          state := EAT_CRNL |}.
Proof. reflexivity. Qed.

Lemma start_quote fs st :
  field_start st ->
  parse_process_char {| fields := fs; field := []; state := st |} quotechar
  = Ok {| fields := fs; field := []; state := IN_QUOTED_FIELD |}.
Proof. intros [->| ->]; reflexivity. Qed.

Lemma start_delimiter fs st :
  field_start st ->
  parse_process_char {| fields := fs; field := []; state := st |} delimiter
  = Ok {| fields := fs ++ [EmptyString]; field := []; state := START_FIELD |}.
Proof. intros [->| ->]; reflexivity. Qed.

Lemma start_plain fs st c :
  field_start st -> special c = false ->
  parse_process_char {| fields := fs; field := []; state := st |} c
  = Ok {| fields := fs; field := [c]; state := IN_FIELD |}.
Proof.
  intros Hst Hc. destruct (special_false c Hc) as (Hd & H0 & Hq & Hcr & Hlf).
  assert (Hstart : start_field {| fields := fs; field := []; state := START_FIELD |} c
                   = Ok {| fields := fs; field := [c]; state := IN_FIELD |}).
  { unfold start_field, is_eol. rewrite Hlf, Hcr, H0, Hq, Hd. simpl.
    rewrite add_char_ok; [reflexivity|].
    simpl app. rewrite characters_cons. unfold field_limit.
    destruct (continuation c); simpl; lia. }
  destruct Hst as [->| ->]; unfold parse_process_char; simpl state.
  - rewrite H0, Hlf, Hcr. simpl. exact Hstart.
  - exact Hstart.
Qed.

Variable B : Type.
Variable f : list string -> result B.

Lemma for_text_step self self' mid c rest :
  Ascii.eqb c NUL = false -> Ascii.eqb c LF = false ->
  parse_process_char self c = Ok self' ->
  for_text f self mid (c :: rest) = for_text f self' true rest.
Proof.
  intros H0 Hlf Hstep. simpl. now rewrite H0, Hstep, Hlf.
Qed.

Lemma for_text_LF self mid rest :
  for_text f self mid (LF :: rest)
  = (self' <- parse_process_char self LF ;;
     end_of_line f (fun s => for_text f s false rest) self').
Proof. reflexivity. Qed.

Lemma fst_join_append_data_cons c body :
  fst (join_append_data (c :: body))
  = (if Ascii.eqb c quotechar then [quotechar; c] else [c])
      ++ fst (join_append_data body).
Proof.
  simpl. destruct (join_append_data body) as [copied quoted].
  unfold special. destruct (Ascii.eqb c quotechar) eqn:Hq.
  - rewrite orb_true_r. reflexivity.
  - destruct (_ || _); reflexivity.
Qed.

Lemma snd_join_append_data body :
  snd (join_append_data body) = existsb special body.
Proof.
  induction body as [|c body IH]; simpl; [reflexivity|].
  destruct (join_append_data body) as [copied quoted]. simpl in IH. subst quoted.
  destruct (special c); reflexivity.
Qed.

Lemma join_append_data_plain body :
  existsb special body = false ->
  fst (join_append_data body) = body /\ Forall (fun c => special c = false) body.
Proof.
  induction body as [|c body IH]; simpl; [split; [reflexivity | constructor]|].
  intros Hs. apply orb_false_iff in Hs. destruct Hs as [Hc Hb].
  destruct (IH Hb) as [Hfst Hall].
  destruct (join_append_data body) as [copied quoted]. simpl in Hfst. subst copied.
  rewrite Hc. split; [reflexivity | now constructor].
Qed.

(** The body of a quoted field, up to the character [t] that follows. *)
Lemma quoted_body : forall body fs buf mid t rest,
  Forall (fun c => Ascii.eqb c NUL = false) body ->
  Z.of_nat (characters (buf ++ body)) <= field_limit ->
  for_text f {| fields := fs; field := buf; state := IN_QUOTED_FIELD |} mid
           (fst (join_append_data body) ++ t :: rest)
  = for_text f {| fields := fs; field := buf ++ body; state := IN_QUOTED_FIELD |}
             true (t :: rest).
Proof.
  induction body as [|c body IH]; intros fs buf mid t rest Hbody Hlen.
  - simpl. now rewrite app_nil_r.
  - inversion Hbody as [|? ? H0 Hbody']; subst.
    destruct (characters_step buf body c Hlen) as [Hone Hmore].
    replace (buf ++ c :: body) with ((buf ++ [c]) ++ body)
      by (rewrite <- app_assoc; reflexivity).
    rewrite fst_join_append_data_cons.
    destruct (Ascii.eqb_spec c quotechar) as [->|Hq].
    + simpl app.
      rewrite (for_text_step _ _ _ quotechar _ eq_refl eq_refl (in_quoted_quote fs buf)).
      rewrite (for_text_step _ _ _ quotechar _ eq_refl eq_refl
                 (quote_in_quoted_quote fs buf Hone)).
      apply IH; assumption.
    + apply Ascii.eqb_neq in Hq. simpl app.
      pose proof (in_quoted_plain fs buf c H0 Hq Hone) as Hstep.
      destruct (Ascii.eqb c LF) eqn:Hlf.
      * simpl for_text at 1. rewrite H0, Hstep, Hlf. simpl bind.
        unfold end_of_line.
        assert (Hnul : parse_process_char
                         {| fields := fs; field := buf ++ [c];
                            state := IN_QUOTED_FIELD |} NUL
                       = Ok {| fields := fs; field := buf ++ [c];
                               state := IN_QUOTED_FIELD |}) by reflexivity.
        rewrite Hnul. simpl bind. simpl state. cbv iota.
        apply IH; assumption.
      * rewrite (for_text_step _ _ _ _ _ H0 Hlf Hstep).
        apply IH; assumption.
Qed.

(** The body of a field that is not quoted, up to the character [t] that
    follows. *)
Lemma plain_body : forall body fs buf mid t rest,
  Forall (fun c => special c = false) body ->
  Z.of_nat (characters (buf ++ body)) <= field_limit ->
  for_text f {| fields := fs; field := buf; state := IN_FIELD |} mid
           (body ++ t :: rest)
  = for_text f {| fields := fs; field := buf ++ body; state := IN_FIELD |}
             true (t :: rest).
Proof.
  induction body as [|c body IH]; intros fs buf mid t rest Hbody Hlen.
  - simpl. now rewrite app_nil_r.
  - inversion Hbody as [|? ? Hc Hbody']; subst.
    destruct (characters_step buf body c Hlen) as [Hone Hmore].
    destruct (special_false c Hc) as (_ & H0 & _ & _ & Hlf).
    replace (buf ++ c :: body) with ((buf ++ [c]) ++ body)
      by (rewrite <- app_assoc; reflexivity).
    simpl app.
    rewrite (for_text_step _ _ _ _ _ H0 Hlf (in_field_plain fs buf c Hc Hone)).
    apply IH; assumption.
Qed.

(** A written field and the delimiter after it: the parser saves the
    field as it was handed to the writer. *)
Lemma written_field body fs st mid rest :
  field_start st ->
  Forall (fun c => Ascii.eqb c NUL = false) body ->
  Z.of_nat (characters body) <= field_limit ->
  for_text f {| fields := fs; field := []; state := st |} mid
           (written body ++ delimiter :: rest)
  = for_text f {| fields := fs ++ [string_of_list_ascii body]; field := [];
                  state := START_FIELD |} true rest.
Proof.
  intros Hst Hbody Hlen. unfold written. rewrite snd_join_append_data.
  destruct (existsb special body) eqn:Hsp.
  - simpl app. rewrite <- app_assoc. simpl app.
    rewrite (for_text_step _ _ _ quotechar _ eq_refl eq_refl (start_quote fs st Hst)).
    rewrite quoted_body by (simpl; assumption). simpl app.
    rewrite (for_text_step _ _ _ quotechar _ eq_refl eq_refl (in_quoted_quote fs body)).
    now rewrite (for_text_step _ _ _ delimiter _ eq_refl eq_refl
                   (quote_in_quoted_delimiter fs body)).
  - destruct (join_append_data_plain body Hsp) as [-> Hplain].
    rewrite app_nil_r. simpl app.
    destruct body as [|c body].
    + simpl app.
      now rewrite (for_text_step _ _ _ delimiter _ eq_refl eq_refl (start_delimiter fs st Hst)).
    + inversion Hplain as [|? ? Hc Hplain']; subst.
      destruct (special_false c Hc) as (_ & H0 & _ & _ & Hlf).
      simpl app.
      rewrite (for_text_step _ _ _ _ _ H0 Hlf (start_plain fs st c Hst Hc)).
      rewrite plain_body by (simpl in *; assumption || lia).
      now rewrite (for_text_step _ _ _ delimiter _ eq_refl eq_refl
                     (in_field_delimiter fs ([c] ++ body))).
Qed.

(** The last field of a record, not quoted and not empty, and the end of
    its line: the record is handed to the loop body and the parser starts
    afresh. *)
Lemma last_field c body fs mid rest :
  Forall (fun c => special c = false) (c :: body) ->
  Z.of_nat (characters (c :: body)) <= field_limit ->
  for_text f {| fields := fs; field := []; state := START_FIELD |} mid
           ((c :: body) ++ LF :: rest)
  = (y <- f (fs ++ [string_of_list_ascii (c :: body)]) ;;
     ys <- for_text f parse_reset false rest ;;
     Ok (y :: ys)).
Proof.
  intros Hplain Hlen. inversion Hplain as [|? ? Hc Hplain']; subst.
  destruct (special_false c Hc) as (_ & H0 & _ & _ & Hlf).
  simpl app.
  rewrite (for_text_step _ _ _ _ _ H0 Hlf
             (start_plain fs START_FIELD c (or_intror eq_refl) Hc)).
  rewrite plain_body by (simpl in *; assumption || lia).
  rewrite for_text_LF, in_field_LF. reflexivity.
Qed.

End Parser.

(* ================================================================== *)
(** ** Saving and loading a corpus *)
(* ================================================================== *)

Lemma length_list_ascii_of_string (s : string) :
  List.length (list_ascii_of_string s) = String.length s.
Proof. induction s as [|c s IH]; simpl; congruence. Qed.

Lemma join_append_data_Forall (P : ascii -> Prop) (body : text) :
  P csv.quotechar -> Forall P body -> Forall P (fst (csv.join_append_data body)).
Proof.
  intros Hq. induction 1 as [|c body Hc Hbody IH]; [constructor|].
  simpl. destruct (csv.join_append_data body) as [copied quoted]. simpl in IH.
  destruct (csv.special c); simpl.
  - destruct (Ascii.eqb c csv.quotechar); simpl; repeat constructor; assumption.
  - now constructor.
Qed.

Lemma written_Forall (P : ascii -> Prop) (body : text) :
  P csv.quotechar -> Forall P body -> Forall P (written body).
Proof.
  intros Hq Hbody. unfold written.
  pose proof (join_append_data_Forall P body Hq Hbody) as Hdata.
  destruct (snd (csv.join_append_data body)); simpl.
  - constructor; [assumption|]. apply Forall_app. split; [assumption|].
    now constructor.
  - now rewrite app_nil_r.
Qed.

(** A row of four strings, as [writerow] lays it out. *)
Lemma writerow_four (a b c d : string) :
  csv.writerow [csv.Str a; csv.Str b; csv.Str c; csv.Str d]
  = written (list_ascii_of_string a)
      ++ csv.delimiter :: written (list_ascii_of_string b)
      ++ csv.delimiter :: written (list_ascii_of_string c)
      ++ csv.delimiter :: written (list_ascii_of_string d)
      ++ [CR; LF].
Proof.
  unfold csv.writerow, csv.join_fields, csv.join_append, written.
  destruct (csv.join_append_data (list_ascii_of_string a)) as [ca qa].
  destruct (csv.join_append_data (list_ascii_of_string b)) as [cb qb].
  destruct (csv.join_append_data (list_ascii_of_string c)) as [cc qc].
  destruct (csv.join_append_data (list_ascii_of_string d)) as [cd qd].
  cbn [fst snd Nat.ltb Nat.leb List.length andb app].
  match goal with
  | |- context [Nat.eqb (List.length ?rec) 0] =>
      assert (Hrec : Nat.eqb (List.length rec) 0 = false)
  end.
  { match goal with
    | |- Nat.eqb (List.length (?x ++ csv.delimiter :: ?y)) 0 = false =>
        destruct (x ++ csv.delimiter :: y) eqn:Hxy;
        [symmetry in Hxy; now apply app_cons_not_nil in Hxy | reflexivity]
    end. }
  rewrite Hrec. unfold csv.lineterminator.
  repeat rewrite <- app_assoc. repeat (simpl app; rewrite <- ?app_assoc).
  reflexivity.
Qed.

Lemma written_plain (body : text) :
  existsb csv.special body = false -> written body = body.
Proof.
  intros Hplain. unfold written. rewrite snd_join_append_data, Hplain.
  destruct (join_append_data_plain body Hplain) as [-> _].
  simpl. apply app_nil_r.
Qed.

Lemma last_plain_field (B : Type) (f : list string -> result B)
      (body : text) fs mid rest :
  body <> [] -> existsb csv.special body = false ->
  Z.of_nat (csv.characters body) <= csv.field_limit ->
  csv.for_text f {| csv.fields := fs; csv.field := []; csv.state := csv.START_FIELD |}
               mid (written body ++ LF :: rest)
  = (y <- f (fs ++ [string_of_list_ascii body]) ;;
     ys <- csv.for_text f csv.parse_reset false rest ;;
     Ok (y :: ys)).
Proof.
  intros Hne Hplain Hlen. rewrite written_plain by assumption.
  destruct body as [|c body]; [contradiction|].
  apply last_field; [|assumption].
  now destruct (join_append_data_plain _ Hplain).
Qed.

Lemma storable_text_parts (s : string) :
  storable_text s ->
  Forall (fun c => Ascii.eqb c NUL = false) (list_ascii_of_string s)
  /\ Forall (fun c => Ascii.eqb c CR = false) (list_ascii_of_string s)
  /\ Z.of_nat (csv.characters (list_ascii_of_string s)) <= csv.field_limit.
Proof.
  intros [Hchars Hlen].
  repeat split; try assumption;
    (eapply Forall_impl; [|exact Hchars]); simpl; intuition.
Qed.

Section RoundTrip.

Context {Path : Type} `{PurePath Path}.

Lemma Phase_value_plain (phase : Phase) :
  list_ascii_of_string (Phase_value phase) <> []
  /\ existsb csv.special (list_ascii_of_string (Phase_value phase)) = false
  /\ Forall (fun c => Ascii.eqb c CR = false)
            (list_ascii_of_string (Phase_value phase))
  /\ Z.of_nat (csv.characters (list_ascii_of_string (Phase_value phase)))
     <= csv.field_limit.
Proof.
  destruct phase; simpl; repeat split; try discriminate;
    repeat constructor.
Qed.

Lemma Phase_getitem_value (phase : Phase) :
  Phase_getitem (Phase_value phase) = Ok phase.
Proof. destruct phase; reflexivity. Qed.

(** One row written and read back: the loop body gets the four strings
    that were written. *)
Lemma read_written_row (B : Type) (f : list string -> result B)
      (a b c : string) (phase : Phase) (rest : text) :
  storable_text a -> storable_text b -> storable_text c ->
  csv.for_text f csv.parse_reset false
    (io.read (csv.writerow [csv.Str a; csv.Str b; csv.Str c;
                            csv.Str (Phase_value phase)] ++ rest))
  = (y <- f [a; b; c; Phase_value phase] ;;
     ys <- csv.for_text f csv.parse_reset false (io.read rest) ;;
     Ok (y :: ys)).
Proof.
  intros Ha Hb Hc.
  destruct (storable_text_parts a Ha) as (Ha0 & Har & Hal).
  destruct (storable_text_parts b Hb) as (Hb0 & Hbr & Hbl).
  destruct (storable_text_parts c Hc) as (Hc0 & Hcr & Hcl).
  destruct (Phase_value_plain phase) as (Hpne & Hpp & Hpr & Hpl).
  rewrite writerow_four.
  set (A := list_ascii_of_string a) in *.
  set (B' := list_ascii_of_string b) in *.
  set (C := list_ascii_of_string c) in *.
  set (D := list_ascii_of_string (Phase_value phase)) in *.
  replace ((written A ++ csv.delimiter :: written B' ++ csv.delimiter :: written C
              ++ csv.delimiter :: written D ++ [CR; LF]) ++ rest)
    with ((written A ++ csv.delimiter :: written B' ++ csv.delimiter :: written C
             ++ csv.delimiter :: written D) ++ CR :: LF :: rest).
  2:{ repeat (rewrite <- ?app_assoc; simpl app). reflexivity. }
  rewrite read_app_no_CR, read_CRLF.
  2:{ repeat first [ apply written_Forall; [reflexivity|assumption]
                   | apply Forall_app; split
                   | apply Forall_cons
                   | reflexivity ]. }
  repeat (rewrite <- ?app_assoc; simpl app).
  unfold csv.parse_reset at 1.
  rewrite written_field by (assumption || now left).
  rewrite written_field by (assumption || now right).
  rewrite written_field by (assumption || now right).
  rewrite last_plain_field by assumption.
  unfold A, B', C, D. rewrite !string_of_list_ascii_of_string. reflexivity.
Qed.

End RoundTrip.

Section RoundTripTheorem.

Context {Path : Type} `{PurePath Path}.

Lemma load_row_written (e : LabeledExample Path) (l : string) (phase : Phase) :
  label e = Some l ->
  path_of_string (str (audio_file e)) = audio_file e ->
  load_row [id e; str (audio_file e); l; Phase_value phase] = Ok (e, phase).
Proof.
  intros Hl Hp. unfold load_row. rewrite Phase_getitem_value, Hp. simpl.
  destruct e as [i p lb]. simpl in *. now subst lb.
Qed.

(** The rows of a list of examples, read back. *)
Lemma load_rows (phase : Phase) : forall (es : list (LabeledExample Path)) (rest : text),
  Forall storable es ->
  csv.for_text load_row csv.parse_reset false
    (io.read (List.concat (map (manifest_row phase) es) ++ rest))
  = (ys <- csv.for_text load_row csv.parse_reset false (io.read rest) ;;
     Ok (map (fun e => (e, phase)) es ++ ys)).
Proof.
  induction es as [|e es IH]; intros rest Hes.
  - simpl. destruct (csv.for_text _ _ _ _); reflexivity.
  - inversion Hes as [|? ? He Hes']; subst.
    destruct He as (l & Hl & Hid & Hpath & Hlabel & Hp).
    simpl List.concat. rewrite <- app_assoc.
    unfold manifest_row at 1. rewrite Hl.
    rewrite read_written_row by assumption.
    rewrite (load_row_written e l phase Hl Hp). simpl bind at 1.
    rewrite IH by assumption.
    destruct (csv.for_text _ _ _ _); reflexivity.
Qed.

Lemma save_rows (self : Corpus Path) :
  save io.linesep_posix self
  = List.concat (map (manifest_row training) (training_examples self))
      ++ List.concat (map (manifest_row test) (test_examples self)).
Proof.
  unfold save. rewrite write_posix, map_app, concat_app, !map_map. reflexivity.
Qed.

Lemma filter_phase (tr te : list (LabeledExample Path)) :
  map fst (filter (fun ep => Phase_eqb (snd ep) training)
                  (map (fun e => (e, training)) tr ++ map (fun e => (e, test)) te))
  = tr
  /\ map fst (filter (fun ep => Phase_eqb (snd ep) test)
                     (map (fun e => (e, training)) tr ++ map (fun e => (e, test)) te))
     = te.
Proof.
  rewrite !filter_app, !map_app. split.
  - replace (filter _ (map (fun e => (e, test)) te)) with (@nil (LabeledExample Path * Phase)).
    + rewrite app_nil_r. induction tr as [|e tr IH]; simpl; congruence.
    + induction te as [|e te IH]; simpl; congruence.
  - replace (filter _ (map (fun e => (e, training)) tr))
      with (@nil (LabeledExample Path * Phase)).
    + simpl. induction te as [|e te IH]; simpl; congruence.
    + induction tr as [|e tr IH]; simpl; congruence.
Qed.

Lemma Corpus_init_Ok (tr te : list (LabeledExample Path)) (self : Corpus Path) :
  Corpus_init tr te = Ok self ->
  training_examples self = tr /\ test_examples self = te.
Proof.
  unfold Corpus_init.
  repeat match goal with
         | |- context [if ?b then _ else _] => destruct b; [discriminate|]
         end.
  intros Heq. injection Heq as <-. auto.
Qed.

(** C1 (amended).  On a platform whose line separator is the line feed,
    for every Corpus whose examples all carry a label and whose ids, path
    texts and labels can be encoded in UTF-8 (they are strings of the
    model: no lone surrogate), hold no carriage return and no character 0
    and are at most 131072 bytes long when encoded (and whose paths are
    given back by Path from their text), saving it to a manifest file and
    loading that file yields the same Corpus: the same training and test
    examples, with their (id, path, label) triples, in the original order;
    the rows are written training examples first, then test examples, each
    in list order. *)
Theorem save_load_round_trip (tr te : list (LabeledExample Path)) (self : Corpus Path) :
  Corpus_init tr te = Ok self ->
  Forall storable (tr ++ te) ->
  load (save io.linesep_posix self) = Ok self
  /\ save io.linesep_posix self
     = List.concat (map (manifest_row training) tr)
         ++ List.concat (map (manifest_row test) te).
Proof.
  intros Hinit Hstorable.
  destruct (Corpus_init_Ok tr te self Hinit) as [Htr Hte].
  apply Forall_app in Hstorable. destruct Hstorable as [Hstr Hste].
  split; [|rewrite save_rows, Htr, Hte; reflexivity].
  unfold load. rewrite reader_comprehension_text, save_rows, Htr, Hte.
  rewrite load_rows by assumption.
  rewrite <- (app_nil_r (List.concat (map (manifest_row test) te))).
  rewrite load_rows by assumption.
  simpl bind. rewrite app_nil_r.
  destruct (filter_phase tr te) as [-> ->]. exact Hinit.
Qed.

End RoundTripTheorem.

Open Scope string_scope.

(** C1, as stated, fails: an example without a label is written with an
    empty label field and comes back with the empty string as its label. *)
Lemma save_load_loses_missing_label :
  let unlabeled := {| id := "a"; audio_file := "a.wav"; label := None |} in
  let loaded := {| id := "a"; audio_file := "a.wav"; label := Some "" |} in
  Corpus_init [unlabeled] []
  = Ok {| training_examples := [unlabeled]; test_examples := [];
          examples := [unlabeled] |}
  /\ load (save io.linesep_posix
                {| training_examples := [unlabeled]; test_examples := [];
                   examples := [unlabeled] |})
     = Ok {| training_examples := [loaded]; test_examples := [];
             examples := [loaded] |}
  /\ label loaded <> label unlabeled.
Proof.
  repeat split. discriminate.
Qed.

(** The other conditions of the amended claim are needed as well.  An id
    with a carriage return comes back with a line feed in its place; and
    with the line separator of Windows every row is followed by an empty
    line (the carriage return and line feed of the csv writer become
    carriage return, carriage return, line feed), which [load] cannot
    unpack. *)
Lemma save_load_needs_its_conditions :
  let a := {| id := "a"; audio_file := "a.wav"; label := Some "hello" |} in
  let r := {| id := String CR "a"; audio_file := "a.wav"; label := Some "hello" |} in
  let n := {| id := String LF "a"; audio_file := "a.wav"; label := Some "hello" |} in
  load (save io.linesep_posix
             {| training_examples := [r]; test_examples := []; examples := [r] |})
  = Ok {| training_examples := [n]; test_examples := []; examples := [n] |}
  /\ save io.linesep_windows
          {| training_examples := [a]; test_examples := []; examples := [a] |}
     = (list_ascii_of_string "a,a.wav,hello,training" ++ [CR; CR; LF])%list
  /\ load (save io.linesep_windows
                {| training_examples := [a]; test_examples := []; examples := [a] |})
     = Raise (ValueError "not enough values to unpack (expected 4, got 0)" []).
Proof.
  repeat split.
Qed.

Lemma save_load_round_trip_witness :
  let a := {| id := "a"; audio_file := "train/a.wav"; label := Some "hello, world" |} in
  let b := {| id := "b"; audio_file := "test/b.wav"; label := Some "two
lines" |} in
  let self := {| training_examples := [a]; test_examples := [b]; examples := [a; b] |} in
  load (save io.linesep_posix self) = Ok self.
Proof.
  intros a b self.
  apply (save_load_round_trip [a] [b] self eq_refl).
  repeat constructor; eexists; (split; [reflexivity|]);
    repeat split; simpl; repeat constructor; unfold csv.field_limit; lia.
Defined.

Close Scope string_scope.

(* ================================================================== *)
(** ** Power levels *)
(* ================================================================== *)

(** Where a float stands with respect to zero. *)
Lemma float_sign_cases (x : float) :
  ((x =? 0)%float = true ->
   (x <=? 0)%float = true /\ (0 <=? x)%float = true
   /\ (x <? 0)%float = false /\ (0 <? x)%float = false)
  /\ ((0 <? x)%float = true ->
      (x =? 0)%float = false /\ (x <=? 0)%float = false /\ (0 <=? x)%float = true)
  /\ ((x <? 0)%float = true ->
      (x =? 0)%float = false /\ (x <=? 0)%float = true /\ (0 <=? x)%float = false)
  /\ ((0 <=? x)%float = true -> (x =? 0)%float = true \/ (0 <? x)%float = true).
Proof.
  rewrite !FloatAxioms.eqb_spec, !FloatAxioms.ltb_spec, !FloatAxioms.leb_spec.
  change (Prim2SF 0) with (S754_zero false).
  destruct (Prim2SF x) as [[]|[]| |[] m e]; simpl; repeat split;
    intros; try discriminate; auto.
Qed.

Section PowerLevelTheorems.

Import labeled_example.

Variable log10 : float -> float.

Lemma power_to_decibel_cases (x : float) :
  ((x =? 0)%float = true ->
   power_to_decibel log10 min_decibel_default x = Ok (py.Int (-150)))
  /\ ((0 <? x)%float = true ->
      power_to_decibel log10 min_decibel_default x
      = Ok (if (py.float_of_int 10 * log10 x <? floor)%float
            then py.Int (-150)
            else py.Float (py.float_of_int 10 * log10 x)))
  /\ ((x <? 0)%float = true ->
      power_to_decibel log10 min_decibel_default x = Raise math_domain_error).
Proof.
  destruct (float_sign_cases x) as (Hzero & Hpos & Hneg & _).
  unfold power_to_decibel, math_log10, float_lt, min_decibel_default.
  repeat split.
  - intros Hx. now rewrite Hx.
  - intros Hx. destruct (Hpos Hx) as (-> & -> & _). reflexivity.
  - intros Hx. destruct (Hneg Hx) as (-> & -> & _). reflexivity.
Qed.

(** On a power value that is not negative, the scalar function returns
    the level, as the [int] floor or as a float. *)
Lemma power_to_decibel_level (x : float) :
  (0 <=? x)%float = true ->
  exists v, power_to_decibel log10 min_decibel_default x = Ok v
            /\ py.to_float v = level log10 x.
Proof.
  intros Hx. destruct (power_to_decibel_cases x) as (Hzero & Hpos & _).
  destruct (float_sign_cases x) as (_ & Hp & _ & Hsplit).
  destruct (Hsplit Hx) as [H0|H1].
  - exists (py.Int (-150)). split; [now apply Hzero|].
    unfold level. now rewrite H0.
  - eexists. split; [now apply Hpos|].
    unfold level. destruct (Hp H1) as (-> & _).
    destruct (_ <? floor)%float; reflexivity.
Qed.

Lemma traverse_levels (a : list float) :
  Forall (fun x => (0 <=? x)%float = true) a ->
  exists outputs,
    traverse (power_to_decibel log10 min_decibel_default) a = Ok outputs
    /\ map py.to_float outputs = map (level log10) a.
Proof.
  induction 1 as [|x a Hx Ha IH]; simpl.
  - now exists [].
  - destruct (power_to_decibel_level x Hx) as (v & -> & Hv).
    destruct IH as (outputs & -> & Houts).
    exists (v :: outputs). simpl. now rewrite Hv, Houts.
Qed.

Lemma power_to_decibel_raises (x : float) :
  (exists v, power_to_decibel log10 min_decibel_default x = Ok v)
  \/ power_to_decibel log10 min_decibel_default x = Raise math_domain_error.
Proof.
  unfold power_to_decibel, math_log10.
  destruct (x =? 0)%float; [left; eauto|].
  destruct (x <=? 0)%float; [now right | left; simpl; eauto].
Qed.

Lemma traverse_negative (a : list float) :
  Exists (fun x => (x <? 0)%float = true) a ->
  traverse (power_to_decibel log10 min_decibel_default) a = Raise math_domain_error.
Proof.
  induction 1 as [x a Hx|x a Ha IH]; simpl.
  - now rewrite (proj2 (proj2 (power_to_decibel_cases x)) Hx).
  - destruct (power_to_decibel_raises x) as [[v ->]| ->]; [|reflexivity].
    simpl. now rewrite IH.
Qed.

End PowerLevelTheorems.

(* ================================================================== *)
(** ** Z-normalization *)
(* ================================================================== *)

Section ExactNormalization.

Import labeled_example.
Local Open Scope R_scope.












End ExactNormalization.



(* ================================================================== *)
(** * Further properties *)
(* ================================================================== *)

(* ================================================================== *)
(** ** tools.py: duplicates, distinct, single, paginate *)
(* ================================================================== *)

(** Keeping some of the items keeps their keys pairwise distinct. *)
Lemma kept_keys_NoDup (A B : Type) (key : A -> B) (keep : A -> bool)
      (items : list A) (Hnd : NoDup (map key items)) :
  NoDup (map key (filter keep items)).
Proof.
  induction items as [|x items IH]; simpl; [constructor|].
  simpl in Hnd. apply NoDup_cons_iff in Hnd. destruct Hnd as [Hx Hnd].
  destruct (keep x); simpl; [|now apply IH].
  apply NoDup_cons; [|now apply IH].
  rewrite in_map_iff. intros (y & Hy & Hin). apply Hx.
  apply filter_In in Hin. apply in_map_iff. exists y. tauto.
Qed.

(** [tools.duplicates] reports an item exactly when it occurs more than
    once in the sequence, and reports it once; it reports nothing exactly
    when the items of the sequence are pairwise distinct. *)
Theorem duplicates_reports_repeated_items
        (E : Type) (eqb : E -> E -> bool) (dec : forall x y : E, {x = y} + {x <> y})
        (sequence : list E) :
  (forall x y, eqb x y = true <-> x = y) ->
  (forall x, In x (tools.duplicates eqb sequence)
             <-> (1 < count_occ dec sequence x)%nat)
  /\ NoDup (tools.duplicates eqb sequence)
  /\ (tools.duplicates eqb sequence = [] <-> NoDup sequence).
Proof.
  intros Heq. split; [|split].
  - intros x. apply (In_duplicates E eqb Heq dec).
  - unfold tools.duplicates. apply kept_keys_NoDup.
    apply (NoDup_keys_fold E eqb Heq dec). constructor.
  - apply (duplicates_nil_iff E eqb Heq dec).
Qed.

Lemma duplicates_reports_repeated_items_witness :
  (forall x y, String.eqb x y = true <-> x = y)
  /\ tools.duplicates String.eqb ["a"; "b"; "a"; "c"; "b"; "a"]%string
     = ["a"; "b"]%string
  /\ NoDup (tools.duplicates String.eqb ["a"; "b"; "a"; "c"; "b"; "a"]%string).
Proof.
  split; [exact String.eqb_eq|]. split; [reflexivity|].
  exact (proj1 (proj2 (duplicates_reports_repeated_items
                         string String.eqb string_dec
                         ["a"; "b"; "a"; "c"; "b"; "a"]%string String.eqb_eq))).
Defined.

Section Distinct.

Variable E : Type.
Variable eqb : E -> E -> bool.
Hypothesis eqb_eq : forall x y, eqb x y = true <-> x = y.

Lemma keys_odict_set (V : Type) (x : E) (v : V) (d : list (E * V)) :
  tools.keys (tools.odict_set eqb x v d)
  = if existsb (eqb x) (tools.keys d) then tools.keys d else tools.keys d ++ [x].
Proof.
  unfold tools.keys. induction d as [|[k w] d IH]; simpl; [reflexivity|].
  destruct (eqb x k) eqn:Hxk; simpl; [reflexivity|].
  rewrite IH. destruct (existsb (eqb x) (map fst d)); reflexivity.
Qed.

Lemma existsb_eqb_In (x : E) (l : list E) : existsb (eqb x) l = true <-> In x l.
Proof.
  rewrite existsb_exists. split.
  - intros (y & Hy & Hxy). apply eqb_eq in Hxy. now subst.
  - intros Hx. exists x. split; [assumption | now apply eqb_eq].
Qed.

(** The keys after [fromkeys] went through [xs], starting from a dict with
    the keys [seen]. *)
Lemma keys_fold_odict_set (V : Type) (v : V) (xs : list E) : forall d : list (E * V),
  tools.keys (fold_left (fun d x => tools.odict_set eqb x v d) xs d)
  = tools.keys d ++ first_occurrences eqb (tools.keys d) xs.
Proof.
  induction xs as [|x xs IH]; intros d; simpl; [now rewrite app_nil_r|].
  rewrite IH, keys_odict_set.
  destruct (existsb (eqb x) (tools.keys d)); [reflexivity|].
  now rewrite <- app_assoc.
Qed.

Lemma distinct_first_occurrences (xs : list E) :
  tools.distinct eqb xs = first_occurrences eqb [] xs.
Proof.
  unfold tools.distinct, tools.fromkeys. now rewrite keys_fold_odict_set.
Qed.

Lemma first_occurrences_spec (xs : list E) : forall seen,
  subsequence (first_occurrences eqb seen xs) xs
  /\ NoDup (first_occurrences eqb seen xs)
  /\ (forall x, In x (first_occurrences eqb seen xs) <-> In x xs /\ ~ In x seen).
Proof.
  induction xs as [|x xs IH]; intros seen; simpl.
  - repeat split; try constructor; intros; tauto.
  - destruct (existsb (eqb x) seen) eqn:Hx.
    + apply existsb_eqb_In in Hx.
      destruct (IH seen) as (Hsub & Hnd & Hin).
      split; [now constructor|]. split; [assumption|].
      intros y. rewrite Hin. split; [tauto|].
      intros [[->|Hy] Hns]; [contradiction | tauto].
    + assert (Hns : ~ In x seen) by (rewrite <- existsb_eqb_In, Hx; discriminate).
      destruct (IH (seen ++ [x])) as (Hsub & Hnd & Hin).
      split; [now constructor|]. split.
      * constructor; [|assumption]. rewrite Hin, in_app_iff. simpl. tauto.
      * intros y. simpl. rewrite Hin, in_app_iff. simpl. split.
        -- intros [<-|[Hy Hn]]; tauto.
        -- intros [[<-|Hy] Hn]; [tauto|].
           destruct (eqb x y) eqn:Hxy; [apply eqb_eq in Hxy; tauto|].
           right. split; [assumption|]. intros [Hs|[Heq|[]]]; [tauto|].
           subst y. rewrite (proj2 (eqb_eq x x) eq_refl) in Hxy. discriminate.
Qed.


Lemma distinct_members (sequence : list E) :
  NoDup (tools.distinct eqb sequence)
  /\ forall x, In x (tools.distinct eqb sequence) <-> In x sequence.
Proof.
  rewrite distinct_first_occurrences.
  destruct (first_occurrences_spec sequence []) as (_ & Hnd & Hin).
  split; [assumption|]. intros x. rewrite Hin. simpl. tauto.
Qed.


End Distinct.


(** [tools.single] returns the element of a one-element sequence and
    nothing else: on the empty sequence it raises IndexError (the element is
    taken before the length is asserted), on two or more elements its
    assertion fails.  [tools.single_or_none] returns the element of a
    one-element sequence, None on the empty one, and fails its assertion on
    two or more; it agrees with [single] wherever [single] returns. *)
Theorem single_returns_the_only_element (E : Type) (sequence : list E) :
  (forall x, tools.single sequence = Returned x <-> sequence = [x])
  /\ (tools.single sequence = Failed (Exception IndexError) <-> sequence = [])
  /\ (tools.single sequence = Failed AssertionError
      <-> (2 <= List.length sequence)%nat)
  /\ (forall x, tools.single_or_none sequence = Returned (Some x) <-> sequence = [x])
  /\ (tools.single_or_none sequence = Returned None <-> sequence = [])
  /\ (tools.single_or_none sequence = Failed AssertionError
      <-> (2 <= List.length sequence)%nat)
  /\ (forall x, tools.single sequence = Returned x
                <-> tools.single_or_none sequence = Returned (Some x)).
Proof.
  unfold tools.single, tools.single_or_none.
  destruct sequence as [|a [|b rest]]; simpl; repeat split;
    intros; try discriminate; try lia; try congruence;
    try (inversion H; subst; reflexivity).
Qed.


Section SplitTheorems.

Context {Path : Type} `{PurePath Path} {G : Type} `{Generator G}.

Lemma slice_to_from (A : Type) (l : list A) (n : Z) :
  tools.slice_to l n ++ tools.slice_from l n = l.
Proof. unfold tools.slice_to, tools.slice_from. apply firstn_skipn. Qed.

Lemma subsequence_refl (A : Type) (l : list A) : subsequence l l.
Proof. induction l; now constructor. Qed.

Lemma subsequence_nil_l (A : Type) (l : list A) : subsequence [] l.
Proof. induction l; now constructor. Qed.

Lemma firstn_subsequence (A : Type) (l : list A) : forall n, subsequence (firstn n l) l.
Proof.
  induction l as [|x l IH]; intros [|n]; simpl; try constructor;
    auto using subsequence_nil_l.
Qed.

Lemma skipn_subsequence (A : Type) (l : list A) : forall n, subsequence (skipn n l) l.
Proof.
  induction l as [|x l IH]; intros [|n]; simpl; try constructor;
    auto using subsequence_refl.
Qed.

(** [overfit(n)] loses no example and invents none, for every integer [n]:
    the training list followed by the test list is the input, in order.
    With [0 <= n] the first [n] examples (all of them when there are fewer)
    are the training set; a negative [n] counts from the end, so the last
    [-n] examples are the test set, and when there are no more than [-n]
    examples the training set is empty. *)
Theorem overfit_cuts_the_list_in_two
        (training_example_count : Z) (examples : list (LabeledExample Path)) :
  let parts := overfit training_example_count examples in
  fst parts ++ snd parts = examples
  /\ subsequence (fst parts) examples
  /\ subsequence (snd parts) examples
  /\ (0 <= training_example_count ->
      List.length (fst parts)
      = Nat.min (Z.to_nat training_example_count) (List.length examples))
  /\ (training_example_count < 0 ->
      List.length (snd parts)
      = Nat.min (Z.to_nat (- training_example_count)) (List.length examples)).
Proof.
  unfold overfit. simpl. split; [apply slice_to_from|].
  split; [apply firstn_subsequence|]. split; [apply skipn_subsequence|].
  unfold tools.slice_to, tools.slice_from, tools.slice_index.
  split; intros Hn.
  - destruct (Z.ltb_spec training_example_count 0); [lia|].
    rewrite length_firstn. lia.
  - destruct (Z.ltb_spec training_example_count 0); [|lia].
    rewrite length_skipn. lia.
Qed.

Lemma Corpus_init_of_parts (examples tr te : list (LabeledExample Path)) :
  Permutation (tr ++ te) examples -> NoDup (ids examples) ->
  Corpus_init tr te
  = Ok {| training_examples := tr; test_examples := te; examples := tr ++ te |}.
Proof.
  intros Hperm Hnd. apply (proj1 (Corpus_init_cases tr te)).
  unfold ids in *. eapply Permutation_NoDup; [|exact Hnd].
  apply Permutation_sym, Permutation_map, Hperm.
Qed.

(** Every split strategy feeds [Corpus.__init__] lists it accepts: when
    the ids of the examples are pairwise distinct, the lists of
    [training_only], [test_only], [overfit(n)] for every [n],
    [by_directory(name)] for every [name], and of [randomly_grouped_by]
    whenever it returns, make a Corpus, and so does every other pair of
    lists that holds each example exactly once. *)
Theorem splits_make_a_Corpus (examples : list (LabeledExample Path)) :
  NoDup (ids examples) ->
  (forall parts : split Path,
      Permutation (fst parts ++ snd parts) examples ->
      Corpus_init (fst parts) (snd parts)
      = Ok {| training_examples := fst parts;
              test_examples := snd parts;
              corpus.examples := fst parts ++ snd parts |})
  /\ Corpus_init (fst (training_only examples)) (snd (training_only examples))
     = Ok {| training_examples := examples;
             test_examples := [];
             corpus.examples := examples ++ [] |}
  /\ Corpus_init (fst (test_only examples)) (snd (test_only examples))
     = Ok {| training_examples := [];
             test_examples := examples;
             corpus.examples := examples |}
  /\ (forall n, exists c,
         Corpus_init (fst (overfit n examples)) (snd (overfit n examples)) = Ok c
         /\ corpus.examples c = examples)
  /\ (forall test_directory_name, exists c,
         Corpus_init (fst (by_directory test_directory_name examples))
                     (snd (by_directory test_directory_name examples)) = Ok c
         /\ Permutation (corpus.examples c) examples)
  /\ (forall (K : Type) (KK : Key K) (key_from_example : LabeledExample Path -> K)
             training_share fuel (g : G) parts g',
         randomly_grouped_by key_from_example training_share fuel examples g
         = Some (Ok parts, g') ->
         Corpus_init (fst parts) (snd parts)
         = Ok {| training_examples := fst parts;
                 test_examples := snd parts;
                 corpus.examples := fst parts ++ snd parts |}).
Proof.
  intros Hnd.
  assert (Hparts : forall tr te,
             Permutation (tr ++ te) examples ->
             Corpus_init tr te
             = Ok {| training_examples := tr; test_examples := te;
                     corpus.examples := tr ++ te |})
    by (intros tr te Hp; now apply (Corpus_init_of_parts examples)).
  split; [intros [tr te] Hp; now apply Hparts|].
  split; [apply Hparts; simpl; now rewrite app_nil_r|].
  split; [apply (Hparts [] examples); apply Permutation_refl|].
  split; [|split].
  - intros n. eexists. split.
    + apply Hparts. unfold overfit. simpl. now rewrite slice_to_from.
    + simpl. apply slice_to_from.
  - intros test_directory_name.
    assert (Hperm : Permutation (fst (by_directory test_directory_name examples)
                                 ++ snd (by_directory test_directory_name examples))
                                examples).
    { pose proof (filter_is_partition _
                    (fun example : LabeledExample Path =>
                       String.eqb (name (audio_directory example)) test_directory_name)
                    examples) as (Hperm & _).
      simpl in Hperm. eapply Permutation_trans; [apply Permutation_app_comm|].
      exact Hperm. }
    eexists. split; [apply Hparts; exact Hperm | exact Hperm].
  - intros K KK key share fuel g parts g'. unfold randomly_grouped_by.
    destruct (py.int_of_float _) as [k|e]; [|discriminate].
    destruct (random.sample _ _ _ _) as [[[keys|e] g1]|]; try discriminate.
    intros Heq. injection Heq as <- <-. apply Hparts.
    apply (filter_is_partition _
             (fun example => existsb (key_eqb (key example)) keys)).
Qed.

End SplitTheorems.

(* ================================================================== *)
(** ** tools.py: group *)
(* ================================================================== *)

Section Group.

Variables E K : Type.
Variable eqb ltb : K -> K -> bool.
Variable key : E -> K.
Hypothesis eqb_eq : forall a b, eqb a b = true <-> a = b.

Lemma key_eqb_refl (a : K) : eqb a a = true.
Proof. now apply eqb_eq. Qed.

Lemma key_eqb_neq (a b : K) : eqb a b = false <-> a <> b.
Proof.
  destruct (eqb a b) eqn:Hab.
  - apply eqb_eq in Hab. split; [discriminate | contradiction].
  - split; [|reflexivity]. intros _ Heq. apply eqb_eq in Heq. congruence.
Qed.

(** *** [sorted] *)

Lemma insert_sorted_In (x y : E) (l : list E) :
  In y (tools.insert_sorted ltb key x l) <-> y = x \/ In y l.
Proof.
  induction l as [|z l IH]; simpl; [intuition|].
  destruct (ltb (key z) (key x)); simpl; rewrite ?IH; intuition.
Qed.

Lemma sorted_In (y : E) (l : list E) : In y (tools.sorted ltb key l) <-> In y l.
Proof.
  unfold tools.sorted. induction l as [|x l IH]; simpl; [tauto|].
  rewrite insert_sorted_In, IH. intuition.
Qed.

Lemma sorted_length (l : list E) :
  List.length (tools.sorted ltb key l) = List.length l.
Proof.
  unfold tools.sorted. induction l as [|x l IH]; simpl; [reflexivity|].
  rewrite <- IH. generalize (fold_right (tools.insert_sorted ltb key) [] l).
  intros s. induction s as [|z s IHs]; simpl; [reflexivity|].
  destruct (ltb (key z) (key x)); simpl; [now rewrite IHs | reflexivity].
Qed.

(** The sort is stable: among the items of one key the input order stays
    (this needs no more of [<] than that no key is below itself). *)
Lemma insert_sorted_stable (Hirr : forall a, ltb a a = false) (k : K) (x : E)
      (l : list E) :
  filter (fun e => eqb k (key e)) (tools.insert_sorted ltb key x l)
  = filter (fun e => eqb k (key e)) (x :: l).
Proof.
  induction l as [|z l IH]; [reflexivity|].
  simpl tools.insert_sorted. destruct (ltb (key z) (key x)) eqn:Hzx; [|reflexivity].
  simpl in *. rewrite IH.
  destruct (eqb k (key x)) eqn:Hx; [|reflexivity].
  destruct (eqb k (key z)) eqn:Hz; [|reflexivity].
  apply eqb_eq in Hx, Hz. rewrite <- Hx, <- Hz, Hirr in Hzx. discriminate.
Qed.

Lemma sorted_stable (Hirr : forall a, ltb a a = false) (k : K) (l : list E) :
  filter (fun e => eqb k (key e)) (tools.sorted ltb key l)
  = filter (fun e => eqb k (key e)) l.
Proof.
  unfold tools.sorted. induction l as [|x l IH]; [reflexivity|].
  simpl fold_right. rewrite insert_sorted_stable by assumption.
  simpl. now rewrite IH.
Qed.

Lemma key_le_trans (Hord : strict_total_order ltb) (x y z : E) :
  key_le ltb key x y -> key_le ltb key y z -> key_le ltb key x z.
Proof.
  destruct Hord as (Hirr & Htrans & Htotal). unfold key_le. intros Hxy Hyz.
  destruct (ltb (key z) (key x)) eqn:Hzx; [|reflexivity].
  destruct (Htotal (key x) (key y)) as [Heq|[Hlt|Hlt]].
  - rewrite <- Heq, Hzx in Hyz. discriminate.
  - rewrite (Htrans _ _ _ Hzx Hlt) in Hyz. discriminate.
  - rewrite Hlt in Hxy. discriminate.
Qed.

Lemma insert_sorted_Sorted (Hord : strict_total_order ltb) (x : E) (l : list E) :
  StronglySorted (key_le ltb key) l -> StronglySorted (key_le ltb key) (tools.insert_sorted ltb key x l).
Proof.
  pose proof Hord as (Hirr & Htrans & Htotal).
  induction 1 as [|z l Hl IH Hz]; simpl; [repeat constructor|].
  destruct (ltb (key z) (key x)) eqn:Hzx.
  - constructor; [assumption|]. apply Forall_forall. intros y Hy.
    apply insert_sorted_In in Hy. destruct Hy as [->|Hy].
    + unfold key_le. destruct (ltb (key x) (key z)) eqn:Hxz; [|reflexivity].
      rewrite <- (Hirr (key z)). symmetry. now apply (Htrans _ (key x)).
    + rewrite Forall_forall in Hz. now apply Hz.
  - constructor; [now constructor|]. constructor; [exact Hzx|].
    apply Forall_forall. intros y Hy. rewrite Forall_forall in Hz.
    apply (key_le_trans Hord x z y); [exact Hzx | now apply Hz].
Qed.

Lemma sorted_Sorted (Hord : strict_total_order ltb) (l : list E) :
  StronglySorted (key_le ltb key) (tools.sorted ltb key l).
Proof.
  unfold tools.sorted. induction l as [|x l IH]; simpl; [constructor|].
  now apply insert_sorted_Sorted.
Qed.

(** *** [groupby] *)

Lemma groupby_from_keys (k : K) (xs : list E) : forall tgtkey run,
  In k (tools.keys (tools.groupby_from eqb key tgtkey run xs))
  <-> k = tgtkey \/ exists e, In e xs /\ key e = k.
Proof.
  unfold tools.keys.
  induction xs as [|x xs IH]; intros tgtkey run; simpl.
  - split; [intros [<-|[]]; now left | intros [->|(e & [] & _)]; now left].
  - destruct (eqb tgtkey (key x)) eqn:Hx.
    + apply eqb_eq in Hx. rewrite IH. split.
      * intros [->|(e & He & Hk)]; [now left|]. right. exists e. auto.
      * intros [->|(e & [<-|He] & Hk)]; [now left | left; congruence |].
        right. now exists e.
    + simpl. rewrite IH. split.
      * intros [<-|[->|(e & He & Hk)]]; [now left | right; exists x; auto |].
        right. exists e. auto.
      * intros [->|(e & [<-|He] & Hk)]; [now left | right; left; congruence |].
        right. right. now exists e.
Qed.

Lemma groupby_keys (k : K) (xs : list E) :
  In k (tools.keys (tools.groupby eqb key xs)) <-> exists e, In e xs /\ key e = k.
Proof.
  destruct xs as [|x xs]; simpl.
  - split; [intros [] | intros (e & [] & _)].
  - rewrite groupby_from_keys. split.
    + intros [->|(e & He & Hk)]; [exists x; auto | exists e; auto].
    + intros (e & [<-|He] & Hk); [left; congruence | right; now exists e].
Qed.

Lemma filter_key_none (k : K) (xs : list E) :
  Forall (fun x => eqb k (key x) = false) xs ->
  filter (fun e => eqb k (key e)) xs = []
  /\ filter (fun e => negb (eqb k (key e))) xs = xs.
Proof.
  induction 1 as [|x xs Hx Hxs [IH1 IH2]]; simpl; [auto|].
  rewrite Hx. simpl. now rewrite IH1, IH2.
Qed.

(** On a list sorted by key, a run is all the items of its key. *)
Lemma groupby_from_sorted (Hord : strict_total_order ltb) (tgtkey : K)
      (xs : list E) : forall run,
  StronglySorted (key_le ltb key) xs ->
  Forall (fun x => ltb (key x) tgtkey = false) xs ->
  tools.groupby_from eqb key tgtkey run xs
  = (tgtkey, rev run ++ filter (fun e => eqb tgtkey (key e)) xs)
      :: tools.groupby eqb key (filter (fun e => negb (eqb tgtkey (key e))) xs).
Proof.
  pose proof Hord as (Hirr & Htrans & Htotal).
  induction xs as [|x xs IH]; intros run Hsorted Hge; simpl.
  - now rewrite app_nil_r.
  - inversion Hsorted as [|? ? Hxs Hx]; subst.
    inversion Hge as [|? ? Hgx Hgxs]; subst.
    destruct (eqb tgtkey (key x)) eqn:Htx; simpl.
    + rewrite IH by assumption. simpl. now rewrite <- app_assoc.
    + assert (Hlt : ltb tgtkey (key x) = true).
      { destruct (Htotal tgtkey (key x)) as [Heq|[Hlt|Hlt]]; [|assumption|congruence].
        apply eqb_eq in Heq. congruence. }
      assert (Hnone : Forall (fun y => eqb tgtkey (key y) = false) xs).
      { rewrite Forall_forall in *. intros y Hy. apply key_eqb_neq. intros Heq.
        specialize (Hx y Hy). unfold key_le in Hx. rewrite <- Heq in Hx. congruence. }
      destruct (filter_key_none tgtkey xs Hnone) as [-> ->].
      now rewrite app_nil_r.
Qed.

Lemma filter_Sorted (p : E -> bool) (xs : list E) :
  StronglySorted (key_le ltb key) xs -> StronglySorted (key_le ltb key) (filter p xs).
Proof.
  induction 1 as [|x xs Hxs IH Hx]; simpl; [constructor|].
  destruct (p x); [|assumption]. constructor; [assumption|].
  rewrite Forall_forall in *. intros y Hy. apply filter_In in Hy. now apply Hx.
Qed.

Lemma filter_other_key (k k' : K) (xs : list E) :
  k <> k' ->
  filter (fun e => eqb k (key e)) (filter (fun e => negb (eqb k' (key e))) xs)
  = filter (fun e => eqb k (key e)) xs.
Proof.
  intros Hk. induction xs as [|x xs IH]; simpl; [reflexivity|].
  destruct (eqb k' (key x)) eqn:Hx; simpl; rewrite IH; [|reflexivity].
  apply eqb_eq in Hx. subst k'.
  now rewrite (proj2 (key_eqb_neq k (key x)) Hk).
Qed.

(** [groupby] on a list sorted by key: the keys come out strictly
    ascending, and each with all the items of that key. *)
Lemma groupby_sorted (Hord : strict_total_order ltb) (n : nat) : forall xs : list E,
  (List.length xs <= n)%nat ->
  StronglySorted (key_le ltb key) xs ->
  StronglySorted (fun a b => ltb a b = true) (tools.keys (tools.groupby eqb key xs))
  /\ Forall (fun kv => snd kv = filter (fun e => eqb (fst kv) (key e)) xs)
            (tools.groupby eqb key xs).
Proof.
  pose proof Hord as (Hirr & Htrans & Htotal).
  induction n as [|n IH]; intros [|x xs] Hlen Hsorted.
  - simpl. split; constructor.
  - simpl in Hlen. lia.
  - simpl. split; constructor.
  - inversion Hsorted as [|? ? Hxs Hx]; subst. simpl tools.groupby.
    rewrite (groupby_from_sorted Hord); [|assumption|exact Hx].
    set (rest := filter (fun e => negb (eqb (key x) (key e))) xs).
    assert (Hrest_len : (List.length rest <= n)%nat).
    { pose proof (filter_length_le (fun e => negb (eqb (key x) (key e))) xs).
      unfold rest. simpl in Hlen. lia. }
    destruct (IH rest Hrest_len (filter_Sorted _ xs Hxs)) as [Hkeys Hvals].
    split.
    + simpl. constructor; [exact Hkeys|].
      apply Forall_forall. intros k Hk. apply groupby_keys in Hk.
      destruct Hk as (e & He & <-). apply filter_In in He. destruct He as [He Hne].
      rewrite Forall_forall in Hx. specialize (Hx e He). unfold key_le in Hx.
      destruct (Htotal (key x) (key e)) as [Heq|[Hlt|Hlt]]; [|assumption|congruence].
      apply eqb_eq in Heq. rewrite Heq in Hne. discriminate.
    + constructor.
      * simpl. now rewrite key_eqb_refl.
      * rewrite Forall_forall in *. intros [k vs] Hkv.
        pose proof (Hvals _ Hkv) as Hvs. simpl in Hvs. simpl. rewrite Hvs.
        assert (Hk : In k (tools.keys (tools.groupby eqb key rest)))
          by (apply in_map_iff; exists (k, vs); auto).
        apply groupby_keys in Hk. destruct Hk as (e & He & <-).
        apply filter_In in He. destruct He as [He Hne].
        assert (Hneq : key e <> key x).
        { intros Heq. rewrite Heq, key_eqb_refl in Hne. discriminate. }
        rewrite (proj2 (key_eqb_neq (key e) (key x)) Hneq).
        unfold rest. now apply filter_other_key.
Qed.

Lemma groupby_from_concat (xs : list E) : forall tgtkey run,
  List.concat (map snd (tools.groupby_from eqb key tgtkey run xs)) = rev run ++ xs.
Proof.
  induction xs as [|x xs IH]; intros tgtkey run; simpl.
  - reflexivity.
  - destruct (eqb tgtkey (key x)); simpl; rewrite IH; simpl.
    + now rewrite <- app_assoc.
    + reflexivity.
Qed.

(** The runs of [groupby], one after the other, are the input. *)
Lemma groupby_concat (xs : list E) :
  List.concat (map snd (tools.groupby eqb key xs)) = xs.
Proof. destruct xs as [|x xs]; [reflexivity|]. apply groupby_from_concat. Qed.

Lemma sorted_Permutation (l : list E) : Permutation (tools.sorted ltb key l) l.
Proof.
  unfold tools.sorted. induction l as [|x l IH]; simpl; [constructor|].
  apply Permutation_trans with (x :: fold_right (tools.insert_sorted ltb key) [] l);
    [|now constructor].
  generalize (fold_right (tools.insert_sorted ltb key) [] l). intros s.
  induction s as [|z s IHs]; simpl; [apply Permutation_refl|].
  destruct (ltb (key z) (key x)); [|apply Permutation_refl].
  apply Permutation_trans with (z :: x :: s); [now constructor | constructor].
Qed.

(** *** [OrderedDict] *)

Lemma keys_OrderedDict (V : Type) (pairs : list (K * V)) :
  tools.keys (tools.OrderedDict eqb pairs)
  = first_occurrences eqb [] (map fst pairs).
Proof.
  unfold tools.OrderedDict.
  assert (Hgen : forall d : list (K * V),
             tools.keys (fold_left (fun d kv => tools.odict_set eqb (fst kv) (snd kv) d)
                                   pairs d)
             = tools.keys d ++ first_occurrences eqb (tools.keys d) (map fst pairs)).
  { induction pairs as [|[k v] pairs IH]; intros d; simpl; [now rewrite app_nil_r|].
    rewrite IH, (keys_odict_set K eqb).
    destruct (existsb (eqb k) (tools.keys d)); [reflexivity|].
    now rewrite <- app_assoc. }
  apply (Hgen []).
Qed.

Lemma odict_set_new (V : Type) (k : K) (v : V) (d : list (K * V)) :
  ~ In k (tools.keys d) -> tools.odict_set eqb k v d = d ++ [(k, v)].
Proof.
  unfold tools.keys. induction d as [|[k' v'] d IH]; simpl; intros Hk; [reflexivity|].
  rewrite (proj2 (key_eqb_neq k k')) by (intros ->; tauto).
  rewrite IH by tauto. reflexivity.
Qed.

Lemma OrderedDict_NoDup (V : Type) (pairs : list (K * V)) :
  NoDup (tools.keys pairs) -> tools.OrderedDict eqb pairs = pairs.
Proof.
  unfold tools.OrderedDict.
  assert (Hgen : forall d : list (K * V),
             NoDup (tools.keys (d ++ pairs)) ->
             fold_left (fun d kv => tools.odict_set eqb (fst kv) (snd kv) d) pairs d
             = d ++ pairs).
  { induction pairs as [|[k v] pairs IH]; intros d Hnd; simpl; [now rewrite app_nil_r|].
    unfold tools.keys in Hnd. rewrite map_app in Hnd. simpl in Hnd.
    rewrite odict_set_new.
    - rewrite IH; [now rewrite <- app_assoc|].
      unfold tools.keys. rewrite <- app_assoc, map_app. exact Hnd.
    - apply NoDup_remove_2 in Hnd. intros Hin. apply Hnd. apply in_or_app. now left. }
  intros Hnd. apply (Hgen [] Hnd).
Qed.

Lemma StronglySorted_lt_NoDup (Hirr : forall a, ltb a a = false) (l : list K) :
  StronglySorted (fun a b => ltb a b = true) l -> NoDup l.
Proof.
  induction 1 as [|a l Hl IH Ha]; constructor; [|assumption].
  intros Hin. rewrite Forall_forall in Ha. specialize (Ha a Hin).
  rewrite Hirr in Ha. discriminate.
Qed.

(** The keys of [group], whatever [<] is: each key of an item once. *)
Lemma group_keys (l : list E) :
  NoDup (tools.keys (tools.group eqb ltb key l))
  /\ forall k, In k (tools.keys (tools.group eqb ltb key l))
               <-> exists e, In e l /\ key e = k.
Proof.
  unfold tools.group. rewrite keys_OrderedDict.
  destruct (first_occurrences_spec K eqb eqb_eq
              (map fst (tools.groupby eqb key (tools.sorted ltb key l))) [])
    as (_ & Hnd & Hin).
  split; [exact Hnd|]. intros k. rewrite Hin.
  fold (tools.keys (tools.groupby eqb key (tools.sorted ltb key l))).
  rewrite groupby_keys. split.
  - intros [(e & He & Hk) _]. exists e. split; [now apply sorted_In | assumption].
  - intros (e & He & Hk). split; [|intros []].
    exists e. split; [now apply sorted_In | assumption].
Qed.

(** [tools.group] is a dict with one entry for every key that an item of
    the input has and no other entry; when [<] is a strict total order on
    the keys, the entries come in strictly ascending order of their keys and
    the value of a key is the tuple of the items of that key in the order
    they have in the input, so that no item is lost or repeated. *)
Theorem group_collects_items_by_key (l : list E) :
  let d := tools.group eqb ltb key l in
  NoDup (tools.keys d)
  /\ (forall k, In k (tools.keys d) <-> exists e, In e l /\ key e = k)
  /\ (strict_total_order ltb ->
      StronglySorted (fun a b => ltb a b = true) (tools.keys d)
      /\ (forall k values,
            In (k, values) d -> values = filter (fun e => eqb k (key e)) l)
      /\ (forall e, In e l -> In (key e, filter (fun x => eqb (key e) (key x)) l) d)
      /\ Permutation (List.concat (map snd d)) l).
Proof.
  destruct (group_keys l) as [Hnd Hin]. simpl.
  split; [exact Hnd|]. split; [exact Hin|].
  intros Hord. pose proof Hord as (Hirr & _).
  destruct (groupby_sorted Hord _ (tools.sorted ltb key l) (le_n _)
                           (sorted_Sorted Hord l)) as [Hkeys Hvals].
  assert (Hgroup : tools.group eqb ltb key l
                   = tools.groupby eqb key (tools.sorted ltb key l)).
  { unfold tools.group. apply OrderedDict_NoDup.
    now apply (StronglySorted_lt_NoDup Hirr). }
  assert (Hvalues : forall k values,
             In (k, values) (tools.group eqb ltb key l) ->
             values = filter (fun e => eqb k (key e)) l).
  { intros k values Hkv. rewrite Hgroup in Hkv. rewrite Forall_forall in Hvals.
    pose proof (Hvals _ Hkv) as Hvs. simpl in Hvs. rewrite Hvs.
    now apply sorted_stable. }
  split; [now rewrite Hgroup|]. split; [exact Hvalues|]. split.
  - intros e He.
    assert (Hk : In (key e) (tools.keys (tools.group eqb ltb key l)))
      by (apply Hin; now exists e).
    apply in_map_iff in Hk. destruct Hk as ([k values] & Hk & Hkv).
    simpl in Hk. subst k. now rewrite <- (Hvalues _ _ Hkv).
  - rewrite Hgroup, groupby_concat. apply sorted_Permutation.
Qed.

End Group.

Lemma group_collects_items_by_key_witness :
  (forall a b, Nat.eqb a b = true <-> a = b)
  /\ tools.group Nat.eqb Nat.ltb String.length ["bb"; "a"; "cc"; "d"; "b"]%string
     = [(1%nat, ["a"; "d"; "b"]%string); (2%nat, ["bb"; "cc"]%string)]
  /\ NoDup (tools.keys (tools.group Nat.eqb Nat.ltb String.length
                                    ["bb"; "a"; "cc"; "d"; "b"]%string)).
Proof.
  split; [exact Nat.eqb_eq|]. split; [reflexivity|].
  exact (proj1 (group_collects_items_by_key string nat Nat.eqb Nat.ltb String.length
                  Nat.eqb_eq ["bb"; "a"; "cc"; "d"; "b"]%string)).
Defined.

(* ================================================================== *)
(** ** corpus.py: the random splits *)
(* ================================================================== *)

Section RandomSplitTheorems.

Context {Path : Type} `{PurePath Path} {G : Type} `{Generator G}.

(** What a returned split of [randomly_grouped_by] is made of. *)
Lemma randomly_grouped_by_keys (Hrange : in_range)
      (K : Type) (KK : Key K)
      (Heqb : forall a b : K, key_eqb a b = true <-> a = b)
      (key_from_example : LabeledExample Path -> K)
      training_share fuel (examples : list (LabeledExample Path)) (g : G) parts g' :
  randomly_grouped_by key_from_example training_share fuel examples g
  = Some (Ok parts, g') ->
  exists training_keys,
    NoDup training_keys
    /\ (forall k, In k training_keys ->
                  exists e, In e examples /\ key_from_example e = k)
    /\ py.int_of_float
         (training_share
          * py.float_of_int
              (Z.of_nat (List.length
                           (tools.keys (tools.group key_eqb key_ltb
                                                    key_from_example examples)))))%float
       = Ok (Z.of_nat (List.length training_keys))
    /\ parts
       = (filter (fun e => existsb (key_eqb (key_from_example e)) training_keys)
                 examples,
          filter (fun e => negb (existsb (key_eqb (key_from_example e)) training_keys))
                 examples).
Proof.
  unfold randomly_grouped_by.
  set (directories := tools.keys (tools.group key_eqb key_ltb key_from_example examples)).
  destruct (group_keys _ _ key_eqb key_ltb key_from_example Heqb examples)
    as [Hnd Hin]. fold directories in Hnd, Hin.
  destruct (py.int_of_float _) as [k|e] eqn:Hk; [|discriminate].
  destruct (random.sample fuel directories k (seed 42)) as [[[keys|e] g1]|] eqn:Hs;
    try discriminate.
  intros Heq. injection Heq as <- <-.
  destruct (sample_spec Hrange directories k fuel (seed 42)) as [Hrefused Hdrawn].
  assert (Hkr : 0 <= k <= Z.of_nat (List.length directories)).
  { destruct (Z_le_dec 0 k) as [H0k|H0k];
      [destruct (Z_le_dec k (Z.of_nat (List.length directories))) as [Hkl|Hkl]|];
      [lia| |];
      (rewrite Hrefused in Hs by lia; discriminate). }
  destruct (Hdrawn Hkr _ _ Hs) as (idx & batch & Hbatch & Hlen & Hidx & Hfrom).
  injection Hbatch as <-.
  exists keys. split; [|split; [|split]].
  - exact (drawn_from_NoDup directories idx keys Hnd Hidx Hfrom).
  - intros x Hx. apply Hin.
    destruct (drawn_from_In directories idx keys x Hfrom Hx) as (j & _ & Hj).
    eapply nth_error_In. exact Hj.
  - rewrite Hlen. reflexivity.
  - reflexivity.
Qed.

(** [randomly_grouped_by] never tears a group apart.  Whenever it returns
    (with a generator that draws below its bound and keys whose [==] is
    equality), there is a list of pairwise distinct keys of the examples,
    int(training_share * number of keys) of them, such that the training
    list is made of the examples with one of these keys and the test list
    of all the others; so two examples with the same key are on the same
    side. *)
Theorem randomly_grouped_by_keeps_groups_together
        (K : Type) (KK : Key K) (key_from_example : LabeledExample Path -> K)
        training_share fuel (examples : list (LabeledExample Path)) (g : G) parts g' :
  in_range ->
  (forall a b : K, key_eqb a b = true <-> a = b) ->
  randomly_grouped_by key_from_example training_share fuel examples g
  = Some (Ok parts, g') ->
  (exists training_keys,
      NoDup training_keys
      /\ (forall k, In k training_keys ->
                    exists e, In e examples /\ key_from_example e = k)
      /\ py.int_of_float
           (training_share
            * py.float_of_int
                (Z.of_nat (List.length
                             (tools.distinct key_eqb
                                             (map key_from_example examples)))))%float
         = Ok (Z.of_nat (List.length training_keys))
      /\ (forall e, In e (fst parts)
                    <-> In e examples /\ In (key_from_example e) training_keys)
      /\ (forall e, In e (snd parts)
                    <-> In e examples /\ ~ In (key_from_example e) training_keys))
  /\ (forall e1 e2,
        In e1 examples -> In e2 examples ->
        key_from_example e1 = key_from_example e2 ->
        (In e1 (fst parts) <-> In e2 (fst parts))
        /\ (In e1 (snd parts) <-> In e2 (snd parts))).
Proof.
  intros Hrange Heqb Hrun.
  destruct (randomly_grouped_by_keys Hrange K KK Heqb _ _ _ _ _ _ _ Hrun)
    as (keys & Hnd & Hkeys & Hk & ->).
  simpl.
  assert (Htr : forall e,
             In e (filter (fun e => existsb (key_eqb (key_from_example e)) keys)
                          examples)
             <-> In e examples /\ In (key_from_example e) keys).
  { intros e. rewrite filter_In, (existsb_eqb_In K key_eqb Heqb). tauto. }
  assert (Hte : forall e,
             In e (filter (fun e => negb (existsb (key_eqb (key_from_example e)) keys))
                          examples)
             <-> In e examples /\ ~ In (key_from_example e) keys).
  { intros e. rewrite filter_In, negb_true_iff, <- not_true_iff_false,
      (existsb_eqb_In K key_eqb Heqb). tauto. }
  split.
  - exists keys. split; [exact Hnd|]. split; [exact Hkeys|].
    split; [|split; [exact Htr | exact Hte]].
    rewrite <- Hk. do 4 f_equal.
    apply Permutation_length, NoDup_Permutation.
    + apply (distinct_members K key_eqb Heqb).
    + apply (group_keys _ _ key_eqb key_ltb key_from_example Heqb examples).
    + intros k.
      rewrite (proj2 (group_keys _ _ key_eqb key_ltb key_from_example Heqb examples)).
      rewrite (proj2 (distinct_members K key_eqb Heqb _)).
      rewrite in_map_iff. split; intros (e & He1 & He2); exists e; tauto.
  - intros e1 e2 He1 He2 Hsame. rewrite !Htr, !Hte, Hsame. tauto.
Qed.

(** [randomly] on examples with pairwise distinct ids takes exactly
    int(training_share * n) of the n examples for training and the other
    n - int(training_share * n) for testing. *)
Theorem randomly_takes_the_training_share
        training_share fuel (examples : list (LabeledExample Path)) (g : G) parts g' :
  in_range ->
  NoDup (ids examples) ->
  randomly training_share fuel examples g = Some (Ok parts, g') ->
  exists k,
    py.int_of_float
      (training_share * py.float_of_int (Z.of_nat (List.length examples)))%float
    = Ok k
    /\ 0 <= k <= Z.of_nat (List.length examples)
    /\ Z.of_nat (List.length (fst parts)) = k
    /\ Z.of_nat (List.length (snd parts)) = Z.of_nat (List.length examples) - k.
Proof.
  intros Hrange Hids Hrun. unfold randomly in Hrun.
  destruct (randomly_grouped_by_keys Hrange string string_Key String.eqb_eq _ _ _ _ _ _ _ Hrun)
    as (keys & Hnd & Hkeys & Hk & ->).
  destruct (group_keys _ _ String.eqb String.ltb (@id Path) String.eqb_eq examples)
    as [Hgnd Hgin].
  assert (Hcount : List.length (tools.keys (tools.group String.eqb String.ltb
                                                        (@id Path) examples))
                   = List.length examples).
  { rewrite <- (length_map (@id Path) examples).
    apply Permutation_length, NoDup_Permutation; [exact Hgnd | exact Hids |].
    intros k. rewrite Hgin. unfold ids. rewrite in_map_iff.
    split; intros (e & He1 & He2); exists e; tauto. }
  simpl in Hk. rewrite Hcount in Hk.
  exists (Z.of_nat (List.length keys)). split; [exact Hk|].
  assert (Htr : List.length
                  (filter (fun e => existsb (String.eqb (id e)) keys) examples)
                = List.length keys).
  { rewrite <- (length_map (@id Path)).
    apply Permutation_length, NoDup_Permutation;
      [now apply kept_keys_NoDup | exact Hnd |].
    intros k. rewrite in_map_iff. split.
    - intros (e & <- & He). apply filter_In in He.
      apply (existsb_eqb_In string String.eqb String.eqb_eq). tauto.
    - intros Hk'. destruct (Hkeys k Hk') as (e & He & <-). exists e.
      split; [reflexivity|]. apply filter_In. split; [assumption|].
      now apply (existsb_eqb_In string String.eqb String.eqb_eq). }
  pose proof (Permutation_length
                (filter_complement _
                   (fun e : LabeledExample Path => existsb (String.eqb (id e)) keys)
                   examples)) as Hall.
  rewrite length_app in Hall. simpl. simpl in Htr, Hall. lia.
Qed.

End RandomSplitTheorems.

(* ================================================================== *)
(** ** corpus.py: preview_batch and CombinedCorpus *)
(* ================================================================== *)

Section PreviewTheorems.

Context {Path : Type} `{PurePath Path}.

Lemma firstn_min_length (A : Type) (n : nat) (l : list A) :
  firstn (Nat.min n (List.length l)) l = firstn n l.
Proof.
  destruct (le_lt_dec n (List.length l)) as [Hle|Hgt].
  - now rewrite Nat.min_l.
  - rewrite Nat.min_r by lia. rewrite !firstn_all2; [reflexivity | lia | lia].
Qed.

(** [preview_batch] is always a prefix of the training spectrograms
    followed by the test spectrograms.  With a batch size that is not
    negative it holds batch_size of them, or all when there are fewer, so
    it is taken from the training examples alone as long as these suffice;
    a negative batch size leaves out the last -batch_size instead.  With
    no training example and a positive batch size it is the first page of
    [test_batches]. *)
Theorem preview_batch_is_a_prefix
        (corpus : Corpus Path) (spectrogram_cache_directory : Path) (batch_size : Z) :
  let self :=
    LabeledSpectrogramBatchGenerator_init corpus spectrogram_cache_directory
                                          batch_size in
  let total := List.length (training_examples corpus ++ test_examples corpus) in
  (exists rest,
      labeled_training_spectrograms self ++ labeled_test_spectrograms self
      = preview_batch self ++ rest)
  /\ (0 <= batch_size ->
      List.length (preview_batch self) = Nat.min (Z.to_nat batch_size) total)
  /\ (batch_size < 0 ->
      List.length (preview_batch self)
      = (total - Nat.min (Z.to_nat (- batch_size)) total)%nat)
  /\ (0 <= batch_size <= Z.of_nat (List.length (training_examples corpus)) ->
      preview_batch self
      = firstn (Z.to_nat batch_size) (labeled_training_spectrograms self))
  /\ (training_examples corpus = [] -> test_examples corpus <> [] ->
      0 < batch_size ->
      exists later, test_batches self = Ok (preview_batch self :: later)).
Proof.
  intros self total. unfold preview_batch, tools.slice_to. simpl.
  set (wrap := fun example : LabeledExample Path =>
                 {| example := example;
                    spectrogram_cache_directory := spectrogram_cache_directory |}).
  set (tr := map wrap (training_examples corpus)).
  set (te := map wrap (test_examples corpus)).
  assert (Htotal : List.length (tr ++ te) = total)
    by (unfold tr, te, total; now rewrite !length_app, !length_map).
  assert (Htr : List.length tr = List.length (training_examples corpus))
    by (unfold tr; now rewrite length_map).
  rewrite Htotal.
  split; [|split; [|split; [|split]]].
  - exists (skipn (tools.slice_index total batch_size) (tr ++ te)).
    symmetry. apply firstn_skipn.
  - intros Hb. rewrite length_firstn, Htotal. unfold tools.slice_index.
    destruct (Z.ltb_spec batch_size 0); lia.
  - intros Hb. rewrite length_firstn, Htotal. unfold tools.slice_index.
    destruct (Z.ltb_spec batch_size 0); lia.
  - intros Hb. rewrite slice_index_in_range by (rewrite <- Htotal, length_app; lia).
    rewrite firstn_app.
    replace (Z.to_nat batch_size - List.length tr)%nat with 0%nat by lia.
    simpl. apply app_nil_r.
  - intros Hnone Hsome Hb. unfold test_batches. simpl. fold wrap te.
    rewrite (paginate_pages _ te batch_size Hb).
    assert (Hte : (0 < List.length te)%nat).
    { unfold te. rewrite length_map.
      destruct (test_examples corpus); [contradiction | simpl; lia]. }
    pose proof (page_count_bounds (List.length te) batch_size Hb) as [Hall _].
    destruct (page_count (List.length te) batch_size) as [|n] eqn:Hn; [lia|].
    simpl. eexists. f_equal. f_equal.
    assert (Htr0 : tr = []) by (unfold tr; now rewrite Hnone).
    rewrite Htr0. simpl. rewrite Htr0 in Htotal. simpl in Htotal. rewrite <- Htotal.
    unfold tools.slice_index. destruct (Z.ltb_spec batch_size 0); [lia|].
    replace (Z.to_nat (Z.min batch_size (Z.of_nat (List.length te))))
      with (Nat.min (Z.to_nat batch_size) (List.length te)) by lia.
    symmetry. apply firstn_min_length.
Qed.

Lemma doubled_ids (l : list (LabeledExample Path)) :
  l <> [] -> ~ NoDup (ids (l ++ l ++ [])).
Proof.
  destruct l as [|x l]; [contradiction|]. intros _ Hnd.
  unfold ids in Hnd. simpl in Hnd. inversion Hnd as [|? ? Hx _]; subst.
  apply Hx. rewrite map_app. apply in_or_app. right. now left.
Qed.

(** [CombinedCorpus] at its edges.  Of no corpus at all it is the empty
    corpus; of one constructed corpus it is that corpus; of a corpus that
    holds an example together with itself it is always refused (with the
    message of the first failing check); and combining is associative: a
    combined corpus combined with a third gives the lists, or the refusal,
    of the three combined at once. *)
Theorem CombinedCorpus_init_edge_cases :
  CombinedCorpus_init (@nil (Corpus Path))
  = Ok {| corpora := [];
          as_corpus := {| training_examples := [];
                          test_examples := [];
                          examples := [] |} |}
  /\ (forall (training test : list (LabeledExample Path)) (c : Corpus Path),
         Corpus_init training test = Ok c ->
         CombinedCorpus_init [c] = Ok {| corpora := [c]; as_corpus := c |})
  /\ (forall c : Corpus Path,
         training_examples c <> [] ->
         CombinedCorpus_init [c; c]
         = Raise (ValueError "Duplicate ids in training examples: "
                    (tools.duplicates String.eqb
                       (ids (training_examples c ++ training_examples c)))))
  /\ (forall c : Corpus Path,
         training_examples c = [] -> test_examples c <> [] ->
         CombinedCorpus_init [c; c]
         = Raise (ValueError "Duplicate ids in test examples: "
                    (tools.duplicates String.eqb
                       (ids (test_examples c ++ test_examples c)))))
  /\ (forall (a b c : Corpus Path) ab,
         CombinedCorpus_init [a; b] = Ok ab ->
         fmap as_corpus (CombinedCorpus_init [as_corpus ab; c])
         = fmap as_corpus (CombinedCorpus_init [a; b; c])).
Proof.
  split; [reflexivity|]. split; [|split; [|split]].
  - intros training test c Hc.
    destruct (Corpus_init_Ok_NoDup training test c Hc) as [-> Hnd].
    unfold CombinedCorpus_init. simpl. rewrite !app_nil_r.
    rewrite (proj1 (Corpus_init_cases training test) Hnd). reflexivity.
  - intros c Hc. unfold CombinedCorpus_init. simpl.
    destruct (Corpus_init_cases (training_examples c ++ training_examples c ++ [])
                                (test_examples c ++ test_examples c ++ []))
      as (_ & Htr & _).
    rewrite Htr by (now apply doubled_ids). simpl. now rewrite app_nil_r.
  - intros c Htr Hte. unfold CombinedCorpus_init. simpl. rewrite Htr. simpl.
    destruct (Corpus_init_cases [] (test_examples c ++ test_examples c ++ []))
      as (_ & _ & Htest & _).
    rewrite Htest; [simpl; now rewrite app_nil_r | constructor |].
    now apply doubled_ids.
  - intros a b c ab Hab. unfold CombinedCorpus_init in Hab. simpl in Hab.
    destruct (Corpus_init (training_examples a ++ training_examples b ++ [])
                          (test_examples a ++ test_examples b ++ []))
      as [base|e] eqn:Hbase; [|discriminate].
    simpl in Hab. injection Hab as <-.
    destruct (Corpus_init_Ok _ _ _ Hbase) as [Htr Hte].
    unfold CombinedCorpus_init. simpl. rewrite Htr, Hte.
    rewrite !app_nil_r, <- !app_assoc.
    unfold fmap.
    destruct (Corpus_init (training_examples a ++ training_examples b
                                               ++ training_examples c)
                          (test_examples a ++ test_examples b ++ test_examples c));
      reflexivity.
Qed.

End PreviewTheorems.

(* ================================================================== *)
(** ** The further theorems at concrete inputs *)
(* ================================================================== *)

Open Scope string_scope.

Ltac distinct_strings :=
  repeat (constructor; [simpl; intuition discriminate|]); constructor.

Lemma splits_make_a_Corpus_witness :
  NoDup (ids (map (fixtures.labeled "d") ["a"; "b"; "c"]))
  /\ exists c,
      Corpus_init (fst (overfit (-1) (map (fixtures.labeled "d") ["a"; "b"; "c"])))
                  (snd (overfit (-1) (map (fixtures.labeled "d") ["a"; "b"; "c"])))
      = Ok c
      /\ examples c = map (fixtures.labeled "d") ["a"; "b"; "c"].
Proof.
  assert (Hnd : NoDup (ids (map (fixtures.labeled "d") ["a"; "b"; "c"])))
    by (simpl; distinct_strings).
  split; [exact Hnd|].
  exact (proj1 (proj2 (proj2 (proj2
           (@splits_make_a_Corpus string _ nat fixtures.counting
              (map (fixtures.labeled "d") ["a"; "b"; "c"]) Hnd)))) (-1)).
Defined.

Lemma randomly_grouped_by_keeps_groups_together_witness :
  @in_range nat fixtures.counting
  /\ (forall a b : string, key_eqb a b = true <-> a = b)
  /\ randomly_grouped_by_directory
       0x1p-1%float 10
       [fixtures.labeled "d1" "a"; fixtures.labeled "d1" "b";
        fixtures.labeled "d2" "c"; fixtures.labeled "d3" "d"] 0%nat
     = Some (Ok ([fixtures.labeled "d1" "a"; fixtures.labeled "d1" "b"],
                 [fixtures.labeled "d2" "c"; fixtures.labeled "d3" "d"]), 43%nat)
  /\ (In (fixtures.labeled "d1" "a")
         [fixtures.labeled "d1" "a"; fixtures.labeled "d1" "b"]
      <-> In (fixtures.labeled "d1" "b")
             [fixtures.labeled "d1" "a"; fixtures.labeled "d1" "b"]).
Proof.
  split; [exact counting_in_range|]. split; [exact String.eqb_eq|].
  assert (Hrun : randomly_grouped_by_directory
                   0x1p-1%float 10
                   [fixtures.labeled "d1" "a"; fixtures.labeled "d1" "b";
                    fixtures.labeled "d2" "c"; fixtures.labeled "d3" "d"] 0%nat
                 = Some (Ok ([fixtures.labeled "d1" "a"; fixtures.labeled "d1" "b"],
                             [fixtures.labeled "d2" "c"; fixtures.labeled "d3" "d"]),
                         43%nat))
    by (vm_compute; reflexivity).
  split; [exact Hrun|].
  exact (proj1 (proj2 (randomly_grouped_by_keeps_groups_together
                         string path_Key audio_directory _ _ _ _ _ _
                         counting_in_range String.eqb_eq Hrun)
                      (fixtures.labeled "d1" "a") (fixtures.labeled "d1" "b")
                      (or_introl eq_refl) (or_intror (or_introl eq_refl)) eq_refl)).
Defined.

Lemma randomly_takes_the_training_share_witness :
  @in_range nat fixtures.counting
  /\ NoDup (ids (map (fixtures.labeled "d")
                     ["a"; "b"; "c"; "d"; "e"; "f"; "g"; "h"; "i"; "j"]))
  /\ exists parts g' k,
      randomly training_share_default 10
               (map (fixtures.labeled "d")
                    ["a"; "b"; "c"; "d"; "e"; "f"; "g"; "h"; "i"; "j"]) 0%nat
      = Some (Ok parts, g')
      /\ py.int_of_float (training_share_default * py.float_of_int 10)%float = Ok k
      /\ Z.of_nat (List.length (fst parts)) = k.
Proof.
  assert (Hnd : NoDup (ids (map (fixtures.labeled "d")
                                ["a"; "b"; "c"; "d"; "e"; "f"; "g"; "h"; "i"; "j"])))
    by (simpl; distinct_strings).
  split; [exact counting_in_range|]. split; [exact Hnd|].
  eexists. eexists.
  assert (Hrun : randomly training_share_default 10
                   (map (fixtures.labeled "d")
                        ["a"; "b"; "c"; "d"; "e"; "f"; "g"; "h"; "i"; "j"]) 0%nat
                 = Some (Ok (map (fixtures.labeled "d")
                                 ["a"; "b"; "c"; "d"; "e"; "g"; "h"; "i"; "j"],
                             map (fixtures.labeled "d") ["f"]), 51%nat))
    by (vm_compute; reflexivity).
  destruct (randomly_takes_the_training_share _ _ _ _ _ _
              counting_in_range Hnd Hrun) as (k & Hk & _ & Hlen & _).
  exists k. split; [exact Hrun|]. split; [exact Hk | exact Hlen].
Defined.

Close Scope string_scope.

(* ================================================================== *)
(** ** corpus.py: loading any manifest *)
(* ================================================================== *)

Section LoadTheorems.

Context {Path : Type} `{PurePath Path}.

(** A missing label is written as the empty string is. *)
Lemma manifest_row_reloaded (phase : Phase) (e : LabeledExample Path) :
  manifest_row phase e = manifest_row phase (reloaded e).
Proof. unfold manifest_row, reloaded, label_text. simpl. now destruct (label e). Qed.

Lemma writable_storable (e : LabeledExample Path) : writable e -> storable (reloaded e).
Proof.
  intros (Hid & Hpath & Hlabel & Hp). exists (label_text e). simpl. auto.
Qed.

Lemma ids_reloaded (l : list (LabeledExample Path)) : ids (map reloaded l) = ids l.
Proof. unfold ids. rewrite map_map. reflexivity. Qed.

(** The rows of a manifest, read back. *)
Lemma load_manifest_rows : forall (rows : list (LabeledExample Path * Phase)) (rest : text),
  Forall (fun ep => writable (fst ep)) rows ->
  csv.for_text load_row csv.parse_reset false (io.read (manifest rows ++ rest))
  = (ys <- csv.for_text load_row csv.parse_reset false (io.read rest) ;;
     Ok (map (fun ep => (reloaded (fst ep), snd ep)) rows ++ ys)).
Proof.
  induction rows as [|[e phase] rows IH]; intros rest Hrows.
  - simpl. destruct (csv.for_text _ _ _ _); reflexivity.
  - inversion Hrows as [|? ? He Hrows']; subst. simpl in He.
    pose proof (writable_storable e He) as (l & Hl & Hid & Hpath & Hlabel & Hp).
    unfold manifest. simpl List.concat. fold (manifest rows).
    rewrite <- app_assoc, manifest_row_reloaded.
    unfold manifest_row at 1. rewrite Hl.
    rewrite read_written_row by assumption.
    rewrite (load_row_written (reloaded e) l phase Hl Hp). simpl bind at 1.
    rewrite IH by assumption.
    destruct (csv.for_text _ _ _ _); reflexivity.
Qed.

Lemma of_phase_reloaded (phase : Phase) (rows : list (LabeledExample Path * Phase)) :
  map fst (filter (fun ep => Phase_eqb (snd ep) phase)
                  (map (fun ep => (reloaded (fst ep), snd ep)) rows))
  = map reloaded (of_phase phase rows).
Proof.
  unfold of_phase. induction rows as [|[e p] rows IH]; simpl; [reflexivity|].
  destruct (Phase_eqb p phase); simpl; now rewrite IH.
Qed.

Lemma load_manifest (rows : list (LabeledExample Path * Phase)) :
  Forall (fun ep => writable (fst ep)) rows ->
  load (manifest rows)
  = Corpus_init (map reloaded (of_phase training rows))
                (map reloaded (of_phase test rows)).
Proof.
  intros Hrows. unfold load. rewrite reader_comprehension_text.
  rewrite <- (app_nil_r (manifest rows)), load_manifest_rows by assumption.
  simpl bind. rewrite app_nil_r, !of_phase_reloaded. reflexivity.
Qed.

(** [Corpus.load] on a file that holds what a csv writer writes for rows
    (id, path, label, phase), whatever the order of the phases in the
    file, provided the ids, the path texts and the labels hold no carriage
    return and no character 0 and have at most 131072 characters, and
    [Path] gives each path back from its text: the training examples are
    the rows marked training and the test examples the rows marked test,
    each in file order, with a label that was None read as the empty
    string.  The examples then go through the checks of [Corpus.__init__]:
    the load succeeds exactly when no id occurs in two rows, and a
    repeated id is refused with the ValueError of the first failing
    check. *)
Theorem load_reads_rows_of_both_phases (rows : list (LabeledExample Path * Phase)) :
  Forall (fun ep => writable (fst ep)) rows ->
  let training_rows := map reloaded (of_phase training rows) in
  let test_rows := map reloaded (of_phase test rows) in
  load (manifest rows) = Corpus_init training_rows test_rows
  /\ (NoDup (ids (map fst rows)) ->
      load (manifest rows)
      = Ok {| training_examples := training_rows;
              test_examples := test_rows;
              examples := training_rows ++ test_rows |})
  /\ (~ NoDup (ids (map fst rows)) ->
      exists message named,
        load (manifest rows) = Raise (ValueError message named) /\ named <> []).
Proof.
  intros Hrows training_rows test_rows.
  assert (Hload := load_manifest rows Hrows).
  fold training_rows test_rows in Hload.
  assert (Hperm : Permutation (ids (training_rows ++ test_rows)) (ids (map fst rows))).
  { unfold training_rows, test_rows. rewrite <- map_app, ids_reloaded.
    unfold ids. apply Permutation_map. unfold of_phase.
    rewrite <- map_app. apply Permutation_map.
    eapply Permutation_trans; [|apply (filter_complement _
                                 (fun ep : LabeledExample Path * Phase =>
                                    Phase_eqb (snd ep) training) rows)].
    apply Permutation_app_head.
    rewrite (filter_ext (fun ep : LabeledExample Path * Phase => Phase_eqb (snd ep) test)
                        (fun ep => negb (Phase_eqb (snd ep) training)));
      [apply Permutation_refl|].
    intros [e []]; reflexivity. }
  destruct (Corpus_init_cases training_rows test_rows) as (Hok & Htr & Hte & Hall).
  split; [exact Hload|]. split.
  - intros Hnd. rewrite Hload. apply Hok.
    eapply Permutation_NoDup; [apply Permutation_sym; exact Hperm | exact Hnd].
  - intros Hdup. rewrite Hload.
    assert (Hdup' : ~ NoDup (ids (training_rows ++ test_rows))).
    { intros Hnd. apply Hdup. eapply Permutation_NoDup; [exact Hperm | exact Hnd]. }
    assert (Hnamed : forall l : list string,
               ~ NoDup l -> tools.duplicates String.eqb l <> []).
    { intros l Hl Hnil. apply Hl.
      now apply (duplicates_nil_iff _ String.eqb String.eqb_eq string_dec). }
    destruct (ListDec.NoDup_dec string_dec (ids training_rows)) as [Hntr|Hntr];
      [|rewrite (Htr Hntr); eexists; eexists; split; [reflexivity | now apply Hnamed]].
    destruct (ListDec.NoDup_dec string_dec (ids test_rows)) as [Hnte|Hnte];
      [|rewrite (Hte Hntr Hnte); eexists; eexists; split;
        [reflexivity | now apply Hnamed]].
    rewrite (Hall Hntr Hnte Hdup'). eexists; eexists; split;
      [reflexivity | now apply Hnamed].
Qed.

(** Saving a Corpus and loading it back, with or without labels, on a
    platform whose line separator is the line feed, provided the ids, the
    path texts and the labels that are present hold no carriage return and
    no character 0 and have at most 131072 characters, and [Path] gives
    each path back from its text: every example comes back with its id and
    path, in the order it had, and with its label, except that a missing
    label comes back as the empty string; what [str] shows of an example
    is the same before and after, and a Corpus whose examples all have a
    label comes back as it was. *)
Theorem save_load_keeps_all_but_missing_labels
        (tr te : list (LabeledExample Path)) (self : Corpus Path) :
  Corpus_init tr te = Ok self ->
  Forall writable (tr ++ te) ->
  load (save io.linesep_posix self)
  = Ok {| training_examples := map reloaded tr;
          test_examples := map reloaded te;
          examples := map reloaded tr ++ map reloaded te |}
  /\ (forall e : LabeledExample Path,
         id (reloaded e) = id e
         /\ audio_file (reloaded e) = audio_file e
         /\ labeled_example.__str__ (id (reloaded e)) (label (reloaded e))
            = labeled_example.__str__ (id e) (label e)
         /\ (label e <> None -> reloaded e = e))
  /\ (Forall (fun e => label e <> None) (tr ++ te) ->
      load (save io.linesep_posix self) = Ok self).
Proof.
  intros Hinit Hwritable.
  destruct (Corpus_init_Ok_NoDup tr te self Hinit) as [-> Hnd].
  assert (Hsame : forall e : LabeledExample Path, label e <> None -> reloaded e = e).
  { intros [i p [l|]] Hl; [reflexivity | contradiction]. }
  assert (Hload : load (save io.linesep_posix
                              {| training_examples := tr; test_examples := te;
                                 examples := tr ++ te |})
                  = Ok {| training_examples := map reloaded tr;
                          test_examples := map reloaded te;
                          examples := map reloaded tr ++ map reloaded te |}).
  { rewrite save_rows. simpl.
    replace (List.concat (map (manifest_row training) tr)
               ++ List.concat (map (manifest_row test) te))
      with (manifest (map (fun e => (e, training)) tr ++ map (fun e => (e, test)) te))
      by (unfold manifest; now rewrite map_app, concat_app, !map_map).
    rewrite load_manifest.
    - unfold of_phase. destruct (filter_phase tr te) as [-> ->].
      apply (proj1 (Corpus_init_cases _ _)).
      now rewrite <- map_app, ids_reloaded.
    - rewrite Forall_app in *. destruct Hwritable as [Htr Hte].
      split; rewrite Forall_map; simpl; assumption. }
  split; [exact Hload|]. split.
  - intros e. repeat split; [|exact (Hsame e)].
    destruct e as [i p [l|]]; reflexivity.
  - intros Hlabels. rewrite Hload. rewrite Forall_app in Hlabels.
    destruct Hlabels as [Hltr Hlte].
    assert (Hmap : forall l : list (LabeledExample Path),
               Forall (fun e => label e <> None) l -> map reloaded l = l).
    { induction 1 as [|e l He Hl IH]; simpl; [reflexivity|].
      now rewrite IH, (Hsame e He). }
    now rewrite (Hmap tr Hltr), (Hmap te Hlte).
Qed.

End LoadTheorems.

Open Scope string_scope.

Lemma load_reads_rows_of_both_phases_witness :
  let a := {| id := "a"; audio_file := "x/a.wav"; label := None |} in
  let b := {| id := "b"; audio_file := "x/b.wav"; label := Some "say, hi" |} in
  let c := {| id := "c"; audio_file := "y/c.wav"; label := Some "yes" |} in
  Forall (fun ep => writable (fst ep)) [(a, test); (b, training); (c, test)]
  /\ load (manifest [(a, test); (b, training); (c, test)])
     = Corpus_init [reloaded b] [reloaded a; reloaded c].
Proof.
  intros a b c.
  assert (Hrows : Forall (fun ep => writable (fst ep))
                         [(a, test); (b, training); (c, test)]).
  { repeat constructor; simpl; unfold csv.field_limit; lia. }
  split; [exact Hrows|].
  exact (proj1 (load_reads_rows_of_both_phases _ Hrows)).
Defined.

Lemma save_load_keeps_all_but_missing_labels_witness :
  let a := {| id := "a"; audio_file := "train/a.wav"; label := None |} in
  let b := {| id := "b"; audio_file := "test/b.wav"; label := Some "hello" |} in
  let self := {| training_examples := [a]; test_examples := [b]; examples := [a; b] |} in
  Forall writable [a; b]
  /\ load (save io.linesep_posix self)
     = Ok {| training_examples := [reloaded a]; test_examples := [reloaded b];
             examples := [reloaded a; reloaded b] |}.
Proof.
  intros a b self.
  assert (Hw : Forall writable ([a] ++ [b])).
  { repeat constructor; simpl; unfold csv.field_limit; lia. }
  split; [exact Hw|].
  exact (proj1 (save_load_keeps_all_but_missing_labels [a] [b] self eq_refl Hw)).
Defined.

Close Scope string_scope.

(* ================================================================== *)
(** ** corpus.py: loading a file that is no manifest *)
(* ================================================================== *)

Section WrittenRows.

Import csv.

Lemma written_nil_iff (body : text) : written body = [] <-> body = [].
Proof.
  split; [|intros ->; reflexivity].
  unfold written. rewrite snd_join_append_data.
  destruct (existsb special body) eqn:Hsp; [discriminate|].
  destruct (join_append_data_plain body Hsp) as [-> _].
  simpl. now rewrite app_nil_r.
Qed.

Lemma join_fields_more (row : list string) : forall (rec : text) (n : nat),
  join_fields rec (S n) (map Str row)
  = rec ++ flat_map (fun s => delimiter :: written (list_ascii_of_string s)) row.
Proof.
  induction row as [|s row IH]; intros rec n; simpl; [now rewrite app_nil_r|].
  rewrite IH. unfold join_append, written.
  destruct (join_append_data (list_ascii_of_string s)) as [copied quoted].
  cbn [fst snd]. rewrite <- app_assoc. reflexivity.
Qed.

Lemma join_fields_joined (row : list string) :
  join_fields [] 0 (map Str row) = joined row.
Proof.
  destruct row as [|s row]; [reflexivity|].
  simpl. rewrite join_fields_more. unfold join_append, written.
  destruct (join_append_data (list_ascii_of_string s)) as [copied quoted].
  reflexivity.
Qed.

(** What [writerow] writes for a row of strings. *)
Lemma writerow_joined (row : list string) :
  writerow (map Str row)
  = (match row with
     | [EmptyString] => [quotechar; quotechar]
     | _ => joined row
     end) ++ [CR; LF].
Proof.
  unfold writerow. rewrite join_fields_joined, length_map. f_equal.
  destruct row as [|s [|s' row]]; [reflexivity| |].
  - simpl. rewrite app_nil_r.
    destruct (written (list_ascii_of_string s)) as [|c w] eqn:Hw.
    + apply (proj1 (written_nil_iff _)) in Hw.
      destruct s; [reflexivity | simpl in Hw; discriminate].
    + destruct s; [simpl in Hw; discriminate | reflexivity].
  - simpl.
    destruct (written (list_ascii_of_string s) ++ delimiter :: _) eqn:Hj;
      [|destruct s; reflexivity].
    symmetry in Hj. now apply app_cons_not_nil in Hj.
Qed.

Variable B : Type.
Variable f : list string -> result B.

(** The last field of a record and the end of its line. *)
Lemma written_last_field body fs st mid rest :
  field_start st ->
  (st = START_RECORD -> body <> []) ->
  Forall (fun c => Ascii.eqb c NUL = false) body ->
  Z.of_nat (characters body) <= field_limit ->
  for_text f {| fields := fs; field := []; state := st |} mid
           (written body ++ LF :: rest)
  = (y <- f (fs ++ [string_of_list_ascii body]) ;;
     ys <- for_text f parse_reset false rest ;;
     Ok (y :: ys)).
Proof.
  intros Hst Hfirst Hbody Hlen. unfold written. rewrite snd_join_append_data.
  destruct (existsb special body) eqn:Hsp.
  - simpl app. rewrite <- app_assoc. simpl app.
    rewrite (for_text_step _ _ _ _ _ quotechar _ eq_refl eq_refl (start_quote fs st Hst)).
    rewrite quoted_body by (simpl; assumption). simpl app.
    rewrite (for_text_step _ _ _ _ _ quotechar _ eq_refl eq_refl (in_quoted_quote fs body)).
    rewrite for_text_LF. reflexivity.
  - destruct (join_append_data_plain body Hsp) as [-> Hplain].
    rewrite app_nil_r. simpl app.
    destruct body as [|c body].
    + destruct Hst as [->| ->]; [now contradiction Hfirst|].
      simpl app. rewrite for_text_LF. reflexivity.
    + inversion Hplain as [|? ? Hc Hplain']; subst.
      destruct (special_false c Hc) as (_ & H0 & _ & _ & Hlf).
      simpl app.
      rewrite (for_text_step _ _ _ _ _ _ _ H0 Hlf (start_plain fs st c Hst Hc)).
      rewrite plain_body by (simpl in *; assumption || lia).
      rewrite for_text_LF, in_field_LF. reflexivity.
Qed.

(** The fields of a record from one of them on, and the end of the line. *)
Lemma written_fields (row : list string) : forall (s : string) fs st mid rest,
  field_start st ->
  (st = START_RECORD -> s <> EmptyString \/ row <> []) ->
  Forall storable_text (s :: row) ->
  for_text f {| fields := fs; field := []; state := st |} mid
           (written (list_ascii_of_string s)
              ++ flat_map (fun s => delimiter :: written (list_ascii_of_string s)) row
              ++ LF :: rest)
  = (y <- f (fs ++ s :: row) ;;
     ys <- for_text f parse_reset false rest ;;
     Ok (y :: ys)).
Proof.
  induction row as [|s' row IH]; intros s fs st mid rest Hst Hfirst Hrow;
    inversion Hrow as [|? ? Hs Hrow']; subst;
    destruct (storable_text_parts s Hs) as (Hs0 & Hsr & Hsl).
  - simpl app. rewrite written_last_field; try assumption.
    + now rewrite string_of_list_ascii_of_string.
    + intros Hrec. destruct (Hfirst Hrec) as [Hne|Hne]; [|contradiction].
      destruct s; [contradiction | discriminate].
  - cbn [flat_map app]. rewrite <- ?app_assoc.
    rewrite written_field by assumption.
    rewrite string_of_list_ascii_of_string.
    rewrite IH; [|now right | discriminate | assumption].
    now rewrite <- app_assoc.
Qed.

Lemma joined_no_CR (row : list string) :
  Forall storable_text row ->
  Forall (fun c => Ascii.eqb c CR = false) (joined row).
Proof.
  assert (Hw : forall s, storable_text s ->
                         Forall (fun c => Ascii.eqb c CR = false)
                                (written (list_ascii_of_string s))).
  { intros s Hs. destruct (storable_text_parts s Hs) as (_ & Hr & _).
    now apply written_Forall. }
  intros Hrow. destruct row as [|s row]; [constructor|].
  inversion Hrow as [|? ? Hs Hrow']; subst. simpl.
  apply Forall_app. split; [now apply Hw|].
  induction Hrow' as [|s' row Hs' Hrow' IH]; simpl; [constructor|].
  constructor; [reflexivity|]. apply Forall_app. split; [now apply Hw|].
  apply IH. now constructor.
Qed.

(** One written row read back: the loop body gets the strings that were
    handed to the writer. *)
Lemma read_written_fields (row : list string) (rest : text) :
  Forall storable_text row ->
  for_text f parse_reset false (io.read (writerow (map Str row) ++ rest))
  = (y <- f row ;;
     ys <- for_text f parse_reset false (io.read rest) ;;
     Ok (y :: ys)).
Proof.
  intros Hrow. rewrite writerow_joined, <- app_assoc.
  destruct row as [|s row].
  - simpl app. rewrite read_CRLF. rewrite for_text_LF. reflexivity.
  - assert (Hempty : s = EmptyString /\ row = [] \/ (s <> EmptyString \/ row <> [])).
    { destruct s; [|right; left; discriminate].
      destruct row; [now left | right; right; discriminate]. }
    destruct Hempty as [[-> ->]|Hne].
    + rewrite read_app_no_CR by (repeat constructor). simpl app at 2.
      rewrite read_CRLF.
      simpl app. unfold parse_reset at 1.
      rewrite (for_text_step _ _ _ _ _ quotechar _ eq_refl eq_refl
                 (start_quote [] START_RECORD (or_introl eq_refl))).
      rewrite (for_text_step _ _ _ _ _ quotechar _ eq_refl eq_refl (in_quoted_quote [] [])).
      rewrite for_text_LF. reflexivity.
    + assert (Hread : forall t,
                 t = joined (s :: row) ->
                 for_text f parse_reset false (io.read (t ++ [CR; LF] ++ rest))
                 = (y <- f (s :: row) ;;
                    ys <- for_text f parse_reset false (io.read rest) ;;
                    Ok (y :: ys))).
      { intros t ->.
        rewrite read_app_no_CR by (now apply joined_no_CR). simpl app at 2.
        rewrite read_CRLF.
        unfold joined. rewrite <- app_assoc. unfold parse_reset at 1.
        rewrite written_fields;
          [reflexivity | now left | intros _; exact Hne | exact Hrow]. }
      apply Hread.
      destruct s; [|reflexivity]. destruct row; [|reflexivity].
      destruct Hne as [Hne|Hne]; contradiction.
Qed.

(** [[f(row) for row in csv.reader(file)]] on a file written by a csv
    writer is [[f(row) for row in rows]]. *)
Lemma reader_written_rows (rows : list (list string)) :
  Forall (Forall storable_text) rows ->
  reader_comprehension f (written_rows rows) = traverse f rows.
Proof.
  rewrite reader_comprehension_text. unfold written_rows.
  induction 1 as [|row rows Hrow Hrows IH]; [reflexivity|].
  simpl List.concat. rewrite read_written_fields by assumption.
  simpl traverse. now rewrite IH.
Qed.

End WrittenRows.

Section LoadErrors.

Context {Path : Type} `{PurePath Path}.

Lemma traverse_app_fails (A B : Type) (f : A -> result B) (good : list A)
      (bad : A) (rest : list A) (e : exn) :
  Forall (fun x => exists y, f x = Ok y) good ->
  f bad = Raise e ->
  traverse f (good ++ bad :: rest) = Raise e.
Proof.
  intros Hgood Hbad. induction Hgood as [|x good (y & Hy) Hgood IH]; simpl.
  - now rewrite Hbad.
  - now rewrite Hy, IH.
Qed.

(** [Corpus.load] on a file that holds what a csv writer writes for rows
    of strings without carriage return and character 0 and of at most
    131072 characters goes through the rows in order and only then builds
    the Corpus, so the first row it cannot take decides the exception,
    before any id is compared: a row of fewer than four fields (an empty
    row too) is the ValueError "not enough values to unpack (expected 4,
    got N)" with N the number of its fields, a row of more than four
    fields is the ValueError "too many values to unpack (expected 4)", and
    a row of four fields whose fourth is no name of a Phase is the
    KeyError of that field.  An empty file is loaded as the empty
    Corpus. *)
Theorem load_fails_at_the_first_bad_row (rows : list (list string)) :
  Forall (Forall storable_text) rows ->
  load (written_rows rows)
  = (examples <- traverse (load_row (Path := Path)) rows ;;
     Corpus_init
       (map fst (filter (fun ep => Phase_eqb (snd ep) training) examples))
       (map fst (filter (fun ep => Phase_eqb (snd ep) test) examples)))
  /\ (forall good bad rest,
         rows = good ++ bad :: rest ->
         Forall (fun row => exists ep, load_row (Path := Path) row = Ok ep) good ->
         (List.length bad <> 4%nat ->
          load (written_rows rows)
          = @Raise (Corpus Path)
                   (ValueError
                      (match List.length bad with
                       | 0%nat => "not enough values to unpack (expected 4, got 0)"
                       | 1%nat => "not enough values to unpack (expected 4, got 1)"
                       | 2%nat => "not enough values to unpack (expected 4, got 2)"
                       | 3%nat => "not enough values to unpack (expected 4, got 3)"
                       | _ => "too many values to unpack (expected 4)"
                       end%string) []))
         /\ (forall id audio_file_path label phase,
                bad = [id; audio_file_path; label; phase] ->
                phase <> "training"%string -> phase <> "test"%string ->
                load (written_rows rows) = @Raise (Corpus Path) (KeyError phase)))
  /\ (rows = [] ->
      load (written_rows rows)
      = Ok {| training_examples := []; test_examples := [];
              examples := @nil (LabeledExample Path) |}).
Proof.
  intros Hrows.
  assert (Hload : load (written_rows rows)
                  = (examples <- traverse (load_row (Path := Path)) rows ;;
                     Corpus_init
                       (map fst (filter (fun ep => Phase_eqb (snd ep) training) examples))
                       (map fst (filter (fun ep => Phase_eqb (snd ep) test) examples)))).
  { unfold load. now rewrite reader_written_rows. }
  split; [exact Hload|]. split.
  - intros good bad rest -> Hgood. split.
    + intros Hlen.
      rewrite Hload.
      destruct bad as [|a [|b [|c [|d [|x bad]]]]]; simpl List.length in *;
        [| | | |now contradiction Hlen|];
        erewrite traverse_app_fails; try exact Hgood; reflexivity.
    + intros i p l phase -> Htr Hte.
      assert (Hbad : load_row (Path := Path) [i; p; l; phase] = Raise (KeyError phase)).
      { unfold load_row, Phase_getitem.
        rewrite (proj2 (String.eqb_neq phase "training") Htr).
        rewrite (proj2 (String.eqb_neq phase "test") Hte). reflexivity. }
      rewrite Hload, (traverse_app_fails _ _ _ good _ rest _ Hgood Hbad).
      reflexivity.
  - intros ->. reflexivity.
Qed.

End LoadErrors.

Open Scope string_scope.

Lemma load_fails_at_the_first_bad_row_witness :
  Forall (Forall storable_text)
         [["a"; "x/a.wav"; "hello"; "training"]; ["a"; "x/a.wav"; "validation"];
          ["c"; "x/c.wav"; ""; "dev"]]
  /\ load (written_rows
              [["a"; "x/a.wav"; "hello"; "training"]; ["a"; "x/a.wav"; "validation"];
               ["c"; "x/c.wav"; ""; "dev"]])
     = @Raise (Corpus string)
              (ValueError "not enough values to unpack (expected 4, got 3)" []).
Proof.
  assert (Hrows : Forall (Forall storable_text)
                         [["a"; "x/a.wav"; "hello"; "training"];
                          ["a"; "x/a.wav"; "validation"];
                          ["c"; "x/c.wav"; ""; "dev"]]).
  { repeat constructor; simpl; unfold csv.field_limit; lia. }
  split; [exact Hrows|].
  refine (proj1 (proj1 (proj2 (load_fails_at_the_first_bad_row _ Hrows))
                   [["a"; "x/a.wav"; "hello"; "training"]]
                   ["a"; "x/a.wav"; "validation"]
                   [["c"; "x/c.wav"; ""; "dev"]] eq_refl _) _).
  - constructor; [|constructor]. eexists. reflexivity.
  - simpl. discriminate.
Defined.

Close Scope string_scope.

(* ================================================================== *)
(** ** labeled_example.py: power levels and the spectrogram types *)
(* ================================================================== *)

(** A rounded value with the sign bit clear has it clear. *)
Lemma binary_round_aux_sign_clear (prec emax : Z) (m : Z) (e : Z) (l : location) :
  sign_clear (binary_round_aux prec emax false m e l).
Proof.
  unfold binary_round_aux.
  destruct (shr_fexp prec emax m e l) as [mrs' e'].
  destruct (shr_fexp prec emax _ e' loc_Exact) as [mrs'' e''].
  destruct (shr_m mrs''); simpl; auto.
  destruct (Z.leb e'' (emax - prec)); reflexivity.
Qed.

(** In every binary floating-point format the square of a value, as
    IEEE 754 multiplies, has its sign bit clear, whatever the value. *)
Lemma SFmul_self_sign_clear (prec emax : Z) (a : spec_float) :
  sign_clear (SFmul prec emax a a).
Proof.
  destruct a as [s|s| |s m e]; simpl;
    [now destruct s | now destruct s | exact I |].
  replace (xorb s s) with false by (now destruct s).
  apply binary_round_aux_sign_clear.
Qed.

Lemma sign_clear_not_negative (x : spec_float) :
  sign_clear x -> SFltb x (S754_zero false) = false.
Proof. destruct x as [s|s| |s m e]; simpl; intros Hs; subst; reflexivity. Qed.

Lemma SFldexp_sign_clear (prec emax : Z) (x : spec_float) (e : Z) :
  sign_clear x -> sign_clear (SFldexp prec emax x e).
Proof.
  destruct x as [s|s| |s m ex]; simpl; auto. intros ->.
  unfold binary_round.
  destruct (shl_align m (ex + e) _) as [mz ez].
  apply binary_round_aux_sign_clear.
Qed.

Lemma of_uint63_sign_clear (n : PrimInt63.int) : sign_clear (Prim2SF (of_uint63 n)).
Proof.
  rewrite FloatAxioms.of_uint63_spec.
  pose proof (Uint63.to_Z_bounded n) as [Hn _].
  destruct (Uint63.to_Z n) as [|p|p]; [reflexivity | | lia].
  simpl. unfold binary_round.
  destruct (shl_align p 0 _) as [mz ez].
  apply binary_round_aux_sign_clear.
Qed.

(** The conversion of a [float32] to a Python [float] keeps a clear sign
    bit, so a value that is not below zero stays so. *)
Lemma float_of_float32_not_negative (x : spec_float) :
  sign_clear x -> (labeled_example.float_of_float32 x <? 0)%float = false.
Proof.
  intros Hx. rewrite FloatAxioms.ltb_spec. change (Prim2SF 0) with (S754_zero false).
  apply sign_clear_not_negative.
  destruct x as [s|s| |s m e]; simpl in Hx; subst; simpl; try reflexivity.
  rewrite Z_ldexp_spec. apply SFldexp_sign_clear, of_uint63_sign_clear.
Qed.

Lemma float_leb_ltb_eqb (x y : float) :
  (x <=? y)%float = ((x <? y) || (x =? y))%float.
Proof.
  rewrite FloatAxioms.leb_spec, FloatAxioms.ltb_spec, FloatAxioms.eqb_spec.
  unfold SFleb, SFltb, SFeqb.
  destruct (SFcompare (Prim2SF x) (Prim2SF y)) as [[| |]|]; reflexivity.
Qed.

Section PowerLevelOfSquares.

Import labeled_example.

Variable log10 : float -> float.

(** On every power value that is not below zero, a NaN included, the
    scalar function returns: the [int] floor where the level is clamped,
    and the level as a float elsewhere. *)
Lemma power_to_decibel_number (x : float) :
  (x <? 0)%float = false ->
  (power_to_decibel log10 min_decibel_default x = Ok (py.Int (-150))
   /\ level log10 x = floor
   /\ ((x =? 0)%float = true
       \/ (py.float_of_int 10 * log10 x <? floor)%float = true))
  \/ (power_to_decibel log10 min_decibel_default x = Ok (py.Float (level log10 x))
      /\ (x =? 0)%float = false
      /\ (py.float_of_int 10 * log10 x <? floor)%float = false).
Proof.
  intros Hx. unfold power_to_decibel, math_log10, level, float_lt.
  destruct (x =? 0)%float eqn:H0; [left; auto|].
  rewrite float_leb_ltb_eqb, Hx, H0. simpl. fold floor.
  destruct (_ <? floor)%float; [left | right]; auto.
Qed.

Lemma power_to_decibel_returns (x : float) :
  (x <? 0)%float = false ->
  exists v, power_to_decibel log10 min_decibel_default x = Ok v
            /\ py.to_float v = level log10 x
            /\ py.to_int v = py.int_of_float (level log10 x).
Proof.
  intros Hx.
  destruct (power_to_decibel_number x Hx) as [(-> & Hl & _)|(-> & _)].
  - exists (py.Int (-150)). rewrite Hl. repeat split.
  - eexists. repeat split.
Qed.

Lemma traverse_power_to_decibel (a : list float) :
  Forall (fun x => (x <? 0)%float = false) a ->
  exists outputs,
    traverse (power_to_decibel log10 min_decibel_default) a = Ok outputs
    /\ map py.to_float outputs = map (level log10) a
    /\ traverse (fun v => z <- py.to_int v ;; int64 z) outputs
       = traverse (fun x => z <- py.int_of_float (level log10 x) ;; int64 z) a.
Proof.
  induction 1 as [|x a Hx Ha IH]; simpl.
  - now exists [].
  - destruct (power_to_decibel_returns x Hx) as (v & -> & Hv & Hz).
    destruct IH as (outputs & -> & Houts & Hints).
    exists (v :: outputs). simpl. now rewrite Hv, Houts, Hz, Hints.
Qed.

(** The conversion of the levels to integers fails with no other
    exception than those of [int] and of the integer type. *)
Lemma traverse_int64 (a : list float) (e : exn) :
  traverse (fun x => z <- py.int_of_float (level log10 x) ;; int64 z) a = Raise e ->
  e = OverflowError \/ e = ValueError "cannot convert float NaN to integer" [].
Proof.
  induction a as [|x a IH]; simpl; [discriminate|].
  assert (Hx : forall e', (z <- py.int_of_float (level log10 x) ;; int64 z) = Raise e' ->
                          e' = OverflowError
                          \/ e' = ValueError "cannot convert float NaN to integer" []).
  { intros e'. unfold py.int_of_float, int64.
    destruct (Prim2SF (level log10 x)) as [s|s| |s m ex]; simpl;
      try (destruct (_ && _)); intros Heq; inversion Heq; auto. }
  destruct (z <- py.int_of_float (level log10 x) ;; int64 z) as [z|e'] eqn:Hz.
  - simpl. destruct (traverse _ a) as [zs|e'']; [discriminate|].
    simpl. intros Heq. injection Heq as <-. now apply IH.
  - simpl. intros Heq. injection Heq as <-. now apply Hx.
Qed.

(** What the function returns on an array without a value below zero, by
    its first element. *)
Lemma power_level_by_first_element (first : float) (rest : list float) :
  Forall (fun x => (x <? 0)%float = false) (first :: rest) ->
  ((first =? 0)%float = false ->
   (py.float_of_int 10 * log10 first <? floor)%float = false ->
   _power_level_from_power_spectrogram log10 (first :: rest)
   = Ok (float64_array (map (level log10) (first :: rest))))
  /\ ((first =? 0)%float = true
      \/ (py.float_of_int 10 * log10 first <? floor)%float = true ->
      _power_level_from_power_spectrogram log10 (first :: rest)
      = (ints <- traverse (fun x => z <- py.int_of_float (level log10 x) ;; int64 z)
                          (first :: rest) ;;
         Ok (int64_array ints))).
Proof.
  intros Hall.
  destruct (traverse_power_to_decibel _ Hall) as (outputs & Htr & Houts & Hints).
  inversion Hall as [|? ? Hfirst _]; subst.
  unfold _power_level_from_power_spectrogram, vectorize. rewrite Htr. cbv beta iota.
  destruct (power_to_decibel_number first Hfirst)
    as [(-> & _ & Hclamped)|(-> & Hzero & Hlevel)]; simpl bind.
  - split.
    + intros Hz Hl. destruct Hclamped; congruence.
    + intros _. now rewrite Hints.
  - split.
    + intros _ _. now rewrite Houts.
    + intros [Hz|Hl]; congruence.
Qed.

(** C5.  The power-level function does not give the levels the claim
    states when the first power value is clamped.  On a power value that is
    not below zero the scalar function returns the level, but the floor as
    the [int] -150.  On an array without a value below zero whose first
    element is not clamped the result is the array of the levels, as the
    claim says; when the first element is clamped (it is zero, or its level
    is below the floor), [numpy.vectorize] takes the integer type of that
    first result for the whole array, and the result is the array of the
    levels cut to integers, or the exception of that conversion: never the
    levels.  On [0.0, 4.0], the squares of the float32 amplitudes 0 and 2,
    with the C library's [log10 4], the result is the integer array
    [-150, 6] where the level of 4 is 6.0206. *)
Theorem power_level_cut_to_integers_after_clamped_first (spectrogram : list float) :
  (forall x,
      (x <? 0)%float = false ->
      exists v, power_to_decibel log10 min_decibel_default x = Ok v
                /\ py.to_float v = level log10 x)
  /\ (forall first rest,
         spectrogram = first :: rest ->
         Forall (fun x => (x <? 0)%float = false) spectrogram ->
         (first =? 0)%float = false ->
         (py.float_of_int 10 * log10 first <? floor)%float = false ->
         _power_level_from_power_spectrogram log10 spectrogram
         = Ok (float64_array (map (level log10) spectrogram)))
  /\ (forall first rest,
         spectrogram = first :: rest ->
         Forall (fun x => (x <? 0)%float = false) spectrogram ->
         (first =? 0)%float = true
         \/ (py.float_of_int 10 * log10 first <? floor)%float = true ->
         _power_level_from_power_spectrogram log10 spectrogram
         = (ints <- traverse
                      (fun x => z <- py.int_of_float (level log10 x) ;; int64 z)
                      spectrogram ;;
            Ok (int64_array ints))
         /\ _power_level_from_power_spectrogram log10 spectrogram
            <> Ok (float64_array (map (level log10) spectrogram)))
  /\ (log10 4 = 0x1.34413509f79ffp-1%float ->
      let amplitudes := [S754_zero false; S754_finite false 8388608 (-22)] in
      map float_of_float32 (map (fun a => SFmul 24 128 a a) amplitudes)
      = [0%float; 4%float]
      /\ _power_level_from_power_spectrogram log10 [0%float; 4%float]
         = Ok (int64_array [-150; 6])
      /\ map (level log10) [0%float; 4%float]
         = [(-150)%float; 0x1.8151824c7587fp+2%float]).
Proof.
  split; [|split; [|split]].
  - intros x Hx. destruct (power_to_decibel_returns x Hx) as (v & Hv & Hf & _).
    now exists v.
  - intros first rest -> Hall.
    exact (proj1 (power_level_by_first_element first rest Hall)).
  - intros first rest -> Hall Hclamped.
    rewrite (proj2 (power_level_by_first_element first rest Hall) Hclamped).
    split; [reflexivity|].
    destruct (traverse _ (first :: rest)); discriminate.
  - intros Hlog.
    unfold _power_level_from_power_spectrogram, vectorize, power_to_decibel,
      math_log10, float_lt, level.
    simpl. rewrite Hlog. repeat split; reflexivity.
Qed.

End PowerLevelOfSquares.

Section SpectrogramTheorems.

Import labeled_example.

Variable log10 : float -> float.
Variable complex : Type.
Variable complex_abs : complex -> spec_float.
Variable mel_filter_dot : ndarray -> ndarray.

Lemma power_spectrogram_sign_clear (stft : list complex) :
  Forall sign_clear (_power_spectrogram complex complex_abs stft).
Proof.
  unfold _power_spectrogram, _amplitude_spectrogram. rewrite map_map.
  apply Forall_forall. intros x Hx. apply in_map_iff in Hx.
  destruct Hx as (c & <- & _). apply SFmul_self_sign_clear.
Qed.

(** The power-level spectrogram of an example cannot leave the domain of
    [math.log10].  The power values are squares of float32 amplitudes, and
    a square has its sign bit clear, whatever [abs] returned; so no power
    value is below zero, as a float32 and as the Python float
    [power_to_decibel] gets, and [spectrogram] with the type [power_level]
    never raises the math domain error, on either frequency scale.  With a
    first power value that is not clamped to the floor it returns the
    array of the levels as floats (float64), without any exception; it
    refuses an empty array; and what is left to fail is the conversion to
    integers after a clamped first value.  The types [power] and
    [amplitude] always return, arrays of dtype float32. *)
Theorem spectrogram_power_level_stays_in_domain
        (frequency_scale : SpectrogramFrequencyScale) (stft : list complex) :
  let scaled := fun s => match frequency_scale with
                         | mel => mel_filter_dot s
                         | linear => s
                         end in
  let powers := _power_spectrogram complex complex_abs stft in
  Forall (fun x => SFltb x (S754_zero false) = false
                   /\ (float_of_float32 x <? 0)%float = false) powers
  /\ spectrogram log10 complex complex_abs mel_filter_dot power_level
                 frequency_scale stft
     <> Raise math_domain_error
  /\ (forall first rest,
         map float_of_float32 powers = first :: rest ->
         (first =? 0)%float = false ->
         (py.float_of_int 10 * log10 first <? floor)%float = false ->
         spectrogram log10 complex complex_abs mel_filter_dot power_level
                     frequency_scale stft
         = Ok (scaled (float64_array
                         (map (level log10) (map float_of_float32 powers)))))
  /\ (stft = [] ->
      exists message,
        spectrogram log10 complex complex_abs mel_filter_dot power_level
                    frequency_scale stft
        = Raise (ValueError message [])
        /\ ValueError message [] <> math_domain_error)
  /\ (forall e,
         spectrogram log10 complex complex_abs mel_filter_dot power_level
                     frequency_scale stft
         = Raise e ->
         stft = []
         \/ (exists first rest,
                map float_of_float32 powers = first :: rest
                /\ ((first =? 0)%float = true
                    \/ (py.float_of_int 10 * log10 first <? floor)%float = true)
                /\ (e = OverflowError
                    \/ e = ValueError "cannot convert float NaN to integer" [])))
  /\ spectrogram log10 complex complex_abs mel_filter_dot power frequency_scale stft
     = Ok (scaled (float32_array powers))
  /\ spectrogram log10 complex complex_abs mel_filter_dot amplitude frequency_scale stft
     = Ok (scaled (float32_array (_amplitude_spectrogram complex complex_abs stft))).
Proof.
  intros scaled powers.
  pose proof (power_spectrogram_sign_clear stft) as Hclear. fold powers in Hclear.
  assert (Hpowers : Forall (fun x => (x <? 0)%float = false)
                           (map float_of_float32 powers)).
  { apply Forall_map. eapply Forall_impl; [|exact Hclear].
    intros x Hx. now apply float_of_float32_not_negative. }
  assert (Hcases : match map float_of_float32 powers with
                   | [] => stft = []
                   | first :: rest =>
                       ((first =? 0)%float = false ->
                        (py.float_of_int 10 * log10 first <? floor)%float = false ->
                        _power_level_from_power_spectrogram
                          log10 (map float_of_float32 powers)
                        = Ok (float64_array
                                (map (level log10) (map float_of_float32 powers))))
                       /\ (forall e,
                              _power_level_from_power_spectrogram
                                log10 (map float_of_float32 powers) = Raise e ->
                              ((first =? 0)%float = true
                               \/ (py.float_of_int 10 * log10 first <? floor)%float
                                  = true)
                              /\ (e = OverflowError
                                  \/ e = ValueError
                                           "cannot convert float NaN to integer" []))
                   end).
  { destruct (map float_of_float32 powers) as [|first rest] eqn:Hp.
    - unfold powers, _power_spectrogram, _amplitude_spectrogram in Hp.
      rewrite !map_map in Hp. destruct stft; [reflexivity | discriminate].
    - destruct (power_level_by_first_element log10 first rest Hpowers)
        as [Hfloat Hint].
      split; [exact Hfloat|]. intros e He.
      destruct (power_to_decibel_number log10 first
                  (Forall_inv Hpowers)) as [(_ & _ & Hclamped)|(_ & Hz & Hl)].
      + split; [exact Hclamped|]. rewrite (Hint Hclamped) in He.
        destruct (traverse _ (first :: rest)) as [ints|e'] eqn:Hints;
          [discriminate|].
        simpl in He. injection He as <-. exact (traverse_int64 log10 _ _ Hints).
      + rewrite (Hfloat Hz Hl) in He. discriminate. }
  assert (Hraise : forall e,
             spectrogram log10 complex complex_abs mel_filter_dot power_level
                         frequency_scale stft
             = Raise e ->
             stft = []
             \/ (exists first rest,
                    map float_of_float32 powers = first :: rest
                    /\ ((first =? 0)%float = true
                        \/ (py.float_of_int 10 * log10 first <? floor)%float = true)
                    /\ (e = OverflowError
                        \/ e = ValueError "cannot convert float NaN to integer" []))).
  { intros e. unfold spectrogram, spectrogram_by_type. fold powers.
    destruct (map float_of_float32 powers) as [|first rest] eqn:Hp; [now left|].
    destruct Hcases as [_ Hfail].
    destruct (_power_level_from_power_spectrogram log10 (first :: rest))
      as [nd|e'] eqn:Hrun; [discriminate|].
    simpl. intros Heq. injection Heq as <-. right. exists first, rest.
    split; [reflexivity|]. now apply Hfail. }
  split; [|split; [|split; [|split; [|split; [exact Hraise|]]]]].
  - rewrite Forall_forall in *. intros x Hx. split.
    + apply sign_clear_not_negative. now apply Hclear.
    + apply float_of_float32_not_negative. now apply Hclear.
  - intros Hdomain.
    destruct (Hraise _ Hdomain) as [->|(first & rest & _ & _ & [He|He])];
      discriminate.
  - intros first rest Hp Hfirst Hlevel.
    unfold spectrogram, spectrogram_by_type. fold powers.
    rewrite Hp in Hcases. destruct Hcases as [Hfloat _].
    rewrite <- Hp in Hfloat. now rewrite (Hfloat Hfirst Hlevel).
  - intros ->. eexists. split; [reflexivity | discriminate].
  - split; reflexivity.
Qed.

End SpectrogramTheorems.

(* ================================================================== *)
(** ** labeled_example.py: the spectrogram files *)
(* ================================================================== *)

Lemma append_cancel_l (prefix a b : string) :
  (prefix ++ a)%string = (prefix ++ b)%string -> a = b.
Proof.
  induction prefix as [|c prefix IH]; simpl; [auto|].
  intros Heq. injection Heq as Heq. now apply IH.
Qed.

Lemma append_assoc (a b c : string) :
  ((a ++ b) ++ c)%string = (a ++ b ++ c)%string.
Proof. induction a as [|x a IH]; simpl; [reflexivity | now rewrite IH]. Qed.

(** For one example, [save_spectrogram] gives every spectrogram type and
    frequency scale a file name of its own, so the six files of
    [save_spectrograms_of_all_types] do not overwrite each other.  Between
    examples the names can collide: the mel spectrogram of an example and
    the linear one of the example whose id is the same with [_mel] at its
    end go to the same file. *)
Theorem save_spectrogram_names_of_one_example (id : string) :
  NoDup (labeled_example.save_spectrograms_of_all_types_names id)
  /\ List.length (labeled_example.save_spectrograms_of_all_types_names id) = 6%nat
  /\ (forall type1 scale1 type2 scale2,
         labeled_example.save_spectrogram_name id type1 scale1
         = labeled_example.save_spectrogram_name id type2 scale2 ->
         type1 = type2 /\ scale1 = scale2)
  /\ (forall type,
         labeled_example.save_spectrogram_name (id ++ "_mel")%string type
                                              labeled_example.linear
         = labeled_example.save_spectrogram_name id type labeled_example.mel).
Proof.
  assert (Hinj : forall type1 scale1 type2 scale2,
             labeled_example.save_spectrogram_name id type1 scale1
             = labeled_example.save_spectrogram_name id type2 scale2 ->
             type1 = type2 /\ scale1 = scale2).
  { intros type1 scale1 type2 scale2 Heq.
    unfold labeled_example.save_spectrogram_name in Heq.
    apply append_cancel_l in Heq.
    destruct type1, scale1, type2, scale2; simpl in Heq;
      first [discriminate | now split]. }
  split; [|split; [reflexivity|split; [exact Hinj|]]].
  - unfold labeled_example.save_spectrograms_of_all_types_names. simpl.
    repeat (constructor;
            [simpl; intros Hin;
             repeat (destruct Hin as [Hin|Hin];
                     [apply Hinj in Hin; destruct Hin; discriminate|]);
             exact Hin|]).
    constructor.
  - intros type. unfold labeled_example.save_spectrogram_name.
    rewrite append_assoc. reflexivity.
Qed.

(* ================================================================== *)
(** ** tools.py: names and extensions of files *)
(* ================================================================== *)

Section Rfind.

Variable c : ascii.

Lemma rfind_bounds (p : text) : -1 <= posixpath.rfind c p < Z.of_nat (List.length p).
Proof.
  induction p as [|x p IH]; simpl List.length; simpl posixpath.rfind; [lia|].
  destruct (Z.leb_spec 0 (posixpath.rfind c p)); [lia|].
  destruct (Ascii.eqb x c); lia.
Qed.

(** The character at the index found is [c], and no [c] comes after. *)
Lemma rfind_at (p : text) :
  0 <= posixpath.rfind c p ->
  nth_error p (Z.to_nat (posixpath.rfind c p)) = Some c.
Proof.
  induction p as [|x p IH]; simpl posixpath.rfind; [lia|].
  destruct (Z.leb_spec 0 (posixpath.rfind c p)) as [Hfound|Hnone].
  - intros _. replace (Z.to_nat (posixpath.rfind c p + 1))
      with (S (Z.to_nat (posixpath.rfind c p))) by lia.
    simpl. now apply IH.
  - destruct (Ascii.eqb_spec x c) as [->|]; [reflexivity | lia].
Qed.

Lemma rfind_after (p : text) : forall i : nat,
  posixpath.rfind c p < Z.of_nat i ->
  Forall (fun x => Ascii.eqb x c = false) (skipn i p).
Proof.
  induction p as [|x p IH]; intros i; [rewrite skipn_nil; constructor|].
  simpl posixpath.rfind.
  destruct (Z.leb_spec 0 (posixpath.rfind c p)) as [Hfound|Hnone]; intros Hi.
  - destruct i as [|i]; [lia|]. simpl. apply IH. lia.
  - destruct i as [|i].
    + simpl. destruct (Ascii.eqb x c) eqn:Hx; [simpl in Hi; lia|].
      constructor; [assumption|]. apply (IH 0%nat). lia.
    + simpl. apply IH. lia.
Qed.

Lemma rfind_none (p : text) :
  Forall (fun x => Ascii.eqb x c = false) p -> posixpath.rfind c p = -1.
Proof.
  induction 1 as [|x p Hx Hp IH]; simpl; [reflexivity|].
  rewrite IH, Hx. reflexivity.
Qed.

Lemma rfind_app (before after : text) :
  Forall (fun x => Ascii.eqb x c = false) after ->
  posixpath.rfind c (before ++ c :: after) = Z.of_nat (List.length before).
Proof.
  intros Hafter. induction before as [|x before IH]; simpl app.
  - simpl. rewrite (rfind_none after Hafter), Ascii.eqb_refl. reflexivity.
  - simpl posixpath.rfind. rewrite IH.
    destruct (Z.leb_spec 0 (Z.of_nat (List.length before))); [|lia].
    simpl List.length. lia.
Qed.

End Rfind.

Lemma string_of_list_ascii_app (a b : text) :
  string_of_list_ascii (a ++ b)
  = (string_of_list_ascii a ++ string_of_list_ascii b)%string.
Proof. induction a as [|x a IH]; simpl; [reflexivity | now rewrite IH]. Qed.

Lemma list_ascii_of_string_app (a b : string) :
  list_ascii_of_string (a ++ b)%string
  = list_ascii_of_string a ++ list_ascii_of_string b.
Proof. induction a as [|x a IH]; simpl; [reflexivity | now rewrite IH]. Qed.

Lemma append_empty_r (s : string) : (s ++ "")%string = s.
Proof. induction s as [|x s IH]; simpl; [reflexivity | now rewrite IH]. Qed.

Lemma skipn_nth_error (A : Type) (l : list A) : forall (i : nat) (x : A),
  nth_error l i = Some x -> skipn i l = x :: skipn (S i) l.
Proof.
  induction l as [|y l IH]; intros [|i] x Hx; simpl in *; try discriminate.
  - now injection Hx as ->.
  - now apply IH.
Qed.

(** What [os.path.splitext] returns. *)
Lemma splitext_spec (p : string) :
  (fst (posixpath.splitext p) ++ snd (posixpath.splitext p))%string = p
  /\ (snd (posixpath.splitext p) = EmptyString
      \/ exists suffix,
          snd (posixpath.splitext p) = String posixpath.extsep suffix
          /\ lacks posixpath.extsep suffix /\ lacks posixpath.sep suffix)
  /\ (forall stem suffix,
         p = (stem ++ String posixpath.extsep suffix)%string ->
         lacks posixpath.sep stem ->
         existsb (fun c => negb (Ascii.eqb c posixpath.extsep))
                 (list_ascii_of_string stem) = true ->
         lacks posixpath.extsep suffix -> lacks posixpath.sep suffix ->
         posixpath.splitext p = (stem, String posixpath.extsep suffix))
  /\ (forall suffix,
         p = String posixpath.extsep suffix ->
         lacks posixpath.extsep suffix -> lacks posixpath.sep suffix ->
         posixpath.splitext p = (p, EmptyString)).
Proof.
  unfold posixpath.splitext.
  set (chars := list_ascii_of_string p).
  set (sepIndex := posixpath.rfind posixpath.sep chars).
  set (dotIndex := posixpath.rfind posixpath.extsep chars).
  pose proof (rfind_bounds posixpath.sep chars) as Hsep. fold sepIndex in Hsep.
  pose proof (rfind_bounds posixpath.extsep chars) as Hdot. fold dotIndex in Hdot.
  split; [|split; [|split]].
  - destruct (_ && _); simpl; [|apply append_empty_r].
    unfold tools.slice_to, tools.slice_from.
    rewrite <- string_of_list_ascii_app, firstn_skipn.
    apply string_of_list_ascii_of_string.
  - destruct (_ && _) eqn:Hcond; simpl; [|now left]. right.
    apply andb_true_iff in Hcond. destruct Hcond as [Hlt _].
    apply Z.ltb_lt in Hlt.
    unfold tools.slice_from. rewrite slice_index_in_range by lia.
    rewrite (skipn_nth_error _ chars _ posixpath.extsep)
      by (apply rfind_at; fold dotIndex; lia).
    exists (string_of_list_ascii (skipn (S (Z.to_nat dotIndex)) chars)).
    split; [reflexivity|].
    unfold lacks. rewrite list_ascii_of_string_of_list_ascii.
    split; apply rfind_after; fold dotIndex; fold sepIndex; lia.
  - intros stem suffix Hp Hstem Hnodot Hsuffix Hsuffix'.
    assert (Hchars : chars = list_ascii_of_string stem
                               ++ posixpath.extsep :: list_ascii_of_string suffix)
      by (unfold chars; rewrite Hp, list_ascii_of_string_app; reflexivity).
    assert (Hd : dotIndex = Z.of_nat (List.length (list_ascii_of_string stem)))
      by (unfold dotIndex; rewrite Hchars; now apply rfind_app).
    assert (Hs : sepIndex = -1).
    { unfold sepIndex. rewrite Hchars. apply rfind_none.
      apply Forall_app. split; [exact Hstem|]. constructor; [reflexivity | exact Hsuffix']. }
    assert (Hlen : List.length chars
                   = (List.length (list_ascii_of_string stem)
                      + S (List.length (list_ascii_of_string suffix)))%nat)
      by (rewrite Hchars, length_app; reflexivity).
    unfold tools.slice, tools.slice_to, tools.slice_from.
    rewrite Hs, Hd. simpl (-1 + 1).
    rewrite !slice_index_in_range by lia.
    rewrite Nat2Z.id. simpl Z.to_nat. rewrite Nat.sub_0_r. simpl skipn at 1.
    rewrite Hchars.
    rewrite firstn_app, Nat.sub_diag, firstn_all, firstn_O, app_nil_r.
    rewrite skipn_app, Nat.sub_diag, skipn_all. simpl app. simpl skipn.
    rewrite Hnodot.
    destruct (Z.ltb_spec (-1) (Z.of_nat (List.length (list_ascii_of_string stem))));
      [|lia].
    simpl. now rewrite !string_of_list_ascii_of_string.
  - intros suffix Hp Hsuffix Hsuffix'.
    assert (Hchars : chars = [] ++ posixpath.extsep :: list_ascii_of_string suffix)
      by (unfold chars; rewrite Hp; reflexivity).
    assert (Hd : dotIndex = 0)
      by (unfold dotIndex; rewrite Hchars; now apply rfind_app).
    assert (Hs : sepIndex = -1).
    { unfold sepIndex. rewrite Hchars. apply rfind_none.
      constructor; [reflexivity | exact Hsuffix']. }
    unfold tools.slice. rewrite Hs, Hd. simpl (-1 + 1).
    rewrite !slice_index_in_range by lia. simpl.
    reflexivity.
Qed.

Section FileNameTheorems.

Context {Path : Type} `{PurePath Path}.

(** [tools.name_without_extension] and [tools.extension] cut the name of
    a file in two: put together again they give the name.  The extension
    is empty or starts at the last dot of the name and holds no other dot;
    a name [stem.suffix] whose stem is not made of dots alone is cut into
    [stem] and [.suffix]; a name that has its only dot in front, as
    [.wav], has no extension and is its own name without extension.  The
    id that [LabeledExample.from_file] gives an example when none is
    passed is the name without extension, and the label is
    [label_from_id] of that id. *)
Theorem name_without_extension_and_extension (audio_file : Path) :
  (name_without_extension audio_file ++ extension audio_file)%string = name audio_file
  /\ (extension audio_file = EmptyString
      \/ exists suffix,
          extension audio_file = String posixpath.extsep suffix
          /\ lacks posixpath.extsep suffix /\ lacks posixpath.sep suffix)
  /\ (forall stem suffix,
         name audio_file = (stem ++ String posixpath.extsep suffix)%string ->
         lacks posixpath.sep stem ->
         existsb (fun c => negb (Ascii.eqb c posixpath.extsep))
                 (list_ascii_of_string stem) = true ->
         lacks posixpath.extsep suffix -> lacks posixpath.sep suffix ->
         name_without_extension audio_file = stem
         /\ extension audio_file = String posixpath.extsep suffix)
  /\ (forall suffix,
         name audio_file = String posixpath.extsep suffix ->
         lacks posixpath.extsep suffix -> lacks posixpath.sep suffix ->
         name_without_extension audio_file = name audio_file
         /\ extension audio_file = EmptyString)
  /\ (forall label_from_id,
         from_file audio_file None label_from_id
         = (name_without_extension audio_file,
            label_from_id (name_without_extension audio_file)))
  /\ (forall id label_from_id,
         from_file audio_file (Some id) label_from_id = (id, label_from_id id)).
Proof.
  unfold name_without_extension, extension, from_file.
  destruct (splitext_spec (name audio_file)) as (Hcat & Hext & Hplain & Hhidden).
  split; [exact Hcat|]. split; [exact Hext|]. split; [|split; [|split]].
  - intros stem suffix Hn H1 H2 H3 H4. now rewrite (Hplain stem suffix Hn H1 H2 H3 H4).
  - intros suffix Hn H1 H2. now rewrite (Hhidden suffix Hn H1 H2).
  - reflexivity.
  - reflexivity.
Qed.

End FileNameTheorems.

(* ================================================================== *)
(** ** corpus.py: the training share at its edges *)
(* ================================================================== *)

Section TrainingShareTheorems.

Context {Path : Type} `{PurePath Path} {G : Type} `{Generator G}.

Lemma filter_all (A : Type) (p : A -> bool) (l : list A) :
  (forall x, In x l -> p x = true) ->
  filter p l = l /\ filter (fun x => negb (p x)) l = [].
Proof.
  induction l as [|x l IH]; simpl; intros Hall; [auto|].
  rewrite (Hall x (or_introl eq_refl)). simpl.
  destruct IH as [-> ->]; [intros y Hy; apply Hall; now right|]. auto.
Qed.

(** [randomly_grouped_by] with a training share that does not fit.  The
    sample size is int(training_share * number of keys): when it cannot be
    taken (a NaN or an infinite product) the exception of [int] comes out,
    and when it is negative or larger than the number of keys
    [random.sample] refuses it with its ValueError; in both cases the
    generator has been seeded and nothing is drawn.  A sample size of 0
    puts every example into the test list, and a sample size equal to the
    number of keys puts every example into the training list. *)
Theorem randomly_grouped_by_training_share_edges
        (K : Type) (KK : Key K) (key_from_example : LabeledExample Path -> K)
        (training_share : float) (fuel : nat)
        (examples : list (LabeledExample Path)) (g : G) :
  let keys := tools.keys (tools.group key_eqb key_ltb key_from_example examples) in
  let size := py.int_of_float
                (training_share * py.float_of_int (Z.of_nat (List.length keys)))%float in
  (forall e, size = Raise e ->
             randomly_grouped_by key_from_example training_share fuel examples g
             = Some (Raise e, seed 42))
  /\ (forall k, size = Ok k ->
                k < 0 \/ Z.of_nat (List.length keys) < k ->
                randomly_grouped_by key_from_example training_share fuel examples g
                = Some (Raise (ValueError "Sample larger than population or is negative"
                                          []),
                        seed 42))
  /\ (in_range ->
      forall parts g',
        size = Ok 0 ->
        randomly_grouped_by key_from_example training_share fuel examples g
        = Some (Ok parts, g') ->
        parts = ([], examples))
  /\ (in_range ->
      (forall a b : K, key_eqb a b = true <-> a = b) ->
      forall parts g',
        size = Ok (Z.of_nat (List.length keys)) ->
        randomly_grouped_by key_from_example training_share fuel examples g
        = Some (Ok parts, g') ->
        parts = (examples, [])).
Proof.
  intros keys size. unfold randomly_grouped_by. fold keys. fold size.
  split; [|split; [|split]].
  - intros e ->. reflexivity.
  - intros k -> Hk. unfold random.sample.
    destruct (Z.leb_spec 0 k), (Z.leb_spec k (Z.of_nat (List.length keys)));
      simpl; try reflexivity; lia.
  - intros Hrange parts g' -> Hrun.
    destruct (random.sample fuel keys 0 (seed 42)) as [[[chosen|e] g1]|] eqn:Hs;
      try discriminate.
    injection Hrun as <- <-.
    destruct (proj2 (sample_spec Hrange keys 0 fuel (seed 42)) ltac:(lia) _ _ Hs)
      as (idx & batch & Hbatch & Hlen & _).
    injection Hbatch as <-. destruct chosen; [|simpl in Hlen; lia].
    simpl.
    assert (Hnone : forall l : list (LabeledExample Path),
               filter (fun _ => false) l = [] /\ filter (fun _ => true) l = l)
      by (induction l as [|x l [IH1 IH2]]; simpl; split; congruence).
    now destruct (Hnone examples) as [-> ->].
  - intros Hrange Heqb parts g' -> Hrun.
    destruct (random.sample fuel keys (Z.of_nat (List.length keys)) (seed 42))
      as [[[chosen|e] g1]|] eqn:Hs; try discriminate.
    injection Hrun as <- <-.
    destruct (proj2 (sample_spec Hrange keys (Z.of_nat (List.length keys)) fuel
                                 (seed 42)) ltac:(lia) _ _ Hs)
      as (idx & batch & Hbatch & Hlen & Hidx & Hfrom).
    injection Hbatch as <-.
    destruct (group_keys _ _ key_eqb key_ltb key_from_example Heqb examples)
      as [Hnd Hin]. fold keys in Hnd, Hin.
    assert (Hchosen : NoDup chosen)
      by exact (drawn_from_NoDup keys idx chosen Hnd Hidx Hfrom).
    assert (Hsub : incl chosen keys).
    { intros x Hx. destruct (drawn_from_In keys idx chosen x Hfrom Hx) as (j & _ & Hj).
      eapply nth_error_In. exact Hj. }
    assert (Hall : incl keys chosen)
      by (apply NoDup_length_incl; [assumption | lia | assumption]).
    destruct (filter_all _ (fun example =>
                              existsb (key_eqb (key_from_example example)) chosen)
                         examples) as [-> ->]; [|reflexivity].
    intros x Hx. apply (existsb_eqb_In K key_eqb Heqb). apply Hall, Hin.
    now exists x.
Qed.

End TrainingShareTheorems.
